(** * StarkPulse backend: daily aggregation pipeline and portfolio
      performance evaluator

    A shallow embedding of

      - [portfolio/utils/portfolio-performance.utils.ts]
      - [snapshot/snapshot.repository.ts], [snapshot/snapshot.generator.ts]
      - [portfolio/portfolio.service.ts], [portfolio/stellar-balance.service.ts]

    Conventions of the embedding.

      - A JavaScript [Date] is its time value: milliseconds since the epoch,
        a [Z].  Only valid dates are represented.
      - A JavaScript number is a [number]: a finite binary64 value, given
        by the rational it denotes, NaN or one of the infinities.  The
        result of an operation is the exact result rounded to the nearest
        binary64 value, ties to even, an infinity from [2^1024 - 2^970]
        on.  The sign of a zero is not represented.
      - Arrays live in a heap and are passed by location, so that copying
        and in-place mutation can be told apart.
      - A database is the content of its tables together with the
        statements executed so far; a numeric column or a numeric cast to
        text is the rational it denotes, [None] for NULL.  Statements are
        taken to succeed, the query of [getPortfolioPerformance] apart,
        which the database rejects; [await] sequences.
      - The local time zone has a fixed offset, so that a calendar day is
        24 hours in local time as it is in UTC. *)

From Stdlib Require Import ZArith QArith Qround Qabs Qpower List Bool Lia Lqa.
From Stdlib Require Import String Ascii Sorted Permutation.
From stdpp Require Import base option list strings gmap.
From Equations Require Import Equations.

Close Scope Q_scope.
Open Scope Z_scope.

(** ** JavaScript numbers *)

Module JS.

Inductive number : Type :=
| Fin (q : Q)
| NaN
| PosInf
| NegInf.

Definition is_finite (x : number) : bool :=
  match x with Fin _ => true | _ => false end.

Definition Qsign_pos (q : Q) : bool := Qle_bool 0 q && negb (Qeq_bool q 0).

(** The positive infinity when [pos], the negative one otherwise. *)
Definition inf_of (pos : bool) : number := if pos then PosInf else NegInf.

(** *** Rounding to binary64 *)

(** The integer nearest to [x], the even one of the two on a tie. *)
Definition round_half_even (x : Q) : Z :=
  let f := Qfloor x in
  match (x - inject_Z f ?= 1 # 2)%Q with
  | Lt => f
  | Gt => f + 1
  | Eq => if Z.even f then f else f + 1
  end.

(** For [a > 0], the [b] with [2^b <= a < 2^(b+1)]. *)
Definition binade (a : Q) : Z :=
  let k := Z.log2 (Qnum a) - Z.log2 (Zpos (Qden a)) in
  if Qle_bool (Qpower 2 k) a then k else k - 1.

(** The exponent of the unit in the last place of the binary64 values
    around [a > 0]: 53 significant bits, and [2^-1074] for the subnormal
    values. *)
Definition ulp_exponent (a : Q) : Z := Z.max (binade a - 52) (-1074).

Definition nearest64 (q : Q) : number :=
  if Qeq_bool q 0 then Fin 0
  else
    let a := Qabs q in
    let e := ulp_exponent a in
    let r := (inject_Z (round_half_even (a / Qpower 2 e)) * Qpower 2 e)%Q in
    if Qle_bool (Qpower 2 1024) r then inf_of (Qle_bool 0 q)
    else Fin (Qred (if Qle_bool 0 q then r else - r)).

(** The number value for a real number: the binary64 value nearest to
    [q], the one with an even significand on a tie. *)
Definition round64 (q : Q) : number := nearest64 (Qred q).

(** A numeric literal of the source. *)
Definition literal (q : Q) : number := round64 q.

(** *** [Number::toString]: the shortest decimal

    For a finite [x > 0] the built-in spells the decimal [s * 10^(n-k)]
    with the least number [k] of digits that has [x] for its number value
    and, among those of [k] digits, the one nearest to [x] (the even [s]
    on a tie).  Only the value of that decimal is represented. *)

(** For [a > 0], the [n] with [10^(n-1) <= a < 10^n]. *)
Definition decimal_exponent (a : Q) : Z :=
  let n0 := binade a * 30103 / 100000 in
  if Qle_bool (Qpower 10 (n0 + 1)) a then n0 + 2
  else if Qle_bool (Qpower 10 n0) a then n0 + 1
  else n0.

Definition rounds_to (x : Q) (candidate : Q) : bool :=
  match round64 candidate with
  | Fin v => Qeq_bool v x
  | _ => false
  end.

Fixpoint shortest_from (fuel : nat) (k : Z) (x : Q) (n : Z) : Q :=
  match fuel with
  | O => x
  | S fuel' =>
      let u := Qpower 10 (n - k) in
      let s := Qfloor (x / u) in
      let lo := (inject_Z s * u)%Q in
      let hi := (lo + u)%Q in
      match rounds_to x lo, rounds_to x hi with
      | true, true =>
          match (x - lo ?= hi - x)%Q with
          | Lt => lo
          | Gt => hi
          | Eq => if Z.even s then lo else hi
          end
      | true, false => lo
      | false, true => hi
      | false, false => shortest_from fuel' (k + 1) x n
      end
  end.

(** The value of the decimal [Number::toString] spells for a finite
    number. *)
Definition to_decimal (q : Q) : Q :=
  if Qeq_bool q 0 then 0%Q
  else
    let a := Qabs q in
    let d := shortest_from 17 1 a (decimal_exponent a) in
    if Qle_bool 0 q then d else (- d)%Q.

(** [x - y] *)
Definition num_sub (x y : number) : number :=
  match x, y with
  | NaN, _ | _, NaN => NaN
  | Fin a, Fin b => round64 (a - b)
  | Fin _, PosInf => NegInf
  | Fin _, NegInf => PosInf
  | PosInf, PosInf => NaN
  | PosInf, _ => PosInf
  | NegInf, NegInf => NaN
  | NegInf, _ => NegInf
  end.

(** [x + y] *)
Definition num_add (x y : number) : number :=
  match x, y with
  | NaN, _ | _, NaN => NaN
  | Fin a, Fin b => round64 (a + b)
  | Fin _, PosInf => PosInf
  | Fin _, NegInf => NegInf
  | PosInf, NegInf => NaN
  | PosInf, _ => PosInf
  | NegInf, PosInf => NaN
  | NegInf, _ => NegInf
  end.

(** [x * y]: an infinity times zero is NaN. *)
Definition num_mul (x y : number) : number :=
  match x, y with
  | NaN, _ | _, NaN => NaN
  | Fin a, Fin b => round64 (a * b)
  | Fin a, PosInf | PosInf, Fin a =>
      if Qeq_bool a 0 then NaN else inf_of (Qsign_pos a)
  | Fin a, NegInf | NegInf, Fin a =>
      if Qeq_bool a 0 then NaN else inf_of (negb (Qsign_pos a))
  | PosInf, PosInf | NegInf, NegInf => PosInf
  | PosInf, NegInf | NegInf, PosInf => NegInf
  end.

(** [x / y]: a non-zero number over zero is an infinity, zero over zero is
    NaN.  The sign of a zero is not represented; a zero divisor is taken
    as [+0]. *)
Definition num_div (x y : number) : number :=
  match x, y with
  | NaN, _ | _, NaN => NaN
  | Fin a, Fin b =>
      if Qeq_bool b 0
      then (if Qeq_bool a 0 then NaN else inf_of (Qsign_pos a))
      else round64 (a / b)
  | Fin _, _ => Fin 0
  | PosInf, Fin b => inf_of (Qle_bool 0 b)
  | NegInf, Fin b => inf_of (negb (Qle_bool 0 b))
  | _, _ => NaN
  end.

(** [x !== y] on numbers: NaN differs from everything, itself included. *)
Definition strict_neq (x y : number) : bool :=
  match x, y with
  | Fin a, Fin b => negb (Qeq_bool a b)
  | PosInf, PosInf | NegInf, NegInf => false
  | _, _ => true
  end.

(** *** Decimal digits *)

Definition digit_char (d : Z) : ascii := ascii_of_nat (Z.to_nat (48 + d)).

Definition digit_val (c : ascii) : option Z :=
  let n := Z.of_nat (nat_of_ascii c) in
  if (48 <=? n) && (n <=? 57) then Some (n - 48) else None.

(** The decimal digits of [n >= 0], most significant first, put in front
    of [acc]. *)
Fixpoint digits_aux (fuel : nat) (n : Z) (acc : string) : string :=
  match fuel with
  | O => acc
  | S fuel' =>
      let acc' := String (digit_char (n mod 10)) acc in
      if n <? 10 then acc' else digits_aux fuel' (n / 10) acc'
  end.

Definition digits (n : Z) : string :=
  digits_aux (S (Z.to_nat (Z.log2 n))) n "".

(** The [d] low decimal digits of [n], put in front of [acc]. *)
Fixpoint digits_fixed (d : nat) (n : Z) (acc : string) : string :=
  match d with
  | O => acc
  | S d' => digits_fixed d' (n / 10) (String (digit_char (n mod 10)) acc)
  end.

(** *** [Number.prototype.toFixed]

    [n] is the integer for which [n / 10^f - x] is as close to zero as
    possible, the larger one on a tie; a negative [x] is negated first and
    written with a minus sign.  From [10^21] on the built-in switches to
    exponent notation, which spells the same number; the plain decimal
    spelling is kept here. *)
Definition toFixed (x : number) (fractionDigits : nat) : string :=
  match x with
  | NaN => "NaN"
  | PosInf => "Infinity"
  | NegInf => "-Infinity"
  | Fin q =>
      let s := if Qle_bool 0 q then "" else "-" in
      let p := 10 ^ Z.of_nat fractionDigits in
      let n := Qfloor (Qabs q * inject_Z p + (1 # 2)) in
      let m :=
        match fractionDigits with
        | O => digits n
        | _ => digits (n / p) ++ "." ++ digits_fixed fractionDigits (n mod p) ""
        end in
      s ++ m
  end%string.

(** *** [parseFloat]

    Leading white space is skipped, then the longest prefix that is a
    [StrDecimalLiteral] is read:
    [[+-]? (Infinity | digits [. digits?] [exp]? | . digits [exp]?)].
    Strings are taken over ASCII. *)

Definition is_white_space (c : ascii) : bool :=
  let n := nat_of_ascii c in
  ((9 <=? n) && (n <=? 13) || (n =? 32))%nat.

Fixpoint skip_white_space (s : string) : string :=
  match s with
  | String c s' => if is_white_space c then skip_white_space s' else s
  | EmptyString => s
  end.

(** Reads decimal digits: the value read on top of [acc], how many digits
    were read on top of [count], and the rest. *)
Fixpoint read_digits (s : string) (acc : Z) (count : nat) : Z * nat * string :=
  match s with
  | String c s' =>
      match digit_val c with
      | Some d => read_digits s' (10 * acc + d) (S count)
      | None => (acc, count, s)
      end
  | EmptyString => (acc, count, s)
  end.

Definition read_sign (s : string) : Z * string :=
  match s with
  | String "+" s' => (1, s')
  | String "-" s' => (-1, s')
  | _ => (1, s)
  end.

(** [ExponentPart], when one follows; [0] otherwise. *)
Definition read_exponent (s : string) : Z :=
  match s with
  | String c s' =>
      if (Ascii.eqb c "e" || Ascii.eqb c "E")%bool
      then
        let '(sg, s'') := read_sign s' in
        let '(e, count, _) := read_digits s'' 0 0 in
        match count with O => 0 | _ => sg * e end
      else 0
  | EmptyString => 0
  end.

(** The mathematical value of a [StrUnsignedDecimalLiteral] other than
    [Infinity], with the sign read before it; [None] when no digit is
    read. *)
Definition decimal_value (sg : Z) (s1 : string) : option Q :=
  let '(ip, c1, s2) := read_digits s1 0 0 in
  let '(fp, c2, s3) :=
    match s2 with
    | String "." s2' => read_digits s2' 0 0
    | _ => (0, O, s2)
    end in
  match (c1 + c2)%nat with
  | O => None
  | _ =>
      Some (inject_Z sg
            * (inject_Z ip + inject_Z fp / inject_Z (10 ^ Z.of_nat c2))
            * Qpower (inject_Z 10) (read_exponent s3))%Q
  end.

(** The number value of the literal; NaN when there is none. *)
Definition parse_unsigned (sg : Z) (s1 : string) : number :=
  match decimal_value sg s1 with
  | Some q => round64 q
  | None => NaN
  end.

Definition parseFloat (inputString : string) : number :=
  let trimmed := skip_white_space inputString in
  let '(sg, s1) := read_sign trimmed in
  if String.prefix "Infinity" s1 then inf_of (0 <? sg)
  else parse_unsigned sg s1.

(** [x] rounded to [d] decimals, ties away from zero. *)
Definition round_decimals (d : nat) (q : Q) : Q :=
  let p := 10 ^ Z.of_nat d in
  let n := Qfloor (Qabs q * inject_Z p + (1 # 2)) in
  ((if Qle_bool 0 q then 1 else -1) * (inject_Z n / inject_Z p))%Q.

(** *** Reference notions *)

(** Equality of numbers, up to the representation of a rational. *)
Definition num_eq (x y : number) : Prop :=
  match x, y with
  | Fin a, Fin b => (a == b)%Q
  | NaN, NaN | PosInf, PosInf | NegInf, NegInf => True
  | _, _ => False
  end.

(** A number rounded to [d] decimals: the number value for the decimal of
    [d] places nearest to it.  NaN and the infinities are left as they
    are. *)
Definition round_number (d : nat) (x : number) : number :=
  match x with
  | Fin q => round64 (round_decimals d q)
  | _ => x
  end.

(** The values a binary64 number can have. *)
Definition binary64 (q : Q) : Prop := round64 q = Fin q.

(** How far the number value of a decimal of [s] places that is nearest
    to a value of magnitude [a] can be from that value: half a unit of the
    last place, and the rounding to binary64. *)
Definition tolerance (s : nat) (a : Q) : Q :=
  ((1 # 2) / inject_Z (10 ^ Z.of_nat s)
   + (a + (1 # 2) / inject_Z (10 ^ Z.of_nat s)) * Qpower 2 (-53)
   + Qpower 2 (-1075))%Q.

End JS.

Export JS.

(** ** portfolio-performance.utils.ts *)

Module Performance.

Record AssetBalance : Type := mkAssetBalance {
  assetCode : string;
  assetIssuer : option string;
  amount : string;
  valueUsd : number
}.

(** [interface SnapshotData]. *)
Record SnapshotData : Type := mkSnapshotData {
  id : string;
  userId : string;
  createdAt : Z;
  assetBalances : list AssetBalance;
  totalValueUsd : string
}.

Inductive WindowName : Type := W24h | W7d | W30d.

Record PerformanceWindowConfig : Type := mkConfig {
  window : WindowName;
  hours : Z
}.

Definition PERFORMANCE_WINDOWS : list PerformanceWindowConfig :=
  [ mkConfig W24h 24; mkConfig W7d (24 * 7); mkConfig W30d (24 * 30) ].

Definition msPerHour : Z := 3600000.

(** [calculateBaselineDate]: [setHours(getHours() - hours)] on a copy of
    [now].  The hour arithmetic is done on local time; in a zone with a
    fixed offset from UTC (the tests run in UTC) it moves the instant back
    by exactly [hours] hours. *)
Definition calculateBaselineDate (now : Z) (hours : Z) : Z :=
  now - hours * msPerHour.

(** *** The array heap *)

Definition loc : Type := nat.

(** The heap is the sequence of arrays allocated so far; a location is an
    index into it. *)
Abbreviation heap := (list (list SnapshotData)).

Definition read (h : heap) (l : loc) : list SnapshotData :=
  default [] (h !! l).

(** [[...a]]: a new array with the elements of [a]. *)
Definition spread (a : loc) (h : heap) : loc * heap :=
  (length h, h ++ [read h a]).

(** *** [Array.prototype.sort] with the comparator
        [(a, b) => a.createdAt.getTime() - b.createdAt.getTime()]

    The sort is stable (ECMAScript 2019), and the comparator is a total
    preorder on valid dates, so the sorted array is determined: it is the
    one insertion sort computes. *)

Definition compareCreatedAt (a b : SnapshotData) : Z :=
  createdAt a - createdAt b.

Fixpoint insert_sorted (x : SnapshotData) (l : list SnapshotData)
  : list SnapshotData :=
  match l with
  | [] => [x]
  | y :: l' =>
      if compareCreatedAt x y <=? 0 then x :: y :: l'
      else y :: insert_sorted x l'
  end.

Fixpoint sort_by_createdAt (l : list SnapshotData) : list SnapshotData :=
  match l with
  | [] => []
  | x :: l' => insert_sorted x (sort_by_createdAt l')
  end.

(** [a.sort(cmp)]: sorts the array at [a] in place. *)
Definition sort_in_place (a : loc) (h : heap) : heap :=
  alter sort_by_createdAt a h.

(** *** The scan *)

(** [minDiff] starts at [Infinity]. *)
Inductive ext : Type :=
| Infinity
| Finite (z : Z).

Definition lt_ext (d : Z) (m : ext) : bool :=
  match m with
  | Infinity => true
  | Finite z => d <? z
  end.

(** One iteration of [for (const snapshot of sortedSnapshots)]; the state
    is [(closestSnapshot, minDiff)]. *)
Definition scan_step (targetDate : Z)
    (st : option SnapshotData * ext) (snapshot : SnapshotData)
  : option SnapshotData * ext :=
  let diff := Z.abs (createdAt snapshot - targetDate) in
  if (createdAt snapshot <=? targetDate) && lt_ext diff (snd st)
  then (Some snapshot, Finite diff)
  else st.

Definition scan (targetDate : Z) (l : list SnapshotData)
    (st : option SnapshotData * ext) : option SnapshotData * ext :=
  fold_left (scan_step targetDate) l st.

(** [findClosestSnapshot(snapshots, targetDate)]. *)
Definition findClosestSnapshot (snapshots : loc) (targetDate : Z) (h : heap)
  : option SnapshotData * heap :=
  if (length (read h snapshots) =? 0)%nat then (None, h)
  else
    let '(sortedSnapshots, h1) := spread snapshots h in
    let h2 := sort_in_place sortedSnapshots h1 in
    (fst (scan targetDate (read h2 sortedSnapshots) (None, Infinity)), h2).

(** [class TimeWindowPerformanceDto]; [null] is [None]. *)
Record TimeWindowPerformanceDto : Type := mkWindowDto {
  dto_window : WindowName;
  hasData : bool;
  absolutePnl : option number;
  percentageChange : option number;
  currentValueUsd : number;
  baselineValueUsd : option number;
  baselineDate : option Z
}.

(** [calculateWindowPerformance(currentValue, baselineSnapshot, windowConfig)]. *)
Definition calculateWindowPerformance (currentValue : number)
    (baselineSnapshot : option SnapshotData)
    (windowConfig : PerformanceWindowConfig) : TimeWindowPerformanceDto :=
  match baselineSnapshot with
  | None =>
      {| dto_window := window windowConfig;
         hasData := false;
         absolutePnl := None;
         percentageChange := None;
         currentValueUsd := currentValue;
         baselineValueUsd := None;
         baselineDate := None |}
  | Some baseline =>
      let baselineValue := parseFloat (totalValueUsd baseline) in
      let absolutePnl := num_sub currentValue baselineValue in
      let percentageChange :=
        if strict_neq baselineValue (Fin 0)
        then num_mul (num_div absolutePnl baselineValue) (Fin 100)
        else Fin 0 in
      {| dto_window := window windowConfig;
         hasData := true;
         absolutePnl := Some (parseFloat (toFixed absolutePnl 2));
         percentageChange := Some (parseFloat (toFixed percentageChange 4));
         currentValueUsd := currentValue;
         baselineValueUsd := Some baselineValue;
         baselineDate := Some (createdAt baseline) |}
  end.

Record PortfolioPerformanceResponseDto : Type := mkResponse {
  resp_userId : string;
  resp_currentValueUsd : number;
  calculatedAt : Z;
  windows : list TimeWindowPerformanceDto
}.

(** [Array.prototype.map] with a callback that uses the heap. *)
Fixpoint map_heap {A B : Type} (f : A -> heap -> B * heap) (l : list A)
    (h : heap) : list B * heap :=
  match l with
  | [] => ([], h)
  | x :: l' =>
      let '(y, h1) := f x h in
      let '(ys, h2) := map_heap f l' h1 in
      (y :: ys, h2)
  end.

(** The callback of [PERFORMANCE_WINDOWS.map] in
    [calculatePortfolioPerformance]. *)
Definition window_callback (currentValueUsd : number) (snapshots : loc)
    (now : Z) (config : PerformanceWindowConfig) (h : heap)
  : TimeWindowPerformanceDto * heap :=
  let baselineDate := calculateBaselineDate now (hours config) in
  let '(baselineSnapshot, h1) := findClosestSnapshot snapshots baselineDate h in
  (calculateWindowPerformance currentValueUsd baselineSnapshot config, h1).

(** [calculatePortfolioPerformance(userId, currentValueUsd, snapshots, now)];
    the default [now = new Date()] is the caller's to supply. *)
Definition calculatePortfolioPerformance (userId : string)
    (currentValueUsd : number) (snapshots : loc) (now : Z) (h : heap)
  : PortfolioPerformanceResponseDto * heap :=
  let '(windows, h1) :=
    map_heap (window_callback currentValueUsd snapshots now)
             PERFORMANCE_WINDOWS h in
  ({| resp_userId := userId;
      resp_currentValueUsd := currentValueUsd;
      calculatedAt := now;
      windows := windows |}, h1).

(** *** Reference selection

    The candidate the scan is compared with: among the elements of the
    caller's array, in the caller's order, the first one whose [createdAt]
    is the latest not after the target. *)

Definition eligible (targetDate : Z) (s : SnapshotData) : bool :=
  createdAt s <=? targetDate.

(** The latest [createdAt] not after the target, if there is one. *)
Definition latest_eligible (targetDate : Z) (l : list SnapshotData)
  : option Z :=
  fold_right
    (fun s m =>
       if eligible targetDate s
       then match m with
            | Some t => Some (Z.max (createdAt s) t)
            | None => Some (createdAt s)
            end
       else m)
    None l.

Definition first_latest_eligible (targetDate : Z) (l : list SnapshotData)
  : option SnapshotData :=
  match latest_eligible targetDate l with
  | Some t => List.find (fun s => createdAt s =? t) l
  | None => None
  end.

(** The order the comparator sorts by. *)
Definition createdAt_le (a b : SnapshotData) : Prop :=
  createdAt a <= createdAt b.

(** The result of one window, as a function of the array's content. *)
Definition window_result (currentValueUsd : number)
    (arr : list SnapshotData) (now : Z) (config : PerformanceWindowConfig)
  : TimeWindowPerformanceDto :=
  calculateWindowPerformance currentValueUsd
    (first_latest_eligible (calculateBaselineDate now (hours config)) arr)
    config.

(** *** Sample data: the arrays of the unit tests *)

Definition at_2026_02_20_12 : Z := 1771588800000.

Definition sample (i : string) (t : Z) (v : string) : SnapshotData :=
  mkSnapshotData i "user-1" t [] v.

Definition three_windows : list SnapshotData :=
  [ sample "1" (at_2026_02_20_12 - 24 * msPerHour) "100.00";
    sample "2" (at_2026_02_20_12 - 168 * msPerHour) "80.00";
    sample "3" (at_2026_02_20_12 - 720 * msPerHour) "50.00" ].

(** Two observations taken at the same instant, and a later one. *)
Definition tied : list SnapshotData :=
  [ sample "late" (at_2026_02_20_12 + 5) "1.00";
    sample "a" (at_2026_02_20_12 - 48 * msPerHour) "10.00";
    sample "b" (at_2026_02_20_12 - 48 * msPerHour) "20.00";
    sample "old" (at_2026_02_20_12 - 72 * msPerHour) "5.00" ].

End Performance.

(** ** snapshot.repository.ts and snapshot.generator.ts *)

Module Snapshot.

Definition msPerDay : Z := 86400000.

(** [toUtcMidnight]: [Date.UTC] of the UTC year, month and day of [d].
    ([Date.UTC] maps the years 0 to 99 into the twentieth century; instants
    before the year 100 are outside the embedding.) *)
Definition toUtcMidnight (d : Z) : Z := d - d mod msPerDay.

(** A calendar date, as the text ['YYYY-MM-DD'] or as an SQL [date], is
    represented by its day number since the epoch. *)
Definition toDateString (d : Z) : Z := d / msPerDay.

(** *** The table [sentiment_signals]

    Only the query names it; the columns are the ones the query reads.
    [asset_symbol] and [volume] are nullable.  The source does not
    declare the table: the cells of the result are texts that go through
    [parseFloat], and [sentiment_score] and [volume] are taken to be
    [numeric] columns, whose sums and products are exact and whose
    quotients the database rounds at a scale it selects from the
    operands.  That scale is a parameter, [scale] below. *)
Record SentimentSignal : Type := mkSignal {
  asset_symbol : option string;
  sentiment_score : Q;
  volume : option Q;
  signal_timestamp : Z
}.

(** [DATE(signal_timestamp AT TIME ZONE 'UTC')], for a [timestamptz]
    column: the UTC calendar date of the instant. *)
Definition signal_date (r : SentimentSignal) : Z :=
  signal_timestamp r / msPerDay.

(** *** SQL aggregates over a nullable numeric column: NULLs are skipped,
        and an aggregate over no value is NULL *)

Fixpoint non_null (l : list (option Q)) : list Q :=
  match l with
  | [] => []
  | Some v :: l' => v :: non_null l'
  | None :: l' => non_null l'
  end.

Definition Qsum (l : list Q) : Q := fold_right Qplus 0%Q l.

Definition sql_sum (l : list (option Q)) : option Q :=
  match non_null l with
  | [] => None
  | vs => Some (Qsum vs)
  end.

(** The quotient of two numerics, rounded at the scale the database
    selects for them. *)
Definition numeric_div (scale : Q -> Q -> nat) (x y : Q) : Q :=
  round_decimals (scale x y) (x / y).

Definition sql_avg (scale : Q -> Q -> nat) (l : list (option Q)) : option Q :=
  match non_null l with
  | [] => None
  | vs => Some (numeric_div scale (Qsum vs) (inject_Z (Z.of_nat (length vs))))
  end.

Definition Qmin (a b : Q) : Q := if Qle_bool a b then a else b.
Definition Qmax (a b : Q) : Q := if Qle_bool a b then b else a.

Definition sql_min (l : list (option Q)) : option Q :=
  match non_null l with
  | [] => None
  | v :: vs => Some (fold_left Qmin vs v)
  end.

Definition sql_max (l : list (option Q)) : option Q :=
  match non_null l with
  | [] => None
  | v :: vs => Some (fold_left Qmax vs v)
  end.

(** [a * b] on nullable numerics. *)
Definition sql_mul (a b : option Q) : option Q :=
  match a, b with
  | Some x, Some y => Some (x * y)%Q
  | _, _ => None
  end.

(** [CASE WHEN v > 0 THEN t ELSE NULL END]: the comparison with NULL is
    unknown, and the branch is taken only when it is true. *)
Definition sql_case_positive (v : option Q) (t : option Q) : option Q :=
  match v with
  | Some x => if Qle_bool x 0 then None else t
  | None => None
  end.

(** [a / b] on nullable numerics. *)
Definition sql_div (scale : Q -> Q -> nat) (a b : option Q) : option Q :=
  match a, b with
  | Some x, Some y => Some (numeric_div scale x y)
  | _, _ => None
  end.

(** [AssetAggregationRow]: one row of the query's result.  A cell cast to
    [::text] is represented by the numeric it spells, [None] for NULL. *)
Record AssetAggregationRow : Type := mkRow {
  row_asset_symbol : option string;
  avg_sentiment : option Q;
  min_sentiment : option Q;
  max_sentiment : option Q;
  signal_count : Z;
  total_volume : option Q;
  volume_weighted_sentiment : option Q
}.

(** The select list shared by the two halves of the [UNION ALL], evaluated
    on the rows of one group. *)
Definition select_list (scale : Q -> Q -> nat) (symbol : option string)
    (group : list SentimentSignal) : AssetAggregationRow :=
  let scores := map (fun r => Some (sentiment_score r)) group in
  let volumes := map volume group in
  let products :=
    map (fun r => sql_mul (Some (sentiment_score r)) (volume r)) group in
  {| row_asset_symbol := symbol;
     avg_sentiment := sql_avg scale scores;
     min_sentiment := sql_min scores;
     max_sentiment := sql_max scores;
     signal_count := Z.of_nat (length group);
     total_volume := sql_sum volumes;
     volume_weighted_sentiment :=
       sql_case_positive (sql_sum volumes)
                         (sql_div scale (sql_sum products)
                                  (sql_sum volumes)) |}.

Definition symbol_is (k : string) (r : SentimentSignal) : bool :=
  match asset_symbol r with
  | Some s => String.eqb s k
  | None => false
  end.

(** The distinct values of a [GROUP BY] column, in order of first
    occurrence (SQL leaves the order of the groups open). *)
Fixpoint distinct (l : list string) : list string :=
  match l with
  | [] => []
  | k :: l' => k :: List.filter (fun k' => negb (String.eqb k' k)) (distinct l')
  end.

(** The query of [aggregateForDate]: the per-asset [SELECT ... GROUP BY
    asset_symbol], then the global [SELECT], which has aggregates and no
    [GROUP BY] and so yields exactly one row. *)
Definition aggregation_query (scale : Q -> Q -> nat)
    (table : list SentimentSignal) (dateStr : Z) : list AssetAggregationRow :=
  let of_day := List.filter (fun r => signal_date r =? dateStr) table in
  let with_symbol :=
    List.filter (fun r => match asset_symbol r with
                          | Some _ => true
                          | None => false
                          end) of_day in
  let symbols := distinct (omap asset_symbol with_symbol) in
  map (fun k => select_list scale (Some k)
                  (List.filter (symbol_is k) with_symbol))
      symbols
  ++ [select_list scale None of_day].

(** [AssetAggregation]: the parsed row. *)
Record AssetAggregation : Type := mkAggregation {
  assetSymbol : option string;
  avgSentiment : number;
  minSentiment : option number;
  maxSentiment : option number;
  signalCount : Z;
  totalVolume : option number;
  volumeWeightedSentiment : option number
}.

(** [parseFloat] of a text cell, the number value for the numeric it
    spells; [parseFloat(null)] is NaN. *)
Definition parseFloat_cell (v : option Q) : number :=
  match v with
  | Some q => round64 q
  | None => NaN
  end.

(** [nullableFloat]; the text of a numeric is never empty. *)
Definition nullableFloat (v : option Q) : option number :=
  match v with
  | None => None
  | Some q => Some (parseFloat_cell (Some q))
  end.

Definition parseRow (row : AssetAggregationRow) : AssetAggregation :=
  {| assetSymbol := row_asset_symbol row;
     avgSentiment := parseFloat_cell (avg_sentiment row);
     minSentiment := nullableFloat (min_sentiment row);
     maxSentiment := nullableFloat (max_sentiment row);
     signalCount := signal_count row;
     totalVolume := nullableFloat (total_volume row);
     volumeWeightedSentiment := nullableFloat (volume_weighted_sentiment row) |}.

(** *** The table [daily_snapshots]

    The columns an insert supplies; [id], [created_at] and [updated_at]
    are the database's. *)
Record DailySnapshot : Type := mkDailySnapshot {
  snapshotDate : Z;
  ds_assetSymbol : option string;
  ds_avgSentiment : number;
  ds_minSentiment : option number;
  ds_maxSentiment : option number;
  ds_signalCount : Z;
  ds_totalVolume : option number;
  ds_volumeWeightedSentiment : option number
}.

Inductive Query : Type :=
| QAggregate (dateStr : Z)
| QUpsert (entities : list DailySnapshot).

(** The database: the two tables and the statements executed so far;
    and two facts of the deployment that the source leaves open: the
    scale at which the database rounds the quotient of two numerics, and
    the offset of the local time of the process from UTC, in
    milliseconds, which decides the calendar day the ORM writes for a
    [Date]. *)
Record DB : Type := mkDB {
  sentiment_signals : list SentimentSignal;
  daily_snapshots : list DailySnapshot;
  executed : list Query;
  quotient_scale : Q -> Q -> nat;
  local_offset : Z
}.

Definition aggregateForDate (utcDate : Z) (db : DB)
  : list AssetAggregation * DB :=
  let dateStr := toDateString utcDate in
  let raw :=
    aggregation_query (quotient_scale db) (sentiment_signals db) dateStr in
  (map parseRow raw,
   {| sentiment_signals := sentiment_signals db;
      daily_snapshots := daily_snapshots db;
      executed := executed db ++ [QAggregate dateStr];
      quotient_scale := quotient_scale db;
      local_offset := local_offset db |}).

(** The arbiter of [ON CONFLICT (snapshot_date, asset_symbol)] is the
    unique index [UQ_daily_snapshots_date_asset] the entity declares.  In
    a unique index two NULLs are distinct: a row whose [asset_symbol] is
    NULL conflicts with no row. *)
Definition conflicts (e r : DailySnapshot) : bool :=
  (toDateString (snapshotDate e) =? toDateString (snapshotDate r))
  && match ds_assetSymbol e, ds_assetSymbol r with
     | Some a, Some b => String.eqb a b
     | _, _ => false
     end.

(** [INSERT ... ON CONFLICT ... DO UPDATE SET] of one row: the statistic
    columns of the conflicting row are overwritten, in place; without a
    conflict the row is added. *)
Fixpoint upsert_row (e : DailySnapshot) (table : list DailySnapshot)
  : list DailySnapshot :=
  match table with
  | [] => [e]
  | r :: table' =>
      if conflicts e r
      then {| snapshotDate := snapshotDate r;
              ds_assetSymbol := ds_assetSymbol r;
              ds_avgSentiment := ds_avgSentiment e;
              ds_minSentiment := ds_minSentiment e;
              ds_maxSentiment := ds_maxSentiment e;
              ds_signalCount := ds_signalCount e;
              ds_totalVolume := ds_totalVolume e;
              ds_volumeWeightedSentiment := ds_volumeWeightedSentiment e |}
           :: table'
      else r :: upsert_row e table'
  end.

(** The entity [upsertSnapshots] builds from one aggregation. *)
Definition entity_of (utcDate : Z) (agg : AssetAggregation) : DailySnapshot :=
  {| snapshotDate := utcDate;
     ds_assetSymbol := assetSymbol agg;
     ds_avgSentiment := avgSentiment agg;
     ds_minSentiment := minSentiment agg;
     ds_maxSentiment := maxSentiment agg;
     ds_signalCount := signalCount agg;
     ds_totalVolume := totalVolume agg;
     ds_volumeWeightedSentiment := volumeWeightedSentiment agg |}.

(** The value of a [date] column for a [Date]: the ORM writes the
    calendar day of the instant in the local time of the process.  The
    day is kept as the instant of its midnight in UTC. *)
Definition local_date (offset : Z) (d : Z) : Z :=
  (d + offset) / msPerDay * msPerDay.

(** The value of a [numeric(precision, scale)] column for a number: the
    driver sends the text of the number, and the database rounds the
    decimal it spells to the scale of the column, ties away from zero.
    NaN is a value of the type. *)
Definition numeric_column (scale : nat) (x : number) : number :=
  match x with
  | Fin q => Fin (Qred (round_decimals scale (to_decimal q)))
  | _ => x
  end.

(** The values of the columns of the row an entity is written as:
    [numeric(10, 6)] for the statistics of the sentiment,
    [numeric(20, 4)] for the volume. *)
Definition column_values (offset : Z) (e : DailySnapshot) : DailySnapshot :=
  {| snapshotDate := local_date offset (snapshotDate e);
     ds_assetSymbol := ds_assetSymbol e;
     ds_avgSentiment := numeric_column 6 (ds_avgSentiment e);
     ds_minSentiment := option_map (numeric_column 6) (ds_minSentiment e);
     ds_maxSentiment := option_map (numeric_column 6) (ds_maxSentiment e);
     ds_signalCount := ds_signalCount e;
     ds_totalVolume := option_map (numeric_column 4) (ds_totalVolume e);
     ds_volumeWeightedSentiment :=
       option_map (numeric_column 6) (ds_volumeWeightedSentiment e) |}.

(** One [INSERT] of a batch of rows. *)
Definition upsert_all (entities table : list DailySnapshot)
  : list DailySnapshot :=
  fold_left (fun t e => upsert_row e t) entities table.

(** [upsertSnapshots(utcDate, aggregations)].  The [INSERT] is taken to
    succeed; the database rejects it when a value does not fit its column
    (a statistic of five or more integer digits, a symbol of more than
    20 characters). *)
Definition upsertSnapshots (utcDate : Z) (aggregations : list AssetAggregation)
    (db : DB) : Z * DB :=
  if (length aggregations =? 0)%nat then (0, db)
  else
    let entities := map (entity_of utcDate) aggregations in
    (Z.of_nat (length entities),
     {| sentiment_signals := sentiment_signals db;
        daily_snapshots :=
          upsert_all (map (column_values (local_offset db)) entities)
                     (daily_snapshots db);
        executed := executed db ++ [QUpsert entities];
        quotient_scale := quotient_scale db;
        local_offset := local_offset db |}).

(** [SnapshotRunResult], without [durationMs], a reading of the wall
    clock. *)
Record SnapshotRunResult : Type := mkRunResult {
  date : Z;
  assetRowsWritten : Z;
  globalRowWritten : bool
}.

Definition is_global (a : AssetAggregation) : bool :=
  match assetSymbol a with
  | None => true
  | Some _ => false
  end.

(** [generateForDate(date)]. *)
Definition generateForDate (date0 : Z) (db : DB) : SnapshotRunResult * DB :=
  let utcDate := toUtcMidnight date0 in
  let '(aggregations, db1) := aggregateForDate utcDate db in
  if (length aggregations =? 0)%nat
  then ({| date := utcDate; assetRowsWritten := 0;
           globalRowWritten := false |}, db1)
  else
    let globalRow := List.find is_global aggregations in
    let assetRows := List.filter (fun a => negb (is_global a)) aggregations in
    let '(written, db2) := upsertSnapshots utcDate aggregations db1 in
    ({| date := utcDate;
        assetRowsWritten := Z.of_nat (length assetRows);
        globalRowWritten := match globalRow with
                            | Some _ => true
                            | None => false
                            end |}, db2).

(** The [while (cursor <= end)] loop of [backfill]. *)
Equations? backfill_loop (cursor end_ : Z) (results : list SnapshotRunResult)
    (db : DB) : list SnapshotRunResult * DB
    by wf (Z.to_nat (end_ - cursor + 1)) lt :=
  backfill_loop cursor end_ results db with Z_le_gt_dec cursor end_ => {
    | left _ =>
        let '(result, db1) := generateForDate cursor db in
        backfill_loop (cursor + msPerDay) end_ (results ++ [result]) db1;
    | right _ => (results, db) }.
Proof. unfold msPerDay. lia. Qed.

(** [backfill(from, to)]. *)
Definition backfill (from to : Z) (db : DB) : list SnapshotRunResult * DB :=
  let cursor := toUtcMidnight from in
  let end_ := toUtcMidnight to in
  backfill_loop cursor end_ [] db.

(** *** Reference notions *)

(** The rows of a group that carry a weight, as (score, weight). *)
Fixpoint weighted (group : list SentimentSignal) : list (Q * Q) :=
  match group with
  | [] => []
  | r :: group' =>
      match volume r with
      | Some w => (sentiment_score r, w) :: weighted group'
      | None => weighted group'
      end
  end.

Definition sum_weights (group : list SentimentSignal) : Q :=
  Qsum (map snd (weighted group)).

Definition sum_weighted_scores (group : list SentimentSignal) : Q :=
  Qsum (map (fun sw => (fst sw * snd sw)%Q) (weighted group)).

(** The weighted-average rule with the guard read as "total weight is 0
    or null": null then, and otherwise a number (the quotient, to whatever
    tolerance). *)
Definition null_only_at_zero_weight (scale : Q -> Q -> nat)
    (group : list SentimentSignal) : Prop :=
  let a := parseRow (select_list scale None group) in
  let no_weight :=
    totalVolume a = None
    \/ exists w, totalVolume a = Some (Fin w) /\ (w == 0)%Q in
  (no_weight -> volumeWeightedSentiment a = None)
  /\ (~ no_weight -> exists v, volumeWeightedSentiment a = Some v).

(** The days [start], [start + 1 day], ... : [n] of them. *)
Fixpoint day_range (start : Z) (n : nat) : list Z :=
  match n with
  | O => []
  | S n' => start :: day_range (start + msPerDay) n'
  end.

(** [generateForDate] for each date of a list, in order. *)
Fixpoint run_each (dates : list Z) (db : DB) : list SnapshotRunResult * DB :=
  match dates with
  | [] => ([], db)
  | d :: dates' =>
      let '(r, db1) := generateForDate d db in
      let '(rs, db2) := run_each dates' db1 in
      (r :: rs, db2)
  end.

(** How many days the loop visits. *)
Definition day_count (cursor end_ : Z) : nat :=
  Z.to_nat ((end_ - cursor) / msPerDay + 1).

(** [e] is settled in a table when upserting it changes nothing. *)
Definition settled (e : DailySnapshot) (table : list DailySnapshot) : Prop :=
  upsert_row e table = table.

Definition keyed (e : DailySnapshot) : Prop := ds_assetSymbol e <> None.

(** Two entities that no row can conflict with at once. *)
Definition apart (e e2 : DailySnapshot) : Prop :=
  forall r, conflicts e r = true -> conflicts e2 r = false.

(** *** Sample data *)

Definition day_2024_06_15 : Z := 1718409600000.

Definition btc (score weight : Q) (ms : Z) : SentimentSignal :=
  mkSignal (Some "BTC"%string) score (Some weight) (day_2024_06_15 + ms).

(** Three records for BTC on 2024-06-15. *)
Definition scenario_1 : list SentimentSignal :=
  [ btc (5 # 10) 10 1000; btc (7 # 10) 20 2000; btc (9 # 10) 30 3000 ].

(** The records of [scenario_1] and one more for BTC on the next day. *)
Definition two_days : list SentimentSignal :=
  scenario_1
  ++ [ mkSignal (Some "BTC"%string) (3 # 10)%Q (Some 5%Q)
         (day_2024_06_15 + msPerDay + 1000) ].

(** A database with the given records and nothing stored, of a process
    whose local time is UTC; quotients are rounded at 20 decimals, the
    scale PostgreSQL selects for a quotient between 0.0001 and 1. *)
Definition db_of (table : list SentimentSignal) : DB :=
  {| sentiment_signals := table;
     daily_snapshots := [];
     executed := [];
     quotient_scale := fun _ _ => 20%nat;
     local_offset := 0 |}.

(** One record whose volume is negative. *)
Definition negative_volume : list SentimentSignal :=
  [ btc (5 # 10) (-10) 1000 ].

(** The row the global [SELECT] yields for a day without records. *)
Definition empty_day_row : AssetAggregation :=
  {| assetSymbol := None;
     avgSentiment := NaN;
     minSentiment := None;
     maxSentiment := None;
     signalCount := 0;
     totalVolume := None;
     volumeWeightedSentiment := None |}.

(** *** The rest of the repository and of the generator *)

(** [generateForYesterday()]; [now] is what [new Date()] reads.
    [setUTCDate(getUTCDate() - 1)] moves the instant back by one day. *)
Definition generateForYesterday (now : Z) (db : DB) : SnapshotRunResult * DB :=
  generateForDate (now - msPerDay) db.

(** [s.asset_symbol = :assetSymbol]: never true of NULL. *)
Definition same_asset (assetSymbol0 : string) (r : DailySnapshot) : bool :=
  match ds_assetSymbol r with
  | Some s => String.eqb s assetSymbol0
  | None => false
  end.

(** [s.snapshot_date >= :from AND s.snapshot_date <= :to], the bounds
    being the date strings of [from] and [to]. *)
Definition in_date_range (from to : Z) (r : DailySnapshot) : bool :=
  (toDateString from <=? toDateString (snapshotDate r))
  && (toDateString (snapshotDate r) <=? toDateString to).

(** [ORDER BY s.snapshot_date ASC]; rows of one date are left in the
    order of the table (SQL leaves their order open). *)
Fixpoint insert_by_date (r : DailySnapshot) (l : list DailySnapshot)
  : list DailySnapshot :=
  match l with
  | [] => [r]
  | y :: l' =>
      if toDateString (snapshotDate r) <=? toDateString (snapshotDate y)
      then r :: y :: l'
      else y :: insert_by_date r l'
  end.

Fixpoint order_by_date (l : list DailySnapshot) : list DailySnapshot :=
  match l with
  | [] => []
  | r :: l' => insert_by_date r (order_by_date l')
  end.

(** [findByAssetAndDateRange(assetSymbol, from, to)]: a read. *)
Definition findByAssetAndDateRange (assetSymbol0 : string) (from to : Z)
    (db : DB) : list DailySnapshot :=
  order_by_date
    (List.filter (fun r => same_asset assetSymbol0 r && in_date_range from to r)
                 (daily_snapshots db)).

(** The (date, symbol) pairs of the rows that have a symbol. *)
Fixpoint keyed_ids (table : list DailySnapshot) : list (Z * string) :=
  match table with
  | [] => []
  | r :: table' =>
      match ds_assetSymbol r with
      | Some s => (toDateString (snapshotDate r), s) :: keyed_ids table'
      | None => keyed_ids table'
      end
  end.

(** At most one row for a date and a symbol. *)
Definition unique_keys (table : list DailySnapshot) : Prop :=
  List.NoDup (keyed_ids table).

(** The records of a day, and those of them that name a given symbol. *)
Definition records_of_day (table : list SentimentSignal) (dateStr : Z)
  : list SentimentSignal :=
  List.filter (fun r => signal_date r =? dateStr) table.

Definition records_of_symbol (table : list SentimentSignal) (dateStr : Z)
    (k : string) : list SentimentSignal :=
  List.filter (symbol_is k) (records_of_day table dateStr).

(** The symbols the records of a day name, each once. *)
Definition symbols_of_day (table : list SentimentSignal) (dateStr : Z)
  : list string :=
  distinct
    (omap asset_symbol
       (List.filter (fun r => match asset_symbol r with
                              | Some _ => true
                              | None => false
                              end) (records_of_day table dateStr))).

(** The records a row of an aggregation is computed from: those of the
    day that name its symbol, all those of the day for the global row. *)
Definition group_of (db : DB) (dateStr : Z) (symbol : option string)
  : list SentimentSignal :=
  match symbol with
  | Some k => records_of_symbol (sentiment_signals db) dateStr k
  | None => records_of_day (sentiment_signals db) dateStr
  end.

(** A row summarises its records: the count is their number; the least
    and the greatest score are read as the minimum and the maximum, and
    the mean of the scores, which lies between the two, rounded as the
    database rounds a quotient, is read as the average. *)
Definition summarises (db : DB) (utcDate : Z) (a : AssetAggregation) : Prop :=
  let group := group_of db (toDateString utcDate) (assetSymbol a) in
  let scores := map sentiment_score group in
  let n := inject_Z (Z.of_nat (length group)) in
  signalCount a = Z.of_nat (length group)
  /\ (assetSymbol a <> None -> 1 <= signalCount a)
  /\ (group = [] ->
      avgSentiment a = NaN /\ minSentiment a = None
      /\ maxSentiment a = None)
  /\ (group <> [] ->
      exists mn mx,
        In mn scores /\ In mx scores
        /\ (forall x, In x scores -> (mn <= x)%Q /\ (x <= mx)%Q)
        /\ (mn <= Qsum scores / n)%Q /\ (Qsum scores / n <= mx)%Q
        /\ minSentiment a = Some (round64 mn)
        /\ maxSentiment a = Some (round64 mx)
        /\ avgSentiment a
           = round64 (numeric_div (quotient_scale db) (Qsum scores) n)).

(** The records that name no symbol ([asset_symbol IS NULL]). *)
Definition without_symbol (r : SentimentSignal) : bool :=
  match asset_symbol r with
  | Some _ => false
  | None => true
  end.

Definition date_of_row (r : DailySnapshot) : Z := toDateString (snapshotDate r).

(** The rows a run for [date0] writes, as the columns hold them. *)
Definition run_rows (date0 : Z) (db : DB) : list DailySnapshot :=
  map (column_values (local_offset db))
      (map (entity_of (toUtcMidnight date0))
           (fst (aggregateForDate (toUtcMidnight date0) db))).

(** The day under which a run for the UTC midnight [utcDate] stores its
    rows. *)
Definition stored_day (db : DB) (utcDate : Z) : Z :=
  toDateString (local_date (local_offset db) utcDate).

Definition by_date (a b : DailySnapshot) : Prop := date_of_row a <= date_of_row b.

Definition before_date (a b : DailySnapshot) : Prop :=
  date_of_row a < date_of_row b.

(** The columns of the unique index of a row. *)
Definition row_key (r : DailySnapshot) : Z * option string :=
  (date_of_row r, ds_assetSymbol r).

(** The statistic columns of a row, the ones an upsert overwrites. *)
Definition statistics (r : DailySnapshot)
  : number * option number * option number * Z * option number
    * option number :=
  (ds_avgSentiment r, ds_minSentiment r, ds_maxSentiment r, ds_signalCount r,
   ds_totalVolume r, ds_volumeWeightedSentiment r).

(** The rows of a table whose date satisfies [f]. *)
Definition rows_where (f : Z -> bool) (table : list DailySnapshot)
  : list DailySnapshot :=
  List.filter (fun r => f (date_of_row r)) table.

End Snapshot.


(** ** stellar-balance.service.ts and portfolio.service.ts *)

Module Portfolio.
Import Performance.

Record StellarBalance : Type := mkStellarBalance {
  sb_assetCode : string;
  sb_assetIssuer : option string;
  sb_balance : string
}.

(** [interface BalanceLine]; an optional field that is absent is [None]. *)
Record BalanceLine : Type := mkBalanceLine {
  asset_type : string;
  asset_code : option string;
  asset_issuer : option string;
  bl_balance : string
}.

(** [class PortfolioAsset], without its timestamps. *)
Record PortfolioAsset : Type := mkPortfolioAsset {
  pa_id : string;
  pa_userId : string;
  pa_assetCode : string;
  pa_assetIssuer : option string;
  pa_amount : string
}.

Inductive LogLevel : Type := LevelLog | LevelWarn | LevelError.

(** What the service asks of its collaborators, in order. *)
Inductive Call : Type :=
| Logged (level : LogLevel)
| FindUser (id : string)
| LoadAccount (publicKey : string)
| FindAssets (userId : string)
| SaveSnapshot (snapshot : SnapshotData).

(** The collaborators: the user and asset tables, the snapshot table, the
    Horizon server ([None]: [loadAccount] rejects), and what the database
    will supply for the generated columns of the next snapshot. *)
Record World : Type := mkWorld {
  users : list string;
  portfolio_assets : list PortfolioAsset;
  portfolio_snapshots : list SnapshotData;
  horizon : string -> option (list BalanceLine);
  db_uuid : nat -> string;
  db_now : Z;
  calls : list Call
}.

Definition record_call (c : Call) (w : World) : World :=
  {| users := users w;
     portfolio_assets := portfolio_assets w;
     portfolio_snapshots := portfolio_snapshots w;
     horizon := horizon w;
     db_uuid := db_uuid w;
     db_now := db_now w;
     calls := calls w ++ [c] |}.

Inductive Exception : Type :=
| NotFoundException (message : string)
| HorizonError
| QueryFailedError.

Inductive outcome (A : Type) : Type :=
| Returned (a : A)
| Thrown (e : Exception).
Arguments Returned {A} a.
Arguments Thrown {A} e.

(** A string in a condition: true unless empty; [undefined] is false. *)
Definition truthy (s : option string) : bool :=
  match s with
  | Some s' => negb (String.eqb s' "")
  | None => false
  end.

(** The callback of [balances.map] in [getAccountBalances]. *)
Definition balance_of_line (b : BalanceLine) : option StellarBalance :=
  if String.eqb (asset_type b) "native"
  then Some (mkStellarBalance "XLM" None (bl_balance b))
  else
    match asset_code b, asset_issuer b with
    | Some c, Some i =>
        if truthy (Some c) && truthy (Some i)
        then Some (mkStellarBalance c (Some i) (bl_balance b))
        else None
    | _, _ => None
    end.

(** [getAccountBalances(publicKey)]: logs and rethrows what [loadAccount]
    throws. *)
Definition getAccountBalances (publicKey : string) (w : World)
  : outcome (list StellarBalance) * World :=
  let w1 := record_call (LoadAccount publicKey) w in
  match horizon w publicKey with
  | Some balances =>
      (Returned (omap balance_of_line balances), w1)
  | None => (Thrown HorizonError, record_call (Logged LevelError) w1)
  end.

(** A property read on the object literal [mockPrices]: one of its own
    three, one inherited from [Object.prototype] (a function or an
    object), or [undefined]. *)
Inductive property : Type :=
| Own (v : number)
| Inherited
| Undefined.

Definition object_prototype_keys : list string :=
  [ "constructor"; "toString"; "toLocaleString"; "valueOf";
    "hasOwnProperty"; "isPrototypeOf"; "propertyIsEnumerable"; "__proto__";
    "__defineGetter__"; "__defineSetter__"; "__lookupGetter__";
    "__lookupSetter__" ]%string.

Definition mockPrices (assetCode : string) : property :=
  if String.eqb assetCode "XLM" then Own (literal (12 # 100))
  else if String.eqb assetCode "USDC" then Own (literal 1)
  else if String.eqb assetCode "BTC" then Own (literal 45000)
  else if existsb (String.eqb assetCode) object_prototype_keys then Inherited
  else Undefined.

(** [getAssetValueUsd]: [price = mockPrices[assetCode] || 0], then
    [parseFloat(amount) * price].  An inherited property is truthy and
    not a number: the product is NaN. *)
Definition getAssetValueUsd (assetCode : string) (assetIssuer : option string)
    (amount : string) : number :=
  let numAmount := parseFloat amount in
  match mockPrices assetCode with
  | Own price => num_mul numAmount price
  | Undefined => num_mul numAmount (Fin 0)
  | Inherited => NaN
  end.

(** The two [map] callbacks of [createSnapshot]: the balance with its
    value, and [totalValueUsd += valueUsd]. *)
Definition value_balance (assetCode : string) (assetIssuer : option string)
    (amount : string) (totalValueUsd : number) : AssetBalance * number :=
  let valueUsd := getAssetValueUsd assetCode assetIssuer amount in
  (mkAssetBalance assetCode assetIssuer amount valueUsd,
   num_add totalValueUsd valueUsd).

Fixpoint map_total {A : Type} (f : A -> number -> AssetBalance * number)
    (l : list A) (totalValueUsd : number) : list AssetBalance * number :=
  match l with
  | [] => ([], totalValueUsd)
  | x :: l' =>
      let '(b, t1) := f x totalValueUsd in
      let '(bs, t2) := map_total f l' t1 in
      (b :: bs, t2)
  end.

Definition value_stellar (balance : StellarBalance) :=
  value_balance (sb_assetCode balance) (sb_assetIssuer balance)
                (sb_balance balance).

Definition value_asset (asset : PortfolioAsset) :=
  value_balance (pa_assetCode asset) (pa_assetIssuer asset) (pa_amount asset).

(** [snapshotRepository.save(snapshotRepository.create(...))]: the
    database supplies [id] and [createdAt]. *)
Definition save_snapshot (userId0 : string) (balances : list AssetBalance)
    (total : string) (w : World) : SnapshotData * World :=
  let snapshot :=
    {| id := db_uuid w (length (portfolio_snapshots w));
       userId := userId0;
       createdAt := db_now w;
       assetBalances := balances;
       totalValueUsd := total |} in
  (snapshot,
   {| users := users w;
      portfolio_assets := portfolio_assets w;
      portfolio_snapshots := portfolio_snapshots w ++ [snapshot];
      horizon := horizon w;
      db_uuid := db_uuid w;
      db_now := db_now w;
      calls := calls w ++ [SaveSnapshot snapshot] |}).

(** [createSnapshot(userId)]. *)
Definition createSnapshot (userId0 : string) (w : World)
  : outcome SnapshotData * World :=
  let w := record_call (Logged LevelLog) w in
  let w := record_call (FindUser userId0) w in
  match List.find (String.eqb userId0) (users w) with
  | None =>
      (Thrown (NotFoundException ("User " ++ userId0 ++ " not found")), w)
  | Some user_id =>
      let '(fetched, w) := getAccountBalances user_id w in
      let '(assetBalances, totalValueUsd, w) :=
        match fetched with
        | Returned stellarBalances =>
            (map_total value_stellar stellarBalances (Fin 0), w)
        | Thrown _ =>
            let w := record_call (Logged LevelWarn) w in
            let w := record_call (FindAssets userId0) w in
            let portfolioAssets :=
              List.filter (fun a => String.eqb (pa_userId a) userId0)
                          (portfolio_assets w) in
            (map_total value_asset portfolioAssets (Fin 0), w)
        end in
      let '(saved, w) :=
        save_snapshot userId0 assetBalances (toFixed totalValueUsd 2) w in
      (Returned saved, w)
  end.

(** The sum [totalValueUsd += valueUsd] computes over a list of holdings,
    from 0. *)
Definition sum_values (balances : list AssetBalance) : number :=
  fold_left num_add (map valueUsd balances) (Fin 0).

(** An asset code that names a property [mockPrices] inherits. *)
Definition inherited (assetCode : string) : bool :=
  existsb (String.eqb assetCode) object_prototype_keys.

(** A holding with its value. *)
Definition valued (b : AssetBalance) : Prop :=
  valueUsd b = getAssetValueUsd (assetCode b) (assetIssuer b) (amount b).

(** What a holding is of: its code, its issuer and its amount. *)
Definition held (b : AssetBalance) : string * option string * string :=
  (assetCode b, assetIssuer b, amount b).

(** What a user holds, as the stores have it: the balances Horizon has
    for the account, native ones as XLM and the others when they carry a
    code and an issuer, in their order; when Horizon fails, the rows of
    the asset table for the user, in the order of the table. *)
Definition holdings_of (userId0 : string) (w : World)
  : list (string * option string * string) :=
  match horizon w userId0 with
  | Some lines =>
      map (fun s => (sb_assetCode s, sb_assetIssuer s, sb_balance s))
          (omap balance_of_line lines)
  | None =>
      map (fun a => (pa_assetCode a, pa_assetIssuer a, pa_amount a))
          (List.filter (fun a => String.eqb (pa_userId a) userId0)
                       (portfolio_assets w))
  end.

(** What the world is after a snapshot was saved: the stores but for the
    one new row, the log apart. *)
Definition saved_in (snapshot : SnapshotData) (w w' : World) : Prop :=
  users w' = users w
  /\ portfolio_assets w' = portfolio_assets w
  /\ portfolio_snapshots w' = portfolio_snapshots w ++ [snapshot]
  /\ horizon w' = horizon w
  /\ db_uuid w' = db_uuid w
  /\ db_now w' = db_now w.

(** *** The scheduled and the manual job *)

Section Loop.

(** What the loop calls for each user; [createSnapshot] below. *)
Variable create : string -> World -> outcome SnapshotData * World.

(** [for (const user of users) { try { ...; successCount++ } catch {
    logger.error(...); failCount++ } }]. *)
Fixpoint snapshot_loop (remaining : list string) (successCount failCount : Z)
    (w : World) : Z * Z * World :=
  match remaining with
  | [] => (successCount, failCount, w)
  | user :: remaining' =>
      match create user w with
      | (Returned _, w1) =>
          snapshot_loop remaining' (successCount + 1) failCount w1
      | (Thrown _, w1) =>
          snapshot_loop remaining' successCount (failCount + 1)
                        (record_call (Logged LevelError) w1)
      end
  end.

End Loop.




(** *** [getPortfolioHistory] *)

(** [Math.ceil]; the sign of a zero is not represented. *)
Definition ceil (x : number) : number :=
  match x with
  | Fin q => Fin (inject_Z (Qceiling q))
  | _ => x
  end.

(** [order: { createdAt: 'DESC' }]: newest first.  SQL leaves the order of
    rows of one [createdAt] open, and each query may order them as it
    likes: the order a query gives the rows it selects is a parameter of
    the query, [order_by].  It is a descending order of the rows when it
    keeps the rows and puts none before a newer one. *)
Definition newer_or_same (a b : SnapshotData) : Prop :=
  createdAt b <= createdAt a.

Definition descending (order_by : list SnapshotData -> list SnapshotData)
    (rows : list SnapshotData) : Prop :=
  Permutation (order_by rows) rows
  /\ StronglySorted newer_or_same (order_by rows).

(** One such order: among the rows of one [createdAt], the reverse of the
    order the ascending sort gives them. *)
Definition newest_first (l : list SnapshotData) : list SnapshotData :=
  rev (sort_by_createdAt l).

Definition of_user (userId0 : string) (table : list SnapshotData)
  : list SnapshotData :=
  List.filter (fun s => String.eqb (userId s) userId0) table.

(** [snapshotRepository.findAndCount({ where: { userId }, order, skip,
    take })]: the rows of the page, and the number of rows of the user.
    [skip] and [take] are the OFFSET and the LIMIT of the query; they are
    whole numbers, [skip] not negative and [take] at least 1, as the
    validation of the request leaves them. *)
Definition findAndCount
    (order_by : list SnapshotData -> list SnapshotData)
    (userId0 : string) (skip take : Z) (w : World)
  : list SnapshotData * Z :=
  let rows := of_user userId0 (portfolio_snapshots w) in
  (firstn (Z.to_nat take) (skipn (Z.to_nat skip) (order_by rows)),
   Z.of_nat (length rows)).

Record PortfolioHistoryResponseDto : Type := mkHistory {
  snapshots : list SnapshotData;
  total : Z;
  page : Z;
  limit : Z;
  totalPages : number
}.

(** [getPortfolioHistory(userId, page, limit)]; [order_by] is the order
    the database gives the rows of this query. *)
Definition getPortfolioHistory
    (order_by : list SnapshotData -> list SnapshotData)
    (userId0 : string) (page0 limit0 : Z) (w : World)
  : PortfolioHistoryResponseDto :=
  let skip := (page0 - 1) * limit0 in
  let '(found, total0) := findAndCount order_by userId0 skip limit0 w in
  let snapshotDtos :=
    map (fun snapshot =>
           {| id := id snapshot;
              userId := userId snapshot;
              createdAt := createdAt snapshot;
              assetBalances := assetBalances snapshot;
              totalValueUsd := totalValueUsd snapshot |}) found in
  {| snapshots := snapshotDtos;
     total := total0;
     page := page0;
     limit := limit0;
     totalPages :=
       ceil (num_div (Fin (inject_Z total0)) (Fin (inject_Z limit0))) |}.

(** *** [getPortfolioPerformance] *)

(** [snapshotRepository.find({ where: { userId, createdAt: { $gte:
    thirtyDaysAgo } }, order })].  [$gte] is not an operator of the ORM:
    the object is bound as the value the column [createdAt] is compared
    with, the database cannot read it as a timestamp and rejects the
    query, whatever the table holds. *)
Definition find_since (userId0 : string) (thirtyDaysAgo : Z)
    (table : list SnapshotData) : outcome (list SnapshotData) :=
  Thrown QueryFailedError.

(** [getPortfolioPerformance(userId)]; [now] and [calculatedNow] are the two
    readings of the clock, the one of [thirtyDaysAgo] and the one
    [calculatePortfolioPerformance] takes by default.  The array a
    query returns is a new one. *)
Definition getPortfolioPerformance (userId0 : string) (now calculatedNow : Z)
    (w : World) (h : heap)
  : outcome PortfolioPerformanceResponseDto * World * heap :=
  let w := record_call (Logged LevelLog) w in
  let w := record_call (FindUser userId0) w in
  match List.find (String.eqb userId0) (users w) with
  | None =>
      (Thrown (NotFoundException ("User " ++ userId0 ++ " not found")), w, h)
  | Some _ =>
      match createSnapshot userId0 w with
      | (Thrown e, w1) => (Thrown e, w1, h)
      | (Returned currentSnapshot, w1) =>
          let currentValueUsd := parseFloat (totalValueUsd currentSnapshot) in
          let thirtyDaysAgo := now - 30 * (24 * msPerHour) in
          match find_since userId0 thirtyDaysAgo (portfolio_snapshots w1) with
          | Thrown e => (Thrown e, w1, h)
          | Returned historicalSnapshots =>
              let found := length h in
              let h1 := h ++ [historicalSnapshots] in
              let '(response, h2) :=
                calculatePortfolioPerformance userId0 currentValueUsd found
                                              calculatedNow h1 in
              (Returned response, w1, h2)
          end
      end
  end.

(** *** Sample data *)

Definition alice : string := "11111111-1111-4111-8111-111111111111".

Definition offline_world : World :=
  {| users := [alice];
     portfolio_assets :=
       [ mkPortfolioAsset "a1" alice "XLM" None "100.00000000";
         mkPortfolioAsset "a2" "someone-else" "BTC" None "1.00000000";
         mkPortfolioAsset "a3" alice "USDC" (Some "GA5Z") "2.50000000" ];
     portfolio_snapshots := [];
     horizon := fun _ => None;
     db_uuid := fun _ => "22222222-2222-4222-8222-222222222222";
     db_now := at_2026_02_20_12;
     calls := [] |}.

(** A user whose only holding, in the asset table, is 1.005 USDC. *)
Definition rounding_world : World :=
  {| users := [alice];
     portfolio_assets :=
       [ mkPortfolioAsset "a1" alice "USDC" (Some "GA5Z"%string)
                          "1.00500000" ];
     portfolio_snapshots := [];
     horizon := fun _ => None;
     db_uuid := fun _ => "22222222-2222-4222-8222-222222222222";
     db_now := at_2026_02_20_12;
     calls := [] |}.

Definition stored (id0 userId0 : string) (createdAt0 : Z) (total0 : string)
  : SnapshotData :=
  {| id := id0; userId := userId0; createdAt := createdAt0;
     assetBalances := []; totalValueUsd := total0 |}.

(** A snapshot table with three snapshots of one user, not in the order
    of their dates, and one of another user. *)
Definition history_world : World :=
  {| users := [alice];
     portfolio_assets := [];
     portfolio_snapshots :=
       [ stored "s2" alice (at_2026_02_20_12 - 24 * msPerHour) "80.00";
         stored "s1" alice (at_2026_02_20_12 - 48 * msPerHour) "60.00";
         stored "t1" "someone-else" (at_2026_02_20_12 - 12 * msPerHour)
                "7.00";
         stored "s3" alice at_2026_02_20_12 "100.00" ];
     horizon := fun _ => None;
     db_uuid := fun _ => "22222222-2222-4222-8222-222222222222";
     db_now := at_2026_02_20_12;
     calls := [] |}.

(** A snapshot table with two snapshots of one date. *)
Definition tied_world : World :=
  {| users := [alice];
     portfolio_assets := [];
     portfolio_snapshots :=
       [ stored "s1" alice at_2026_02_20_12 "60.00";
         stored "s2" alice at_2026_02_20_12 "80.00" ];
     horizon := fun _ => None;
     db_uuid := fun _ => "22222222-2222-4222-8222-222222222222";
     db_now := at_2026_02_20_12;
     calls := [] |}.

(** A user whose Horizon account has a native line, a credit line and a
    line of pool shares. *)
Definition online_world : World :=
  {| users := [alice];
     portfolio_assets :=
       [ mkPortfolioAsset "a1" alice "BTC" None "1.00000000" ];
     portfolio_snapshots := [];
     horizon := fun _ =>
       Some [ mkBalanceLine "native" None None "100.0000000";
              mkBalanceLine "credit_alphanum4" (Some "USDC"%string)
                            (Some "GA5Z"%string) "2.5000000";
              mkBalanceLine "liquidity_pool_shares" None None "7.0000000" ];
     db_uuid := fun _ => "22222222-2222-4222-8222-222222222222";
     db_now := at_2026_02_20_12;
     calls := [] |}.

(** A user whose asset table has a row under the code [constructor]. *)
Definition poisoned_world : World :=
  {| users := [alice];
     portfolio_assets :=
       [ mkPortfolioAsset "a1" alice "XLM" None "100.00000000";
         mkPortfolioAsset "a4" alice "constructor" None "1.00000000" ];
     portfolio_snapshots := [];
     horizon := fun _ => None;
     db_uuid := fun _ => "22222222-2222-4222-8222-222222222222";
     db_now := at_2026_02_20_12;
     calls := [] |}.

End Portfolio.

(** * Proofs *)

(** ** Numbers and their decimal spelling *)

Module JSProofs.
Import JS.

Lemma num_eq_refl x : num_eq x x.
Proof. destruct x; simpl; auto. reflexivity. Qed.

Lemma digit_val_char d : 0 <= d <= 9 -> digit_val (digit_char d) = Some d.
Proof.
  intros H.
  assert (d = 0 \/ d = 1 \/ d = 2 \/ d = 3 \/ d = 4 \/ d = 5 \/ d = 6
          \/ d = 7 \/ d = 8 \/ d = 9) as Hd by lia.
  repeat destruct Hd as [->|Hd]; try subst d; reflexivity.
Qed.

Lemma digit_val_mod n : digit_val (digit_char (n mod 10)) = Some (n mod 10).
Proof. apply digit_val_char. pose proof (Z.mod_pos_bound n 10). lia. Qed.

(** A digit is not white space, not a sign and not the [I] of
    [Infinity]. *)
Lemma digit_first c d s :
  digit_val c = Some d ->
  skip_white_space (String c s) = String c s
  /\ read_sign (String c s) = (1, String c s)
  /\ String.prefix "Infinity" (String c s) = false.
Proof.
  destruct c as [[] [] [] [] [] [] [] []]; intros H;
    try discriminate H; repeat split.
Qed.

Lemma read_digits_fixed d : forall n t a c,
  read_digits (digits_fixed d n t) a c
  = read_digits t (a * 10 ^ Z.of_nat d + n mod 10 ^ Z.of_nat d) (c + d).
Proof.
  induction d as [|d IH]; intros n t a c.
  - cbn [digits_fixed]. change (10 ^ Z.of_nat 0) with 1.
    rewrite Z.mod_1_r, Nat.add_0_r. f_equal; lia.
  - cbn [digits_fixed]. rewrite IH. cbn [read_digits].
    rewrite digit_val_mod. rewrite Nat2Z.inj_succ, Z.pow_succ_r by lia.
    assert (0 < 10 ^ Z.of_nat d) by (apply Z.pow_pos_nonneg; lia).
    rewrite (Z.rem_mul_r n 10 (10 ^ Z.of_nat d)) by lia.
    f_equal; lia.
Qed.

Lemma digits_aux_S fuel n t :
  digits_aux (S fuel) n t
  = if n <? 10 then String (digit_char (n mod 10)) t
    else digits_aux fuel (n / 10) (String (digit_char (n mod 10)) t).
Proof. reflexivity. Qed.

Lemma read_digits_aux fuel : forall n,
  0 <= n < 2 ^ Z.of_nat (S fuel) ->
  exists k, forall t a c,
    read_digits (digits_aux (S fuel) n t) a c
    = read_digits t (a * 10 ^ Z.of_nat (S k) + n) (c + S k).
Proof.
  induction fuel as [|fuel IH]; intros n Hn.
  - exists O. intros t a c. cbn [digits_aux].
    change (2 ^ Z.of_nat 1) with 2 in Hn.
    destruct (Z.ltb_spec n 10); [|lia].
    cbn [read_digits]. rewrite digit_val_mod.
    rewrite Z.mod_small by lia. f_equal; lia.
  - destruct (Z.ltb_spec n 10) as [Hlt|Hge].
    + exists O. intros t a c. rewrite digits_aux_S.
      destruct (Z.ltb_spec n 10); [|lia].
      cbn [read_digits]. rewrite digit_val_mod.
      rewrite Z.mod_small by lia. f_equal; lia.
    + destruct (IH (n / 10)) as [k Hk].
      { split; [apply Z.div_pos; lia|].
        apply Z.div_lt_upper_bound; [lia|].
        rewrite (Nat2Z.inj_succ (S fuel)), Z.pow_succ_r in Hn by lia. lia. }
      exists (S k). intros t a c. rewrite digits_aux_S.
      destruct (Z.ltb_spec n 10); [lia|].
      rewrite Hk. cbn [read_digits].
      rewrite digit_val_mod.
      rewrite (Nat2Z.inj_succ (S k)), Z.pow_succ_r by lia.
      pose proof (Z_div_mod_eq_full n 10).
      f_equal; lia.
Qed.

Lemma digits_aux_app fuel : forall n u t,
  (digits_aux fuel n u ++ t)%string = digits_aux fuel n (u ++ t).
Proof.
  induction fuel as [|fuel IH]; intros n u t; [reflexivity|].
  rewrite !digits_aux_S. destruct (n <? 10); [reflexivity|]. apply IH.
Qed.

Lemma read_digits_of_digits n :
  0 <= n ->
  exists k, forall t a c,
    read_digits (digits n ++ t) a c
    = read_digits t (a * 10 ^ Z.of_nat (S k) + n) (c + S k).
Proof.
  intros Hn. unfold digits.
  assert (Hb : 0 <= n < 2 ^ Z.of_nat (S (Z.to_nat (Z.log2 n)))).
  { split; [exact Hn|]. rewrite Nat2Z.inj_succ, Z2Nat.id
      by apply Z.log2_nonneg.
    destruct (Z.eq_dec n 0) as [->|]; [reflexivity|].
    apply Z.log2_spec. lia. }
  destruct (read_digits_aux _ n Hb) as [k Hk]. exists k. intros t a c.
  rewrite digits_aux_app. apply Hk.
Qed.

(** The spelling of a non-negative integer starts with a digit. *)
Lemma digits_first n t :
  exists c d s, (digits n ++ t)%string = String c s /\ digit_val c = Some d.
Proof.
  unfold digits. rewrite digits_aux_app. cbn [append].
  generalize (Z.to_nat (Z.log2 n)) as fuel. intros fuel. revert n t.
  induction fuel as [|fuel IH]; intros n t.
  - rewrite digits_aux_S. cbn [digits_aux].
    exists (digit_char (n mod 10)), (n mod 10), t.
    split; [destruct (n <? 10); reflexivity | apply digit_val_mod].
  - rewrite digits_aux_S. destruct (n <? 10).
    + exists (digit_char (n mod 10)), (n mod 10), t.
      split; [reflexivity | apply digit_val_mod].
    + apply IH.
Qed.

(** *** Reading back what [toFixed] wrote *)

Lemma append_empty_r (u : string) : (u ++ "")%string = u.
Proof.
  induction u as [|c u IH]; [reflexivity|].
  change (String c (u ++ "") = String c u). f_equal. exact IH.
Qed.

Lemma parseFloat_digit c d s :
  digit_val c = Some d ->
  parseFloat (String c s) = parse_unsigned 1 (String c s).
Proof.
  intros H. destruct (digit_first c d s H) as (Hw & Hs & Hi).
  unfold parseFloat. rewrite Hw, Hs, Hi. reflexivity.
Qed.

Lemma parseFloat_minus_digit c d s :
  digit_val c = Some d ->
  parseFloat (String "-" (String c s)) = parse_unsigned (-1) (String c s).
Proof.
  intros H. destruct (digit_first c d s H) as (_ & _ & Hi).
  unfold parseFloat.
  change (skip_white_space (String "-" (String c s)))
    with (String "-" (String c s)).
  cbn [read_sign]. rewrite Hi. reflexivity.
Qed.

(** Numbers that denote the same rational round to the same value. *)
Lemma round64_ext q q' : (q == q')%Q -> round64 q = round64 q'.
Proof. intros E. unfold round64. rewrite (Qred_complete q q' E). reflexivity. Qed.

Lemma parse_unsigned_integer sg n :
  0 <= n ->
  parse_unsigned sg (digits n) = round64 (inject_Z sg * inject_Z n).
Proof.
  intros Hn. destruct (read_digits_of_digits n Hn) as [k Hk].
  specialize (Hk ""%string 0 O).
  rewrite append_empty_r in Hk. unfold parse_unsigned, decimal_value.
  rewrite Hk. cbn [read_digits Nat.add read_exponent].
  apply round64_ext. replace (0 * 10 ^ Z.of_nat (S k) + n) with n by lia.
  change (Qpower (inject_Z 10) 0) with 1%Q.
  change (inject_Z (10 ^ Z.of_nat 0)) with 1%Q.
  change (inject_Z 0) with 0%Q. field.
Qed.

Lemma parse_unsigned_fraction sg i f d :
  0 <= i ->
  parse_unsigned sg (digits i ++ "." ++ digits_fixed d f "")
  = round64 (inject_Z sg
             * (inject_Z i
                + inject_Z (f mod 10 ^ Z.of_nat d)
                  / inject_Z (10 ^ Z.of_nat d))).
Proof.
  intros Hi. destruct (read_digits_of_digits i Hi) as [k Hk].
  unfold parse_unsigned, decimal_value. rewrite Hk.
  change ("." ++ digits_fixed d f "")%string
    with (String "." (digits_fixed d f "")).
  cbn [read_digits]. change (digit_val ".") with (@None Z). cbv iota.
  rewrite read_digits_fixed. cbn [read_digits Nat.add read_exponent].
  apply round64_ext.
  replace (0 * 10 ^ Z.of_nat (S k) + i) with i by lia.
  replace (0 * 10 ^ Z.of_nat d + f mod 10 ^ Z.of_nat d)
    with (f mod 10 ^ Z.of_nat d) by lia.
  change (Qpower (inject_Z 10) 0) with 1%Q. ring.
Qed.

Lemma inject_Z_div_mod n p :
  0 < p ->
  (inject_Z (n / p) + inject_Z ((n mod p) mod p) / inject_Z p
   == inject_Z n / inject_Z p)%Q.
Proof.
  intros Hp. rewrite Z.mod_mod by lia.
  rewrite (Z_div_mod_eq_full n p) at 3.
  rewrite inject_Z_plus, inject_Z_mult.
  assert (~ (inject_Z p == 0)%Q).
  { intros E. apply (inject_Z_injective p 0) in E. lia. }
  field. assumption.
Qed.

(** [parseFloat(x.toFixed(d))] is [x] rounded to [d] decimals. *)
Lemma parseFloat_toFixed x d :
  parseFloat (toFixed x d) = round_number d x.
Proof.
  destruct x as [q| | |]; try reflexivity.
  cbn [round_number toFixed]. unfold round_decimals.
  set (p := 10 ^ Z.of_nat d).
  set (n := Qfloor (Qabs q * inject_Z p + (1 # 2))).
  assert (Hp : 0 < p) by (apply Z.pow_pos_nonneg; lia).
  assert (Hn : 0 <= n).
  { subst n.
    assert (H0 : (inject_Z 0 <= Qabs q * inject_Z p + (1 # 2))%Q).
    { change (inject_Z 0) with (0 + 0)%Q.
      apply Qplus_le_compat; [|discriminate].
      apply Qmult_le_0_compat; [apply Qabs_nonneg|].
      change 0%Q with (inject_Z 0). rewrite <- Zle_Qle. lia. }
    apply Qfloor_resp_le in H0. rewrite Qfloor_Z in H0. exact H0. }
  assert (Hi : 0 <= n / p) by (apply Z.div_pos; lia).
  set (body := match d with
               | O => digits n
               | S _ => (digits (n / p) ++ "." ++ digits_fixed d (n mod p) "")%string
               end).
  assert (Hbody : forall sg,
            parse_unsigned sg body
            = round64 (inject_Z sg * (inject_Z n / inject_Z p))).
  { intros sg. subst body. destruct d as [|d'].
    - rewrite (parse_unsigned_integer sg n Hn). apply round64_ext.
      subst p. change (inject_Z (10 ^ Z.of_nat 0)) with 1%Q. field.
    - rewrite (parse_unsigned_fraction sg (n / p) (n mod p) (S d') Hi).
      fold p. apply round64_ext.
      rewrite (inject_Z_div_mod n p Hp). reflexivity. }
  assert (Hfirst : exists c dv s, body = String c s /\ digit_val c = Some dv).
  { subst body. destruct d as [|d'].
    - destruct (digits_first n "") as (c & dv & s & E & Hc).
      exists c, dv, s. split; [|exact Hc]. rewrite <- E.
      symmetry. apply append_empty_r.
    - destruct (digits_first (n / p)
                  ("." ++ digits_fixed (S d') (n mod p) ""))
        as (c & dv & s & E & Hc).
      exists c, dv, s. split; assumption. }
  destruct Hfirst as (c & dv & s & E & Hc).
  fold body. destruct (Qle_bool 0 q).
  - change (("" ++ body)%string) with body.
    rewrite E, (parseFloat_digit c dv s Hc), <- E. apply Hbody.
  - change (("-" ++ body)%string) with (String "-" body).
    rewrite E, (parseFloat_minus_digit c dv s Hc), <- E. apply Hbody.
Qed.

(** Rounding does not depend on how the rational is written. *)
Lemma round_decimals_ext d q q' :
  (q == q')%Q -> round_decimals d q = round_decimals d q'.
Proof.
  intros E. unfold round_decimals.
  assert (Hf : Qfloor (Qabs q * inject_Z (10 ^ Z.of_nat d) + (1 # 2))
               = Qfloor (Qabs q' * inject_Z (10 ^ Z.of_nat d) + (1 # 2))).
  { apply Qfloor_comp. rewrite E. reflexivity. }
  assert (Hs : Qle_bool 0 q = Qle_bool 0 q').
  { destruct (Qle_bool 0 q) eqn:A, (Qle_bool 0 q') eqn:B; try reflexivity.
    - apply Qle_bool_iff in A. rewrite E in A. apply Qle_bool_iff in A.
      congruence.
    - apply Qle_bool_iff in B. rewrite <- E in B. apply Qle_bool_iff in B.
      congruence. }
  rewrite Hf, Hs. reflexivity.
Qed.

(** Rounding moves a number by at most half a unit of the last decimal. *)
Lemma round_decimals_close d q :
  (Qabs (round_decimals d q - q)
   <= (1 # 2) / inject_Z (10 ^ Z.of_nat d))%Q.
Proof.
  unfold round_decimals.
  set (p := 10 ^ Z.of_nat d).
  assert (Hp : (0 < inject_Z p)%Q).
  { change 0%Q with (inject_Z 0). rewrite <- Zlt_Qlt.
    apply Z.pow_pos_nonneg; lia. }
  set (P := inject_Z p) in *.
  set (x := (Qabs q * P + (1 # 2))%Q).
  pose proof (Qfloor_le x) as Hlo. pose proof (Qlt_floor x) as Hhi.
  rewrite inject_Z_plus in Hhi. change (inject_Z 1) with 1%Q in Hhi.
  set (n := inject_Z (Qfloor x)) in *.
  set (sg := if Qle_bool 0 q then 1%Q else (-1)%Q).
  assert (Hq : (q == sg * Qabs q)%Q).
  { subst sg. destruct (Qle_bool 0 q) eqn:E.
    - apply Qle_bool_iff in E. rewrite Qabs_pos by assumption. ring.
    - assert (q <= 0)%Q.
      { apply Qnot_lt_le. intros H. apply Qlt_le_weak in H.
        apply Qle_bool_iff in H. congruence. }
      rewrite Qabs_neg by assumption. ring. }
  assert (E : (sg * (n / P) - q == sg * ((n - Qabs q * P) / P))%Q).
  { rewrite Hq at 1. field. lra. }
  rewrite E, Qabs_Qmult.
  assert (Hs : (Qabs sg == 1)%Q)
    by (subst sg; destruct (Qle_bool 0 q); reflexivity).
  rewrite Hs, Qmult_1_l. unfold Qdiv. rewrite Qabs_Qmult.
  assert (0 < / P)%Q by (apply Qinv_lt_0_compat; assumption).
  rewrite (Qabs_pos (/ P)) by lra.
  apply Qmult_le_compat_r; [|lra].
  apply Qabs_Qle_condition. subst x. split; lra.
Qed.

(** *** Rounding to binary64 *)

Lemma round_half_even_close x :
  (Qabs (inject_Z (round_half_even x) - x) <= 1 # 2)%Q.
Proof.
  unfold round_half_even.
  pose proof (Qfloor_le x) as Hlo. pose proof (Qlt_floor x) as Hhi.
  rewrite inject_Z_plus in Hhi. change (inject_Z 1) with 1%Q in Hhi.
  set (f := Qfloor x) in *.
  destruct (Qcompare_spec (x - inject_Z f) (1 # 2)) as [E|E|E].
  - assert (Hf : forall g, (g == inject_Z f \/ g == inject_Z f + 1)%Q ->
                 (Qabs (g - x) <= 1 # 2)%Q).
    { intros g [Hg|Hg]; rewrite Hg; apply Qabs_Qle_condition; split; lra. }
    destruct (Z.even f); apply Hf; [left; reflexivity|].
    right. rewrite inject_Z_plus. reflexivity.
  - apply Qabs_Qle_condition. split; lra.
  - rewrite inject_Z_plus. change (inject_Z 1) with 1%Q.
    apply Qabs_Qle_condition. split; lra.
Qed.

Lemma Qpower2_pos e : (0 < Qpower 2 e)%Q.
Proof. apply Qpower_0_lt. reflexivity. Qed.

Lemma Qpower2_succ e : (Qpower 2 (e + 1) == 2 * Qpower 2 e)%Q.
Proof.
  rewrite Qpower_plus by discriminate. change (Qpower 2 1) with 2%Q. ring.
Qed.

(** The binade of a positive number is not above it. *)
Lemma binade_le a : (0 < a)%Q -> (Qpower 2 (binade a) <= a)%Q.
Proof.
  intros Ha. unfold binade.
  set (i := Z.log2 (Qnum a)). set (j := Z.log2 (Zpos (Qden a))).
  destruct (Qle_bool (Qpower 2 (i - j)) a) eqn:E;
    [apply Qle_bool_iff, E|].
  assert (Hn : 0 < Qnum a).
  { unfold Qlt in Ha. cbn in Ha. lia. }
  destruct (Z.log2_spec (Qnum a) Hn) as [Hi _].
  destruct (Z.log2_spec (Zpos (Qden a)) ltac:(lia)) as [_ Hj].
  fold i in Hi. fold j in Hj.
  assert (Hi0 : 0 <= i) by apply Z.log2_nonneg.
  assert (Hj0 : 0 <= j) by apply Z.log2_nonneg.
  assert (HI : (Qpower 2 i <= inject_Z (Qnum a))%Q).
  { rewrite <- (Zpower_Qpower 2 i Hi0). rewrite <- Zle_Qle. exact Hi. }
  assert (HJ : (inject_Z (Zpos (Qden a)) <= Qpower 2 (j + 1))%Q).
  { rewrite <- (Zpower_Qpower 2 (j + 1)) by lia. rewrite <- Zle_Qle.
    change (Z.succ j) with (j + 1) in Hj. lia. }
  assert (Hq : (a == inject_Z (Qnum a) / inject_Z (Zpos (Qden a)))%Q)
    by (rewrite <- Qmake_Qdiv; destruct a; reflexivity).
  assert (Hd : (0 < inject_Z (Zpos (Qden a)))%Q) by reflexivity.
  pose proof (Qpower2_pos (j + 1)) as Hp.
  replace (i - j - 1) with (i + - (j + 1)) by lia.
  rewrite Qpower_plus by discriminate. rewrite Qpower_opp.
  rewrite Hq. unfold Qdiv.
  apply Qle_trans with (inject_Z (Qnum a) * / Qpower 2 (j + 1))%Q.
  - apply Qmult_le_compat_r; [exact HI|].
    apply Qlt_le_weak, Qinv_lt_0_compat, Hp.
  - rewrite !(Qmult_comm (inject_Z (Qnum a))).
    apply Qmult_le_compat_r.
    + apply Qle_shift_inv_l; [exact Hd|].
      assert (E1 : (/ Qpower 2 (j + 1) * inject_Z (Z.pos (Qden a))
                    == inject_Z (Z.pos (Qden a)) / Qpower 2 (j + 1))%Q)
        by (unfold Qdiv; ring).
      rewrite E1. apply Qle_shift_div_r; [exact Hp|]. lra.
    + change 0%Q with (inject_Z 0). rewrite <- Zle_Qle. lia.
Qed.

Lemma ulp_half a :
  (0 < a)%Q ->
  (Qpower 2 (ulp_exponent a) * (1 # 2)
   <= a * Qpower 2 (-53) + Qpower 2 (-1075))%Q.
Proof.
  intros Ha. unfold ulp_exponent.
  pose proof (binade_le a Ha) as Hb.
  pose proof (Qpower2_pos (-53)) as H53.
  pose proof (Qpower2_pos (-1075)) as H1075.
  destruct (Z.max_spec (binade a - 52) (-1074)) as [[_ ->]|[_ ->]].
  - change (Qpower 2 (-1074) * (1 # 2))%Q with (Qpower 2 (-1075)).
    assert (0 <= a * Qpower 2 (-53))%Q
      by (apply Qmult_le_0_compat; lra).
    lra.
  - replace (binade a - 52) with (binade a + -53 + 1) by lia.
    rewrite Qpower2_succ, Qpower_plus by discriminate.
    assert (Qpower 2 (binade a) * Qpower 2 (-53) <= a * Qpower 2 (-53))%Q
      by (apply Qmult_le_compat_r; lra).
    lra.
Qed.

(** What [nearest64] does to a positive number, before the sign. *)
Lemma nearest_close a :
  (0 < a)%Q ->
  let e := ulp_exponent a in
  let r := (inject_Z (round_half_even (a / Qpower 2 e)) * Qpower 2 e)%Q in
  (Qabs (r - a) <= a * Qpower 2 (-53) + Qpower 2 (-1075))%Q.
Proof.
  intros Ha e r.
  pose proof (Qpower2_pos e) as He.
  pose proof (round_half_even_close (a / Qpower 2 e)) as Hc.
  set (m := inject_Z (round_half_even (a / Qpower 2 e))) in *.
  assert (E : (r - a == (m - a / Qpower 2 e) * Qpower 2 e)%Q).
  { subst r. field. lra. }
  rewrite E, Qabs_Qmult, (Qabs_pos (Qpower 2 e)) by lra.
  apply Qle_trans with ((1 # 2) * Qpower 2 e)%Q.
  - apply Qmult_le_compat_r; [exact Hc | lra].
  - rewrite Qmult_comm. apply ulp_half, Ha.
Qed.

Lemma Qabs_pos_lt q : ~ (q == 0)%Q -> (0 < Qabs q)%Q.
Proof.
  intros Hq. destruct (Qlt_le_dec 0 q) as [H|H].
  - rewrite Qabs_pos by lra. exact H.
  - rewrite Qabs_neg by exact H.
    destruct (Qlt_le_dec q 0) as [H'|H']; [lra|].
    exfalso. apply Hq. lra.
Qed.

(** A finite result of the rounding is within half a unit in the last
    place of the number: a relative [2^-53], or [2^-1075] for the
    subnormal values. *)
Lemma round64_close q v :
  round64 q = Fin v ->
  (Qabs (v - q) <= Qabs q * Qpower 2 (-53) + Qpower 2 (-1075))%Q.
Proof.
  unfold round64, nearest64.
  assert (Hq : (Qred q == q)%Q) by apply Qred_correct.
  set (q' := Qred q) in *.
  destruct (Qeq_bool q' 0) eqn:E0.
  - apply Qeq_bool_iff in E0. intros [= <-].
    assert (Ez : (q == 0)%Q) by (rewrite <- Hq; exact E0).
    rewrite Ez. cbn. discriminate.
  - assert (Hne : ~ (q' == 0)%Q).
    { intros H. apply Qeq_bool_iff in H. congruence. }
    pose proof (Qabs_pos_lt q' Hne) as Ha.
    pose proof (nearest_close (Qabs q') Ha) as Hc. cbv zeta in Hc.
    set (r := (inject_Z (round_half_even
                 (Qabs q' / Qpower 2 (ulp_exponent (Qabs q'))))
               * Qpower 2 (ulp_exponent (Qabs q')))%Q) in *.
    destruct (Qle_bool (Qpower 2 1024) r);
      [destruct (Qle_bool 0 q'); discriminate|].
    intros [= <-]. rewrite Qred_correct, <- Hq.
    destruct (Qle_bool 0 q') eqn:Es.
    + apply Qle_bool_iff in Es. rewrite (Qabs_pos q') in * by exact Es.
      exact Hc.
    + assert (Hneg : (q' <= 0)%Q).
      { apply Qnot_lt_le. intros H. apply Qlt_le_weak in H.
        apply Qle_bool_iff in H. congruence. }
      rewrite (Qabs_neg q') in * by exact Hneg.
      assert (E : (- r - q' == - (r - - q'))%Q) by ring.
      rewrite E, Qabs_opp. exact Hc.
Qed.

(** Below [2^1023] in magnitude the rounding gives a finite number. *)
Lemma round64_finite q :
  (Qabs q <= Qpower 2 1023)%Q -> exists v, round64 q = Fin v.
Proof.
  intros Hb. unfold round64, nearest64.
  assert (Hq : (Qred q == q)%Q) by apply Qred_correct.
  set (q' := Qred q) in *.
  destruct (Qeq_bool q' 0) eqn:E0; [eexists; reflexivity|].
  assert (Hne : ~ (q' == 0)%Q).
  { intros H. apply Qeq_bool_iff in H. congruence. }
  pose proof (Qabs_pos_lt q' Hne) as Ha.
  pose proof (nearest_close (Qabs q') Ha) as Hc. cbv zeta in Hc.
  set (r := (inject_Z (round_half_even
               (Qabs q' / Qpower 2 (ulp_exponent (Qabs q'))))
             * Qpower 2 (ulp_exponent (Qabs q')))%Q) in *.
  destruct (Qle_bool (Qpower 2 1024) r) eqn:Eo; [|eexists; reflexivity].
  exfalso. apply Qle_bool_iff in Eo.
  apply Qabs_Qle_condition in Hc as [_ Hc].
  assert (Hb' : (Qabs q' <= Qpower 2 1023)%Q) by (rewrite Hq; exact Hb).
  assert (H53 : (Qpower 2 (-53) <= 1 # 2)%Q) by (vm_compute; discriminate).
  assert (Hs : (Qpower 2 (-1075) < Qpower 2 1022)%Q) by (vm_compute; reflexivity).
  assert (H24 : (Qpower 2 1024 == 2 * Qpower 2 1023)%Q) by apply (Qpower2_succ 1023).
  assert (H23 : (Qpower 2 1023 == 2 * Qpower 2 1022)%Q) by apply (Qpower2_succ 1022).
  assert (Hm : (Qabs q' * Qpower 2 (-53) <= Qabs q' * (1 # 2))%Q).
  { rewrite !(Qmult_comm (Qabs q')). apply Qmult_le_compat_r; lra. }
  pose proof (Qpower2_pos 1022). lra.
Qed.

(** *** Whole numbers below [2^53] *)

Lemma round_half_even_ext x y :
  (x == y)%Q -> round_half_even x = round_half_even y.
Proof.
  intros H. unfold round_half_even. rewrite (Qfloor_comp x y H).
  assert (E : (x - inject_Z (Qfloor y) ?= 1 # 2)%Q
              = (y - inject_Z (Qfloor y) ?= 1 # 2)%Q)
    by (rewrite H; reflexivity).
  rewrite E. reflexivity.
Qed.

Lemma round_half_even_integer n : round_half_even (inject_Z n) = n.
Proof.
  unfold round_half_even. rewrite Qfloor_Z.
  destruct (Qcompare_spec (inject_Z n - inject_Z n) (1 # 2)) as [E|E|E];
    [exfalso; lra | reflexivity | exfalso; lra].
Qed.

Lemma Qred_inject_Z z : Qred (inject_Z z) = inject_Z z.
Proof.
  unfold Qred, inject_Z.
  pose proof (Z.ggcd_gcd z 1) as Hg.
  pose proof (Z.ggcd_correct_divisors z 1) as Hd.
  destruct (Z.ggcd z 1) as [g [aa bb]]. cbn [fst snd] in *.
  rewrite Z.gcd_1_r in Hg. subst g. destruct Hd as [Ha Hb].
  replace aa with z by lia. replace bb with 1 by lia. reflexivity.
Qed.

Lemma binade_integer p : binade (inject_Z (Zpos p)) = Z.log2 (Zpos p).
Proof.
  unfold binade. cbn [Qnum Qden inject_Z]. change (Z.log2 1) with 0.
  rewrite Z.sub_0_r.
  destruct (Z.log2_spec (Zpos p) ltac:(lia)) as [Hlo _].
  assert (H0 : 0 <= Z.log2 (Zpos p)) by apply Z.log2_nonneg.
  assert (H : Qle_bool (Qpower 2 (Z.log2 (Zpos p))) (inject_Z (Zpos p))
               = true).
  { apply Qle_bool_iff. rewrite <- (Zpower_Qpower 2 _ H0).
    rewrite <- Zle_Qle. exact Hlo. }
  rewrite H. reflexivity.
Qed.

(** A whole number below [2^53] is a binary64 value. *)
Lemma round64_integer z :
  0 <= z < 2 ^ 53 -> round64 (inject_Z z) = Fin (inject_Z z).
Proof.
  intros Hz. unfold round64. rewrite Qred_inject_Z.
  destruct z as [|p|p]; [reflexivity| |lia].
  unfold nearest64.
  change (Qeq_bool (inject_Z (Z.pos p)) 0) with false.
  change (Qabs (inject_Z (Z.pos p))) with (inject_Z (Z.pos p)).
  change (Qle_bool 0 (inject_Z (Z.pos p))) with true. cbv iota.
  unfold ulp_exponent. rewrite binade_integer.
  assert (H0 : 0 <= Z.log2 (Zpos p)) by apply Z.log2_nonneg.
  assert (H52 : Z.log2 (Zpos p) <= 52).
  { assert (Z.log2 (Zpos p) < 53); [|lia].
    apply Z.log2_lt_pow2; lia. }
  rewrite Z.max_l by lia.
  set (j := 52 - Z.log2 (Zpos p)).
  replace (Z.log2 (Zpos p) - 52) with (- j) by (unfold j; lia).
  assert (Hj : 0 <= j) by (unfold j; lia).
  assert (Hp : (Qpower 2 (- j) == / inject_Z (2 ^ j))%Q).
  { rewrite Qpower_opp, (Zpower_Qpower 2 j Hj). reflexivity. }
  assert (Hpos : (0 < inject_Z (2 ^ j))%Q).
  { change 0%Q with (inject_Z 0). rewrite <- Zlt_Qlt.
    apply Z.pow_pos_nonneg; lia. }
  assert (Hx : (inject_Z (Z.pos p) / Qpower 2 (- j)
                == inject_Z (Z.pos p * 2 ^ j))%Q).
  { rewrite Hp, inject_Z_mult. field. lra. }
  rewrite (round_half_even_ext _ _ Hx), round_half_even_integer.
  assert (Hr : (inject_Z (Z.pos p * 2 ^ j) * Qpower 2 (- j)
                == inject_Z (Z.pos p))%Q).
  { rewrite Hp, inject_Z_mult. field. lra. }
  assert (Hsmall : Qle_bool (Qpower 2 1024)
                     (inject_Z (Z.pos p * 2 ^ j) * Qpower 2 (- j)) = false).
  { destruct (Qle_bool _ _) eqn:E; [|reflexivity]. exfalso.
    apply Qle_bool_iff in E. rewrite Hr in E.
    assert (H53 : (inject_Z (Z.pos p) < inject_Z (2 ^ 53))%Q)
      by (rewrite <- Zlt_Qlt; lia).
    assert (Hbig : (inject_Z (2 ^ 53) <= Qpower 2 1024)%Q)
      by (vm_compute; discriminate).
    lra. }
  rewrite Hsmall. f_equal. rewrite <- (Qred_inject_Z (Z.pos p)).
  apply Qred_complete, Hr.
Qed.

(** The quotient of a whole number below [2^53] by a positive one below
    [2^53]: the whole quotient when the division is exact, and a number
    strictly between the whole quotient and the next whole number when
    it is not. *)
Lemma num_div_integers t l :
  0 <= t < 2 ^ 53 -> 1 <= l < 2 ^ 53 ->
  exists v,
    num_div (Fin (inject_Z t)) (Fin (inject_Z l)) = Fin v
    /\ (t mod l = 0 -> v = inject_Z (t / l))
    /\ (t mod l <> 0 ->
        (inject_Z (t / l) < v)%Q /\ (v < inject_Z (t / l) + 1)%Q).
Proof.
  intros Ht Hl. cbn [num_div].
  assert (HL : (0 < inject_Z l)%Q).
  { change 0%Q with (inject_Z 0). rewrite <- Zlt_Qlt. lia. }
  destruct (Qeq_bool (inject_Z l) 0) eqn:E.
  { apply Qeq_bool_iff in E. rewrite E in HL. discriminate HL. }
  pose proof (Z.div_mod t l ltac:(lia)) as Hdm.
  pose proof (Z.mod_pos_bound t l ltac:(lia)) as Hm.
  assert (Hq0 : 0 <= t / l) by (apply Z.div_pos; lia).
  assert (Hq : t / l <= t) by nia.
  set (m := t / l) in *. set (r := t mod l) in *.
  assert (ET : (inject_Z t == inject_Z l * inject_Z m + inject_Z r)%Q).
  { rewrite <- inject_Z_mult, <- inject_Z_plus, <- Hdm. reflexivity. }
  destruct (Z.eq_dec r 0) as [Hr|Hr].
  - exists (inject_Z m). split; [|split; [reflexivity | contradiction]].
    rewrite (round64_ext _ (inject_Z m)).
    + apply round64_integer. lia.
    + rewrite ET, Hr. field. lra.
  - set (x := (inject_Z t / inject_Z l)%Q).
    assert (Hx0 : (0 <= x)%Q).
    { unfold x. apply Qle_shift_div_l; [exact HL|].
      rewrite Qmult_0_l. change 0%Q with (inject_Z 0). rewrite <- Zle_Qle.
      lia. }
    set (u := (/ inject_Z l)%Q).
    assert (Hu : (0 < u)%Q) by (apply Qinv_lt_0_compat, HL).
    assert (HuL : (u * inject_Z l == 1)%Q) by (unfold u; field; lra).
    assert (Hxm : (x == inject_Z m + inject_Z r * u)%Q).
    { unfold x, u. rewrite ET. field. lra. }
    assert (Hxt : (x == inject_Z t * u)%Q) by (unfold x, u; reflexivity).
    assert (Hr1 : (1 * u <= inject_Z r * u)%Q).
    { apply Qmult_le_compat_r; [|lra]. change 1%Q with (inject_Z 1).
      rewrite <- Zle_Qle. lia. }
    assert (Hr2 : (inject_Z r * u <= (inject_Z l - 1) * u)%Q).
    { apply Qmult_le_compat_r; [|lra].
      assert (B : (inject_Z r <= inject_Z (l + -1))%Q)
        by (rewrite <- Zle_Qle; lia).
      rewrite inject_Z_plus in B. change (inject_Z (-1)) with (-1)%Q in B.
      lra. }
    assert (Ht2 : (inject_Z t * u <= inject_Z (2 ^ 53 - 1) * u)%Q).
    { apply Qmult_le_compat_r; [|lra]. rewrite <- Zle_Qle. lia. }
    assert (Hu53 : (Qpower 2 (-53) <= u)%Q).
    { unfold u. apply Qle_shift_inv_l; [exact HL|].
      assert (inject_Z l <= inject_Z (2 ^ 53))%Q by (rewrite <- Zle_Qle; lia).
      change (Qpower 2 (-53)) with (1 # 9007199254740992)%Q.
      change (inject_Z (2 ^ 53)) with (9007199254740992 # 1)%Q in H. lra. }
    assert (H1075 : (Qpower 2 (-1075) < (1 # 9007199254740992) * (1 # 9007199254740992))%Q)
      by (vm_compute; reflexivity).
    assert (Hfin : (Qabs x <= Qpower 2 1023)%Q).
    { rewrite Qabs_pos by exact Hx0.
      assert (Hbig : (inject_Z (2 ^ 53) <= Qpower 2 1023)%Q)
        by (vm_compute; discriminate).
      assert (x <= inject_Z t)%Q.
      { unfold x. apply Qle_shift_div_r; [exact HL|].
        rewrite <- inject_Z_mult, <- Zle_Qle. nia. }
      assert (inject_Z t <= inject_Z (2 ^ 53))%Q by (rewrite <- Zle_Qle; lia).
      lra. }
    destruct (round64_finite x Hfin) as (v & Hv). exists v.
    split; [exact Hv|]. split; [intros H0; contradiction|]. intros _.
    pose proof (round64_close x v Hv) as Hc.
    rewrite (Qabs_pos x) in Hc by exact Hx0.
    apply Qabs_Qle_condition in Hc as [Hc1 Hc2].
    change (Qpower 2 (-53)) with (1 # 9007199254740992)%Q in *.
    change (inject_Z (2 ^ 53 - 1)) with (9007199254740991 # 1)%Q in Ht2.
    set (c := Qpower 2 (-1075)) in *. clearbody c.
    assert (HLu : (inject_Z l * u == 1)%Q) by lra.
    assert (Hr2' : (inject_Z r * u <= 1 - u)%Q) by lra.
    set (M := inject_Z m) in *. set (Ru := (inject_Z r * u)%Q) in *.
    set (Tu := (inject_Z t * u)%Q) in *.
    clearbody M Ru Tu u x. split; lra.
Qed.

(** The number value of the decimal of [s] places nearest to a value is
    within the tolerance of that value. *)
Lemma round_decimals_tolerance s exact v :
  round64 (round_decimals s exact) = Fin v ->
  (Qabs (v - exact) <= tolerance s (Qabs exact))%Q.
Proof.
  intros Hv. unfold tolerance.
  pose proof (round64_close _ _ Hv) as H1.
  pose proof (round_decimals_close s exact) as H2.
  set (x := round_decimals s exact) in *.
  set (u := ((1 # 2) / inject_Z (10 ^ Z.of_nat s))%Q) in *.
  pose proof (Qpower2_pos (-53)) as H53.
  assert (Hx : (Qabs x <= Qabs exact + u)%Q).
  { assert (E : (x == (x - exact) + exact)%Q) by ring.
    rewrite E at 1. eapply Qle_trans; [apply Qabs_triangle|]. lra. }
  assert (Hm : (Qabs x * Qpower 2 (-53)
                <= (Qabs exact + u) * Qpower 2 (-53))%Q)
    by (apply Qmult_le_compat_r; lra).
  assert (E : (v - exact == (v - x) + (x - exact))%Q) by ring.
  rewrite E. eapply Qle_trans; [apply Qabs_triangle|]. lra.
Qed.

End JSProofs.

(** ** The daily aggregation *)

Module SnapshotProofs.
Import Snapshot.

(** *** The aggregation query *)

Lemma non_null_volumes group :
  non_null (map volume group) = map snd (weighted group).
Proof.
  induction group as [|r group IH]; [reflexivity|].
  cbn [map weighted]. destruct (volume r) as [w|]; cbn;
    [f_equal|]; exact IH.
Qed.

Lemma non_null_products group :
  non_null (map (fun r => sql_mul (Some (sentiment_score r)) (volume r)) group)
  = map (fun sw => (fst sw * snd sw)%Q) (weighted group).
Proof.
  induction group as [|r group IH]; [reflexivity|].
  cbn [map weighted]. destruct (volume r) as [w|]; cbn;
    [f_equal|]; exact IH.
Qed.

Lemma sql_sum_volumes group :
  sql_sum (map volume group)
  = match weighted group with
    | [] => None
    | _ => Some (sum_weights group)
    end.
Proof.
  unfold sql_sum, sum_weights. rewrite non_null_volumes.
  destruct (weighted group); reflexivity.
Qed.

Lemma sql_sum_products group :
  sql_sum (map (fun r => sql_mul (Some (sentiment_score r)) (volume r)) group)
  = match weighted group with
    | [] => None
    | _ => Some (sum_weighted_scores group)
    end.
Proof.
  unfold sql_sum, sum_weighted_scores. rewrite non_null_products.
  destruct (weighted group); reflexivity.
Qed.

(** The query always ends with the global row. *)
Lemma aggregation_query_last scale table dateStr :
  exists rows,
    aggregation_query scale table dateStr
    = rows ++ [select_list scale None
                 (List.filter (fun r => signal_date r =? dateStr) table)]
    /\ Forall (fun row => row_asset_symbol row <> None) rows.
Proof.
  unfold aggregation_query. eexists. split; [reflexivity|].
  apply List.Forall_forall. intros row Hin. apply in_map_iff in Hin.
  destruct Hin as (k & <- & _). discriminate.
Qed.

Lemma aggregateForDate_not_empty utcDate db :
  length (fst (aggregateForDate utcDate db)) <> O.
Proof.
  unfold aggregateForDate. cbn [fst].
  destruct (aggregation_query_last (quotient_scale db) (sentiment_signals db)
              (toDateString utcDate)) as (rows & -> & _).
  rewrite length_map, length_app. cbn. lia.
Qed.

Lemma aggregateForDate_global utcDate db :
  exists a, List.find is_global (fst (aggregateForDate utcDate db)) = Some a.
Proof.
  unfold aggregateForDate. cbn [fst].
  destruct (aggregation_query_last (quotient_scale db) (sentiment_signals db)
              (toDateString utcDate)) as (rows & -> & Hrows).
  rewrite map_app. cbn [map].
  induction rows as [|row rows IH]; cbn.
  - eexists. reflexivity.
  - inversion Hrows as [|? ? Hrow Hrest]; subst.
    unfold is_global at 1. cbn [parseRow assetSymbol].
    destruct (row_asset_symbol row); [|contradiction].
    apply IH. exact Hrest.
Qed.

(** Whatever the table holds, [generateForDate] takes the writing branch
    and reports a global row. *)
Lemma generateForDate_writes date0 db :
  globalRowWritten (fst (generateForDate date0 db)) = true
  /\ exists entities,
      entities <> []
      /\ executed (snd (generateForDate date0 db))
         = executed db
           ++ [QAggregate (toDateString (toUtcMidnight date0));
               QUpsert entities].
Proof.
  unfold generateForDate.
  pose proof (aggregateForDate_not_empty (toUtcMidnight date0) db) as Hne.
  destruct (aggregateForDate_global (toUtcMidnight date0) db) as [a Ha].
  unfold aggregateForDate in *. cbn [fst] in *.
  set (aggs := map parseRow _) in *.
  destruct aggs as [|a0 aggs]; [contradiction|].
  cbn [length Nat.eqb]. unfold upsertSnapshots. cbn [length Nat.eqb].
  cbn [fst snd globalRowWritten executed]. rewrite Ha. split; [reflexivity|].
  eexists. split; [|rewrite <- app_assoc; reflexivity]. discriminate.
Qed.

Lemma filter_none {A} (f : A -> bool) (l : list A) :
  (forall x, In x l -> f x = false) -> List.filter f l = [].
Proof.
  induction l as [|x l IH]; intros H; [reflexivity|].
  cbn. rewrite (H x (or_introl eq_refl)). apply IH.
  intros y Hy. apply H. right. exact Hy.
Qed.

(** A day without records: the query still returns the global row. *)
Lemma aggregateForDate_empty_day utcDate db :
  (forall r, In r (sentiment_signals db) ->
             signal_date r <> toDateString utcDate) ->
  fst (aggregateForDate utcDate db) = [empty_day_row].
Proof.
  intros H. unfold aggregateForDate, aggregation_query. cbn [fst].
  rewrite (filter_none (fun r => signal_date r =? toDateString utcDate)).
  - reflexivity.
  - intros r Hr. apply Z.eqb_neq. apply H. exact Hr.
Qed.

(** *** Running the upsert again *)

Lemma conflicts_refl e : keyed e -> conflicts e e = true.
Proof.
  unfold keyed, conflicts. intros H. rewrite Z.eqb_refl.
  destruct (ds_assetSymbol e); [apply String.eqb_refl | contradiction].
Qed.

Lemma upsert_row_settles e table : keyed e -> settled e (upsert_row e table).
Proof.
  intros Hk. unfold settled. induction table as [|r table IH].
  - cbn. rewrite (conflicts_refl e Hk). destruct e; reflexivity.
  - cbn [upsert_row]. destruct (conflicts e r) eqn:E.
    + cbn [upsert_row].
      assert (conflicts e
                {| snapshotDate := snapshotDate r;
                   ds_assetSymbol := ds_assetSymbol r;
                   ds_avgSentiment := ds_avgSentiment e;
                   ds_minSentiment := ds_minSentiment e;
                   ds_maxSentiment := ds_maxSentiment e;
                   ds_signalCount := ds_signalCount e;
                   ds_totalVolume := ds_totalVolume e;
                   ds_volumeWeightedSentiment := ds_volumeWeightedSentiment e |}
              = true) as -> by exact E.
      reflexivity.
    + cbn [upsert_row]. rewrite E, IH. reflexivity.
Qed.

Lemma conflicts_symbol e r :
  conflicts e r = true -> ds_assetSymbol e = ds_assetSymbol r /\ keyed e.
Proof.
  unfold conflicts, keyed. intros H. apply andb_true_iff in H as [_ H].
  destruct (ds_assetSymbol e) as [a|]; [|discriminate].
  destruct (ds_assetSymbol r) as [b|]; [|discriminate].
  apply String.eqb_eq in H. subst. split; [reflexivity|discriminate].
Qed.

Lemma apart_symbols e e2 :
  ds_assetSymbol e <> ds_assetSymbol e2 -> apart e e2.
Proof.
  intros Hne r Hc. destruct (conflicts e2 r) eqn:E; [|reflexivity].
  apply conflicts_symbol in Hc as [Hs _].
  apply conflicts_symbol in E as [Hs2 _]. congruence.
Qed.

Lemma settled_upsert_other e e2 table :
  apart e e2 -> conflicts e e2 = false ->
  settled e table -> settled e (upsert_row e2 table).
Proof.
  intros Hap Hee. unfold settled. induction table as [|r table IH].
  - cbn. destruct (conflicts e e); discriminate.
  - cbn [upsert_row]. destruct (conflicts e r) eqn:E.
    + intros Hs. rewrite (Hap r E). cbn [upsert_row]. rewrite E.
      injection Hs as Hs. rewrite Hs. reflexivity.
    + intros Hs. injection Hs as Hs.
      destruct (conflicts e2 r) eqn:E2.
      * cbn [upsert_row].
        assert (conflicts e
                  {| snapshotDate := snapshotDate r;
                     ds_assetSymbol := ds_assetSymbol r;
                     ds_avgSentiment := ds_avgSentiment e2;
                     ds_minSentiment := ds_minSentiment e2;
                     ds_maxSentiment := ds_maxSentiment e2;
                     ds_signalCount := ds_signalCount e2;
                     ds_totalVolume := ds_totalVolume e2;
                     ds_volumeWeightedSentiment :=
                       ds_volumeWeightedSentiment e2 |}
                = false) as -> by exact E.
        rewrite Hs. reflexivity.
      * cbn [upsert_row]. rewrite E, (IH Hs). reflexivity.
Qed.

Lemma settled_upsert_all e entities : forall table,
  Forall (fun e2 => apart e e2 /\ conflicts e e2 = false) entities ->
  settled e table -> settled e (upsert_all entities table).
Proof.
  induction entities as [|e2 entities IH]; intros table Hall Hs;
    [exact Hs|].
  inversion Hall as [|? ? [Hap Hc] Hrest]; subst.
  cbn. apply IH; [exact Hrest|]. apply settled_upsert_other; assumption.
Qed.

Lemma upsert_all_settled entities : forall table,
  Forall (fun e => settled e table) entities ->
  upsert_all entities table = table.
Proof.
  induction entities as [|e entities IH]; intros table Hall; [reflexivity|].
  inversion Hall as [|? ? He Hrest]; subst. cbn. rewrite He.
  apply IH. exact Hrest.
Qed.

(** Entities with pairwise distinct symbols are all settled once the
    batch is in. *)
Lemma upsert_all_settles entities : forall table,
  Forall keyed entities ->
  List.NoDup (map ds_assetSymbol entities) ->
  Forall (fun e => settled e (upsert_all entities table)) entities.
Proof.
  induction entities as [|e entities IH]; intros table Hk Hnd;
    [constructor|].
  inversion Hk as [|? ? Hke Hkrest]; subst.
  inversion Hnd as [|? ? Hnotin Hndrest]; subst.
  constructor.
  - cbn. apply settled_upsert_all; [|apply upsert_row_settles, Hke].
    apply List.Forall_forall. intros e2 Hin.
    assert (Hne : ds_assetSymbol e <> ds_assetSymbol e2).
    { intros Heq. apply Hnotin. rewrite Heq. apply in_map. exact Hin. }
    split; [apply apart_symbols, Hne|].
    destruct (conflicts e e2) eqn:E; [|reflexivity].
    apply conflicts_symbol in E as [Hs _]. contradiction.
  - cbn. apply IH; assumption.
Qed.

(** A row whose symbol is NULL is always added. *)
Lemma upsert_row_global g table :
  ds_assetSymbol g = None -> upsert_row g table = table ++ [g].
Proof.
  intros Hg. induction table as [|r table IH]; [reflexivity|].
  cbn. unfold conflicts. rewrite Hg, andb_false_r, IH. reflexivity.
Qed.

Lemma distinct_NoDup l : List.NoDup (distinct l).
Proof.
  induction l as [|k l IH]; cbn; constructor.
  - intros Hin. apply filter_In in Hin as [_ Hk].
    rewrite String.eqb_refl in Hk. discriminate.
  - apply List.NoDup_filter. exact IH.
Qed.

(** The entities of one run: one per symbol of the day, the symbols
    pairwise distinct, then the global one. *)
Lemma run_entities date0 db :
  exists keyed_entities g,
    run_rows date0 db = keyed_entities ++ [g]
    /\ Forall keyed keyed_entities
    /\ List.NoDup (map ds_assetSymbol keyed_entities)
    /\ ds_assetSymbol g = None.
Proof.
  unfold run_rows, aggregateForDate, aggregation_query. cbn [fst].
  set (of_day := List.filter _ (sentiment_signals db)).
  set (with_symbol := List.filter _ of_day).
  set (symbols := distinct _).
  rewrite !map_app. cbn [map]. eexists. eexists. split; [reflexivity|].
  split; [|split; [|reflexivity]].
  - apply List.Forall_forall. intros e Hin.
    rewrite !map_map in Hin. apply in_map_iff in Hin.
    destruct Hin as (k & <- & _). discriminate.
  - rewrite !map_map. cbn.
    assert (Hnd : List.NoDup symbols) by apply distinct_NoDup.
    clearbody symbols. induction Hnd as [|k ks Hnotin Hnd IH];
      cbn; constructor; [|exact IH].
    intros Hin. apply in_map_iff in Hin. destruct Hin as (k' & [= ->] & Hin).
    contradiction.
Qed.

Lemma generateForDate_signals date0 db :
  sentiment_signals (snd (generateForDate date0 db)) = sentiment_signals db.
Proof.
  unfold generateForDate, aggregateForDate.
  set (aggs := map parseRow _).
  destruct (length aggs =? 0)%nat eqn:E; [reflexivity|].
  unfold upsertSnapshots. rewrite E. reflexivity.
Qed.

(** A run leaves the deployment as it is. *)
Lemma generateForDate_deployment date0 db :
  quotient_scale (snd (generateForDate date0 db)) = quotient_scale db
  /\ local_offset (snd (generateForDate date0 db)) = local_offset db.
Proof.
  unfold generateForDate, aggregateForDate.
  set (aggs := map parseRow _).
  destruct (length aggs =? 0)%nat eqn:E; [split; reflexivity|].
  unfold upsertSnapshots. rewrite E. split; reflexivity.
Qed.

Lemma generateForDate_snapshots date0 db :
  daily_snapshots (snd (generateForDate date0 db))
  = upsert_all (run_rows date0 db) (daily_snapshots db).
Proof.
  pose proof (aggregateForDate_not_empty (toUtcMidnight date0) db) as Hne.
  unfold run_rows, generateForDate, aggregateForDate, upsertSnapshots in *.
  cbn [fst] in *.
  destruct (map parseRow _) as [|a aggs]; [contradiction|]. reflexivity.
Qed.

Lemma generateForDate_result date0 db db' :
  sentiment_signals db' = sentiment_signals db ->
  quotient_scale db' = quotient_scale db ->
  fst (generateForDate date0 db') = fst (generateForDate date0 db).
Proof.
  intros Hs Hq. unfold generateForDate, aggregateForDate.
  rewrite Hs, Hq. set (aggs := map parseRow _).
  destruct (length aggs =? 0)%nat eqn:E; [reflexivity|].
  unfold upsertSnapshots. rewrite E. reflexivity.
Qed.

(** For every table and date: a second run returns what the first
    returned, leaves the rows of the first run as they are, and adds one
    more global row. *)
Lemma rerun_appends_global_row date0 db :
  let run1 := generateForDate date0 db in
  let run2 := generateForDate date0 (snd run1) in
  fst run2 = fst run1
  /\ exists g,
      ds_assetSymbol g = None
      /\ In g (daily_snapshots (snd run1))
      /\ daily_snapshots (snd run2) = daily_snapshots (snd run1) ++ [g].
Proof.
  intros run1 run2. subst run1 run2.
  destruct (generateForDate_deployment date0 db) as [Hq Ho]. split.
  - apply generateForDate_result;
      [apply generateForDate_signals | exact Hq].
  - rewrite !generateForDate_snapshots.
    assert (Hagg : run_rows date0 (snd (generateForDate date0 db))
                   = run_rows date0 db).
    { unfold run_rows, aggregateForDate. cbn [fst].
      rewrite generateForDate_signals, Hq, Ho. reflexivity. }
    rewrite Hagg.
    destruct (run_entities date0 db) as (ks & g & -> & Hk & Hnd & Hg).
    exists g. split; [exact Hg|].
    unfold upsert_all. rewrite !fold_left_app. cbn [fold_left].
    fold (upsert_all ks (daily_snapshots db)).
    rewrite !upsert_row_global by exact Hg.
    split; [apply in_or_app; right; left; reflexivity|].
    f_equal.
    fold (upsert_all ks (upsert_all ks (daily_snapshots db) ++ [g])).
    apply upsert_all_settled.
    pose proof (upsert_all_settles ks (daily_snapshots db) Hk Hnd) as Hs.
    rewrite List.Forall_forall in Hs |- *. intros e Hin.
    specialize (Hs e Hin). unfold settled in *.
    rewrite <- (upsert_row_global g _ Hg).
    apply settled_upsert_other; [| |exact Hs].
    + intros r Hc. unfold conflicts. rewrite Hg, andb_false_r. reflexivity.
    + unfold conflicts. rewrite Hg.
      destruct (ds_assetSymbol e); apply andb_false_r.
Qed.

(** *** Midnights *)

Lemma toUtcMidnight_mod d : toUtcMidnight d mod msPerDay = 0.
Proof.
  unfold toUtcMidnight, msPerDay.
  pose proof (Z_div_mod_eq_full d 86400000) as H.
  replace (d - d mod 86400000) with (d / 86400000 * 86400000) by lia.
  apply Z.mod_mul. lia.
Qed.

Lemma toUtcMidnight_fixed m : m mod msPerDay = 0 -> toUtcMidnight m = m.
Proof. unfold toUtcMidnight. intros ->. lia. Qed.


Lemma generateForDate_date date0 db :
  date (fst (generateForDate date0 db)) = toUtcMidnight date0.
Proof.
  unfold generateForDate. destruct (aggregateForDate _ db) as [aggs db1].
  destruct (length aggs =? 0)%nat; [reflexivity|].
  destruct (upsertSnapshots _ aggs db1). reflexivity.
Qed.

(** *** The backfill loop *)

Lemma backfill_loop_step cursor end_ results db :
  backfill_loop cursor end_ results db
  = if cursor <=? end_
    then backfill_loop (cursor + msPerDay) end_
           (results ++ [fst (generateForDate cursor db)])
           (snd (generateForDate cursor db))
    else (results, db).
Proof.
  rewrite (backfill_loop_equation_1 cursor end_ results db).
  destruct (Z_le_gt_dec cursor end_) as [Hle|Hgt].
  - rewrite backfill_loop_clause_1_equation_1.
    destruct (Z.leb_spec cursor end_); [|lia].
    destruct (generateForDate cursor db). reflexivity.
  - rewrite backfill_loop_clause_1_equation_2.
    destruct (Z.leb_spec cursor end_); [lia|]. reflexivity.
Qed.

Lemma day_count_gt cursor end_ : end_ < cursor -> day_count cursor end_ = O.
Proof.
  intros H. unfold day_count, msPerDay.
  assert ((end_ - cursor) / 86400000 < 0)
    by (apply Z.div_lt_upper_bound; lia).
  lia.
Qed.

Lemma day_count_le cursor end_ :
  cursor <= end_ ->
  day_count cursor end_ = S (day_count (cursor + msPerDay) end_).
Proof.
  intros H. unfold day_count, msPerDay.
  replace (end_ - cursor) with ((end_ - (cursor + 86400000)) + 1 * 86400000)
    by lia.
  rewrite Z.div_add by lia.
  assert (-1 <= (end_ - (cursor + 86400000)) / 86400000)
    by (apply Z.div_le_lower_bound; lia).
  lia.
Qed.

Lemma backfill_loop_run_each cursor end_ results db :
  backfill_loop cursor end_ results db
  = (results ++ fst (run_each (day_range cursor (day_count cursor end_)) db),
     snd (run_each (day_range cursor (day_count cursor end_)) db)).
Proof.
  remember (day_count cursor end_) as n eqn:Hn.
  revert cursor results db Hn.
  induction n as [|n IH]; intros cursor results db Hn.
  - rewrite backfill_loop_step.
    destruct (Z.leb_spec cursor end_) as [Hle|Hgt].
    + rewrite (day_count_le _ _ Hle) in Hn. discriminate.
    + cbn. rewrite app_nil_r. reflexivity.
  - rewrite backfill_loop_step.
    destruct (Z.leb_spec cursor end_) as [Hle|Hgt].
    + rewrite (day_count_le _ _ Hle) in Hn. injection Hn as Hn.
      rewrite (IH _ _ _ Hn). cbn [day_range run_each].
      destruct (generateForDate cursor db) as [r db1]. cbn [fst snd].
      destruct (run_each _ db1) as [rs db2]. cbn [fst snd].
      rewrite <- app_assoc. reflexivity.
    + rewrite (day_count_gt _ _ Hgt) in Hn. discriminate.
Qed.



Lemma day_range_nth n : forall start,
  day_range start n
  = map (fun i => start + Z.of_nat i * msPerDay) (seq 0 n).
Proof.
  induction n as [|n IH]; intros start; [reflexivity|].
  cbn [day_range seq map]. f_equal; [lia|].
  rewrite IH, <- seq_shift, map_map. apply map_ext. intros i. lia.
Qed.

(** *** Main results *)

(** C2, at a day without records.  The global [SELECT] has aggregates and
    no [GROUP BY]: it returns one row, with count 0 and NULL statistics,
    also when no record matches.  So the aggregation is not empty,
    [generateForDate] does not take its "skipping write" branch, one row
    is upserted and the result reports a global row. *)
Theorem empty_day_writes_global_row :
  fst (aggregateForDate day_2024_06_15 (db_of [])) = [empty_day_row]
  /\ generateForDate day_2024_06_15 (db_of [])
     = ({| date := day_2024_06_15;
           assetRowsWritten := 0;
           globalRowWritten := true |},
        {| sentiment_signals := [];
           daily_snapshots := [entity_of day_2024_06_15 empty_day_row];
           executed :=
             [QAggregate (toDateString day_2024_06_15);
              QUpsert [entity_of day_2024_06_15 empty_day_row]];
           quotient_scale := quotient_scale (db_of []);
           local_offset := local_offset (db_of []) |}).
Proof. split; reflexivity. Qed.

(** C3, at a day with one record.  The second run returns the same counts
    as the first, and the row of the asset is overwritten in place; but
    the global row, whose [asset_symbol] is NULL, conflicts with nothing
    under the unique index and is inserted a second time. *)
Theorem rerun_duplicates_global_row :
  let db0 := db_of [btc (5 # 10) 10 1000] in
  let run1 := generateForDate day_2024_06_15 db0 in
  let run2 := generateForDate day_2024_06_15 (snd run1) in
  fst run2 = fst run1
  /\ length (daily_snapshots (snd run1)) = 2%nat
  /\ daily_snapshots (snd run2)
     = daily_snapshots (snd run1)
       ++ List.filter (fun e => match ds_assetSymbol e with
                                | None => true
                                | Some _ => false
                                end) (daily_snapshots (snd run1))
  /\ length (daily_snapshots (snd run2)) = 3%nat.
Proof. repeat split. Qed.

(** C6, as amended.  For every group and every scale of the database's
    quotients, the total weight is the sum of the weights of the rows that
    carry one, NULL when no row does; the weighted average is NULL when no
    row carries a weight or that sum is not greater than 0, and otherwise
    it is the number read from the sum of score times weight over those
    same rows divided by that sum, as the database rounds it: a number
    within the tolerance of the exact quotient, and finite below [2^1022].
    For the three BTC records of 2024-06-15 the aggregation yields avg
    0.7, min 0.5, max 0.9, count 3, total weight 60 and the weighted
    average 0.7666666666666667, which is 0.7667 to four decimals. *)
Theorem weighted_average_guard :
  forall (scale : Q -> Q -> nat) (symbol : option string)
         (group : list SentimentSignal),
    let a := parseRow (select_list scale symbol group) in
    (weighted group = [] ->
       totalVolume a = None /\ volumeWeightedSentiment a = None)
    /\ (weighted group <> [] ->
        totalVolume a = Some (round64 (sum_weights group))
        /\ ((sum_weights group <= 0)%Q -> volumeWeightedSentiment a = None)
        /\ ((0 < sum_weights group)%Q ->
            let exact :=
              (sum_weighted_scores group / sum_weights group)%Q in
            let s := scale (sum_weighted_scores group) (sum_weights group) in
            volumeWeightedSentiment a
            = Some (round64 (round_decimals s exact))
            /\ (forall v,
                  volumeWeightedSentiment a = Some (Fin v) ->
                  (Qabs (v - exact) <= tolerance s (Qabs exact))%Q)
            /\ ((Qabs exact <= Qpower 2 1022)%Q ->
                exists v, volumeWeightedSentiment a = Some (Fin v))))
    /\ fst (aggregateForDate day_2024_06_15 (db_of scenario_1))
       = [ {| assetSymbol := Some "BTC"%string;
              avgSentiment := literal (7 # 10);
              minSentiment := Some (literal (5 # 10));
              maxSentiment := Some (literal (9 # 10));
              signalCount := 3;
              totalVolume := Some (literal 60);
              volumeWeightedSentiment :=
                Some (literal (7666666666666667 # 10000000000000000)) |};
           {| assetSymbol := None;
              avgSentiment := literal (7 # 10);
              minSentiment := Some (literal (5 # 10));
              maxSentiment := Some (literal (9 # 10));
              signalCount := 3;
              totalVolume := Some (literal 60);
              volumeWeightedSentiment :=
                Some (literal (7666666666666667 # 10000000000000000)) |} ]
    /\ ((23 # 30) == ((5 # 10) * 10 + (7 # 10) * 20 + (9 # 10) * 30) / 60)%Q
    /\ toFixed (literal (7666666666666667 # 10000000000000000)) 4
       = "0.7667"%string.
Proof.
  intros scale symbol group a. subst a.
  unfold parseRow, select_list.
  cbn [totalVolume volumeWeightedSentiment total_volume
       volume_weighted_sentiment].
  rewrite sql_sum_volumes, sql_sum_products.
  split; [|split; [|split; [|split]]].
  - intros ->. split; reflexivity.
  - intros Hne. destruct (weighted group) as [|sw ws] eqn:E; [contradiction|].
    cbn [nullableFloat parseFloat_cell sql_case_positive sql_div].
    split; [reflexivity|]. split.
    + intros Hle. apply Qle_bool_iff in Hle. rewrite Hle. reflexivity.
    + intros Hlt.
      destruct (Qle_bool (sum_weights group) 0) eqn:Hb.
      { apply Qle_bool_iff in Hb. exfalso. lra. }
      unfold numeric_div. cbn [nullableFloat parseFloat_cell].
      set (exact := (sum_weighted_scores group / sum_weights group)%Q).
      set (s := scale (sum_weighted_scores group) (sum_weights group)).
      split; [reflexivity|]. split.
      * intros v [= Hv]. apply JSProofs.round_decimals_tolerance, Hv.
      * intros Hsmall.
        destruct (JSProofs.round64_finite (round_decimals s exact))
          as [v Hv]; [|exists v; rewrite Hv; reflexivity].
        pose proof (JSProofs.round_decimals_close s exact) as Hc.
        assert (Hu : ((1 # 2) / inject_Z (10 ^ Z.of_nat s) <= 1 # 2)%Q).
        { apply Qle_shift_div_r.
          - change 0%Q with (inject_Z 0). rewrite <- Zlt_Qlt.
            apply Z.pow_pos_nonneg; lia.
          - assert (1 <= 10 ^ Z.of_nat s)
              by (pose proof (Z.pow_pos_nonneg 10 (Z.of_nat s)); lia).
            assert (inject_Z 1 <= inject_Z (10 ^ Z.of_nat s))%Q
              by (rewrite <- Zle_Qle; assumption).
            change (inject_Z 1) with 1%Q in *. lra. }
        assert (Ex : (round_decimals s exact
                      == (round_decimals s exact - exact) + exact)%Q) by ring.
        rewrite Ex. eapply Qle_trans; [apply Qabs_triangle|].
        assert (H23 : (Qpower 2 1023 == 2 * Qpower 2 1022)%Q)
          by apply (JSProofs.Qpower2_succ 1022).
        assert (H1 : (1 <= Qpower 2 1022)%Q) by (vm_compute; discriminate).
        lra.
  - vm_compute. reflexivity.
  - reflexivity.
  - vm_compute. reflexivity.
Qed.

(** C6, as stated, fails for a group whose total weight is negative: the
    total is neither null nor 0, and the weighted average is null. *)
Lemma negative_weight_not_null_only_at_zero :
  ~ null_only_at_zero_weight (fun _ _ => 20%nat) negative_volume.
Proof.
  unfold null_only_at_zero_weight. intros [_ H].
  destruct H as (v & Hv).
  - intros [H|(w & Hw & Hz)]; [discriminate H|].
    vm_compute in Hw. injection Hw as <-. discriminate Hz.
  - discriminate Hv.
Qed.


(** *** Runs on sample data *)

Example backfill_three_days :
  map date (fst (backfill (day_2024_06_15 + 5)
                          (day_2024_06_15 + 2 * msPerDay + 7)
                          (db_of scenario_1)))
  = [ day_2024_06_15; day_2024_06_15 + msPerDay;
      day_2024_06_15 + 2 * msPerDay ].
Proof. reflexivity. Qed.

Example backfill_same_day :
  map date (fst (backfill (day_2024_06_15 + 9) (day_2024_06_15 + 3)
                          (db_of scenario_1)))
  = [ day_2024_06_15 ].
Proof. reflexivity. Qed.

Example backfill_reversed :
  backfill (day_2024_06_15 + msPerDay) day_2024_06_15 (db_of scenario_1)
  = ([], db_of scenario_1).
Proof. reflexivity. Qed.

(** A group whose weights sum to zero, and one without any weight. *)
Example zero_total_weight :
  forall scale,
    let a := parseRow (select_list scale None [btc (5 # 10) 0 1000]) in
    totalVolume a = Some (Fin 0) /\ volumeWeightedSentiment a = None.
Proof. intros scale. split; reflexivity. Qed.

Example no_weight_at_all :
  forall scale,
    let a := parseRow (select_list scale None
                         [mkSignal (Some "BTC"%string) (5 # 10) None
                                   day_2024_06_15]) in
    totalVolume a = None /\ volumeWeightedSentiment a = None.
Proof. intros scale. split; reflexivity. Qed.

(** What the columns hold after a run on the three BTC records: the
    weighted average 0.7666666666666667 is stored as 0.766667. *)
Example stored_weighted_average :
  map (fun r => (ds_assetSymbol r, ds_avgSentiment r,
                 ds_volumeWeightedSentiment r, ds_totalVolume r))
      (daily_snapshots
         (snd (generateForDate day_2024_06_15 (db_of scenario_1))))
  = [ (Some "BTC"%string, Fin (7 # 10), Some (Fin (766667 # 1000000)),
       Some (Fin 60));
      (None, Fin (7 # 10), Some (Fin (766667 # 1000000)), Some (Fin 60)) ].
Proof. vm_compute. reflexivity. Qed.

(** West of UTC the rows of a run for a day are stored under the day
    before. *)
Example stored_west_of_utc :
  map date_of_row
      (daily_snapshots
         (snd (generateForDate day_2024_06_15
                 {| sentiment_signals := scenario_1;
                    daily_snapshots := [];
                    executed := [];
                    quotient_scale := fun _ _ => 20%nat;
                    local_offset := - (5 * 3600000) |})))
  = [ toDateString day_2024_06_15 - 1; toDateString day_2024_06_15 - 1 ].
Proof. vm_compute. reflexivity. Qed.

End SnapshotProofs.

(** ** The performance evaluator *)

Module PerformanceProofs.
Import Performance JSProofs.

(** *** The scan does not depend on the order of distinct instants *)

Section Scan.

Variable targetDate : Z.

Lemma scan_step_swap st x y :
  createdAt x <> createdAt y ->
  scan_step targetDate (scan_step targetDate st x) y
  = scan_step targetDate (scan_step targetDate st y) x.
Proof.
  intros Hne. destruct st as [c m]. unfold scan_step; simpl.
  destruct (Z.leb_spec (createdAt x) targetDate) as [Hx|Hx];
    destruct (Z.leb_spec (createdAt y) targetDate) as [Hy|Hy]; simpl;
    try reflexivity.
  destruct m as [|z]; simpl.
    - destruct (Z.ltb_spec (Z.abs (createdAt y - targetDate))
                           (Z.abs (createdAt x - targetDate)));
        destruct (Z.ltb_spec (Z.abs (createdAt x - targetDate))
                             (Z.abs (createdAt y - targetDate)));
        simpl; try reflexivity; lia.
    - destruct (Z.ltb_spec (Z.abs (createdAt x - targetDate)) z);
        destruct (Z.ltb_spec (Z.abs (createdAt y - targetDate)) z); simpl;
        repeat match goal with
               | |- context [?a <? ?b] => destruct (Z.ltb_spec a b); simpl
               end; try reflexivity; lia.
Qed.

Lemma scan_insert_sorted x l st :
  scan targetDate (insert_sorted x l) st = scan targetDate (x :: l) st.
Proof.
  revert st. induction l as [|y l IH]; intros st; simpl; [reflexivity|].
  unfold compareCreatedAt.
  destruct (Z.leb_spec (createdAt x - createdAt y) 0) as [Hle|Hgt];
    [reflexivity|].
  unfold scan in *. simpl. rewrite IH. simpl.
  rewrite scan_step_swap by lia. reflexivity.
Qed.

Lemma scan_sort l st :
  scan targetDate (sort_by_createdAt l) st = scan targetDate l st.
Proof.
  revert st. induction l as [|x l IH]; intros st; simpl; [reflexivity|].
  rewrite scan_insert_sorted. unfold scan in *. simpl. apply IH.
Qed.

End Scan.

(** *** What the sort produces *)

Lemma insert_sorted_perm x l : Permutation (insert_sorted x l) (x :: l).
Proof.
  induction l as [|y l IH]; simpl; [reflexivity|].
  destruct (compareCreatedAt x y <=? 0); [reflexivity|].
  rewrite IH. apply perm_swap.
Qed.

Lemma sort_by_createdAt_perm l : Permutation (sort_by_createdAt l) l.
Proof.
  induction l as [|x l IH]; simpl; [reflexivity|].
  rewrite insert_sorted_perm. constructor. exact IH.
Qed.

Lemma insert_sorted_sorted x l :
  Sorted createdAt_le l -> Sorted createdAt_le (insert_sorted x l).
Proof.
  induction 1 as [|y l Hs IH Hhd]; simpl.
  - repeat constructor.
  - unfold compareCreatedAt.
    destruct (Z.leb_spec (createdAt x - createdAt y) 0) as [Hle|Hgt].
    + constructor; [constructor; assumption|].
      constructor. unfold createdAt_le. lia.
    + constructor; [exact IH|].
      destruct l as [|z l]; simpl.
      * constructor. unfold createdAt_le. lia.
      * destruct (compareCreatedAt x z <=? 0).
        -- constructor. unfold createdAt_le. lia.
        -- constructor. inversion Hhd; assumption.
Qed.

Lemma sort_by_createdAt_sorted l : Sorted createdAt_le (sort_by_createdAt l).
Proof.
  induction l as [|x l IH]; simpl; [constructor|].
  apply insert_sorted_sorted, IH.
Qed.

(** Stability: observations of one instant keep their relative order. *)
Lemma insert_sorted_stable t x l :
  List.filter (fun s => createdAt s =? t) (insert_sorted x l)
  = List.filter (fun s => createdAt s =? t) (x :: l).
Proof.
  induction l as [|y l IH]; [reflexivity|].
  cbn [insert_sorted]. unfold compareCreatedAt.
  destruct (Z.leb_spec (createdAt x - createdAt y) 0) as [Hle|Hgt];
    [reflexivity|].
  cbn [List.filter] in *. rewrite IH.
  destruct (Z.eqb_spec (createdAt x) t), (Z.eqb_spec (createdAt y) t);
    try reflexivity.
  exfalso. lia.
Qed.

Lemma sort_by_createdAt_stable t l :
  List.filter (fun s => createdAt s =? t) (sort_by_createdAt l)
  = List.filter (fun s => createdAt s =? t) l.
Proof.
  induction l as [|x l IH]; [reflexivity|].
  cbn [sort_by_createdAt]. rewrite insert_sorted_stable.
  cbn [List.filter]. rewrite IH. reflexivity.
Qed.

(** A sorted, stable rearrangement is unique, whichever algorithm the
    engine runs. *)
Lemma createdAt_le_trans : Relations_1.Transitive createdAt_le.
Proof. intros a b c; unfold createdAt_le; lia. Qed.

Lemma stable_sorted_unique l1 l2 :
  Sorted createdAt_le l1 -> Sorted createdAt_le l2 ->
  (forall t, List.filter (fun s => createdAt s =? t) l1
             = List.filter (fun s => createdAt s =? t) l2) ->
  l1 = l2.
Proof.
  intros H1 H2.
  apply (Sorted_StronglySorted createdAt_le_trans) in H1.
  apply (Sorted_StronglySorted createdAt_le_trans) in H2.
  revert l2 H2. induction H1 as [|x l1 Hs1 IH Hall1]; intros l2 H2 Hf.
  - destruct l2 as [|y l2]; [reflexivity|].
    specialize (Hf (createdAt y)). cbn in Hf.
    rewrite Z.eqb_refl in Hf. discriminate.
  - destruct H2 as [|y l2 Hs2 Hall2].
    + specialize (Hf (createdAt x)). cbn in Hf.
      rewrite Z.eqb_refl in Hf. discriminate.
    + assert (Heq : createdAt x = createdAt y).
      { pose proof (Hf (createdAt x)) as Hx.
        pose proof (Hf (createdAt y)) as Hy.
        cbn in Hx, Hy. rewrite Z.eqb_refl in Hx, Hy.
        destruct (Z.eqb_spec (createdAt y) (createdAt x)) as [E|Hne];
          [symmetry; exact E|].
        destruct (Z.eqb_spec (createdAt x) (createdAt y)) as [E|_];
          [exact E|].
        assert (Hin2 : In x (List.filter
                  (fun s => createdAt s =? createdAt x) l2)).
        { rewrite <- Hx. left. reflexivity. }
        assert (Hin1 : In y (List.filter
                  (fun s => createdAt s =? createdAt y) l1)).
        { rewrite Hy. left. reflexivity. }
        apply filter_In in Hin2 as [Hin2 _].
        apply filter_In in Hin1 as [Hin1 _].
        rewrite List.Forall_forall in Hall1, Hall2.
        pose proof (Hall1 _ Hin1). pose proof (Hall2 _ Hin2).
        unfold createdAt_le in *. lia. }
      pose proof (Hf (createdAt x)) as Hx. cbn in Hx.
      rewrite Z.eqb_refl, <- Heq, Z.eqb_refl in Hx.
      injection Hx as -> Hx. f_equal. apply IH; [exact Hs2|].
      intros t. specialize (Hf t). cbn in Hf.
      destruct (createdAt y =? t); [injection Hf as Hf|]; exact Hf.
Qed.

Lemma sort_by_createdAt_unique l l' :
  Sorted createdAt_le l' ->
  (forall t, List.filter (fun s => createdAt s =? t) l'
             = List.filter (fun s => createdAt s =? t) l) ->
  l' = sort_by_createdAt l.
Proof.
  intros Hs Hf. apply stable_sorted_unique;
    [exact Hs | apply sort_by_createdAt_sorted |].
  intros t. rewrite sort_by_createdAt_stable. apply Hf.
Qed.

(** *** The latest eligible instant *)

Section Selection.

Variable targetDate : Z.

Lemma latest_eligible_cons x l :
  latest_eligible targetDate (x :: l)
  = if eligible targetDate x
    then match latest_eligible targetDate l with
         | Some t => Some (Z.max (createdAt x) t)
         | None => Some (createdAt x)
         end
    else latest_eligible targetDate l.
Proof. reflexivity. Qed.

Lemma latest_eligible_le l t :
  latest_eligible targetDate l = Some t -> t <= targetDate.
Proof.
  revert t. induction l as [|x l IH]; intros t; [discriminate|].
  rewrite latest_eligible_cons. unfold eligible.
  destruct (Z.leb_spec (createdAt x) targetDate) as [Hx|Hx]; [|apply IH].
  destruct (latest_eligible targetDate l) as [t'|].
  - intros [= <-]. specialize (IH t' eq_refl). lia.
  - intros [= <-]. exact Hx.
Qed.

Lemma latest_eligible_upper l t s :
  latest_eligible targetDate l = Some t ->
  In s l -> createdAt s <= targetDate -> createdAt s <= t.
Proof.
  revert t. induction l as [|x l IH]; intros t; [discriminate|].
  rewrite latest_eligible_cons. unfold eligible.
  intros Hl [->|Hin] Hs.
  - destruct (Z.leb_spec (createdAt s) targetDate); [|lia].
    destruct (latest_eligible targetDate l); injection Hl as <-; lia.
  - destruct (Z.leb_spec (createdAt x) targetDate).
    + destruct (latest_eligible targetDate l) as [t'|] eqn:E.
      * injection Hl as <-. specialize (IH t' eq_refl Hin Hs). lia.
      * exfalso. clear Hl IH. induction l as [|y l IHl]; [destruct Hin|].
        rewrite latest_eligible_cons in E. unfold eligible in E.
        destruct Hin as [->|Hin].
        -- destruct (Z.leb_spec (createdAt s) targetDate); [|lia].
           destruct (latest_eligible targetDate l); discriminate.
        -- destruct (createdAt y <=? targetDate);
             [destruct (latest_eligible targetDate l); discriminate|].
           apply IHl; assumption.
    + apply IH; assumption.
Qed.

Lemma latest_eligible_none l s :
  latest_eligible targetDate l = None ->
  In s l -> targetDate < createdAt s.
Proof.
  induction l as [|x l IH]; [intros _ []|].
  rewrite latest_eligible_cons. unfold eligible.
  destruct (Z.leb_spec (createdAt x) targetDate).
  - destruct (latest_eligible targetDate l); discriminate.
  - intros Hl [->|Hin]; [assumption|]. apply IH; assumption.
Qed.

Lemma latest_eligible_witness l t :
  latest_eligible targetDate l = Some t ->
  exists s, In s l /\ createdAt s = t.
Proof.
  revert t. induction l as [|x l IH]; intros t; [discriminate|].
  rewrite latest_eligible_cons.
  destruct (eligible targetDate x).
  - destruct (latest_eligible targetDate l) as [t'|].
    + intros [= <-]. destruct (Z.max_spec (createdAt x) t') as [[_ ->]|[_ ->]].
      * destruct (IH t' eq_refl) as (s & Hin & Hs).
        exists s. split; [right; exact Hin | exact Hs].
      * exists x. split; [left|]; reflexivity.
    + intros [= <-]. exists x. split; [left|]; reflexivity.
  - intros Hl. destruct (IH t Hl) as (s & Hin & Hs).
    exists s. split; [right; exact Hin | exact Hs].
Qed.

(** *** The scan computes the reference selection *)

Lemma scan_from_some l s :
  createdAt s <= targetDate ->
  fst (scan targetDate l (Some s, Finite (targetDate - createdAt s)))
  = match latest_eligible targetDate l with
    | Some t =>
        if createdAt s <? t
        then List.find (fun x => createdAt x =? t) l
        else Some s
    | None => Some s
    end.
Proof.
  revert s. induction l as [|x l IH]; intros s Hs; [reflexivity|].
  unfold scan in *. cbn [fold_left]. unfold scan_step at 2. cbn [snd lt_ext].
  rewrite latest_eligible_cons. unfold eligible.
  pose proof (latest_eligible_le l) as Hle.
  destruct (Z.leb_spec (createdAt x) targetDate) as [Hx|Hx]; cbn [andb].
  - rewrite (Z.abs_neq (createdAt x - targetDate)) by lia.
    replace (- (createdAt x - targetDate)) with (targetDate - createdAt x)
      by lia.
    destruct (Z.ltb_spec (targetDate - createdAt x)
                         (targetDate - createdAt s)) as [Hlt|Hge].
    + rewrite (IH x Hx).
      destruct (latest_eligible targetDate l) as [t'|].
      * cbn [List.find].
        destruct (Z.ltb_spec (createdAt x) t').
        -- rewrite Z.max_r by lia.
           destruct (Z.ltb_spec (createdAt s) t'); [|lia].
           destruct (Z.eqb_spec (createdAt x) t'); [lia|reflexivity].
        -- rewrite Z.max_l by lia.
           destruct (Z.ltb_spec (createdAt s) (createdAt x)); [|lia].
           rewrite Z.eqb_refl. reflexivity.
      * cbn [List.find].
        destruct (Z.ltb_spec (createdAt s) (createdAt x)); [|lia].
        rewrite Z.eqb_refl. reflexivity.
    + rewrite (IH s Hs).
      destruct (latest_eligible targetDate l) as [t'|].
      * cbn [List.find].
        destruct (Z.ltb_spec (createdAt s) t').
        -- rewrite Z.max_r by lia.
           destruct (Z.ltb_spec (createdAt s) t'); [|lia].
           destruct (Z.eqb_spec (createdAt x) t'); [lia|reflexivity].
        -- destruct (Z.ltb_spec (createdAt s) (Z.max (createdAt x) t'));
             [lia|reflexivity].
      * destruct (Z.ltb_spec (createdAt s) (createdAt x)); [lia|reflexivity].
  - rewrite (IH s Hs).
    destruct (latest_eligible targetDate l) as [t'|]; [|reflexivity].
    specialize (Hle t' eq_refl). cbn [List.find].
    destruct (Z.eqb_spec (createdAt x) t'); [lia|reflexivity].
Qed.

Lemma scan_from_nothing l :
  fst (scan targetDate l (None, Infinity)) = first_latest_eligible targetDate l.
Proof.
  induction l as [|x l IH]; [reflexivity|].
  unfold first_latest_eligible in *. unfold scan in *.
  cbn [fold_left]. unfold scan_step at 2. cbn [snd lt_ext].
  rewrite latest_eligible_cons. unfold eligible.
  pose proof (latest_eligible_le l) as Hle.
  destruct (Z.leb_spec (createdAt x) targetDate) as [Hx|Hx]; cbn [andb].
  - rewrite (Z.abs_neq (createdAt x - targetDate)) by lia.
    replace (- (createdAt x - targetDate)) with (targetDate - createdAt x)
      by lia.
    pose proof (scan_from_some l x Hx) as Hs.
    unfold scan in Hs. rewrite Hs.
    destruct (latest_eligible targetDate l) as [t'|]; cbn [List.find].
    + destruct (Z.ltb_spec (createdAt x) t').
      * rewrite Z.max_r by lia.
        destruct (Z.eqb_spec (createdAt x) t'); [lia|reflexivity].
      * rewrite Z.max_l by lia. rewrite Z.eqb_refl. reflexivity.
    + rewrite Z.eqb_refl. reflexivity.
  - rewrite IH.
    destruct (latest_eligible targetDate l) as [t'|]; [|reflexivity].
    specialize (Hle t' eq_refl). cbn [List.find].
    destruct (Z.eqb_spec (createdAt x) t'); [lia|reflexivity].
Qed.

End Selection.

(** *** [findClosestSnapshot] on the heap *)

Lemma sort_in_place_fresh (h : heap) arr :
  sort_in_place (length h) (h ++ [arr]) = h ++ [sort_by_createdAt arr].
Proof.
  unfold sort_in_place.
  rewrite alter_app_r_alt by lia. rewrite Nat.sub_diag. reflexivity.
Qed.

Lemma read_sorted_copy (h : heap) arr :
  read (sort_in_place (length h) (h ++ [arr])) (length h)
  = sort_by_createdAt arr.
Proof.
  rewrite sort_in_place_fresh. unfold read.
  rewrite list_lookup_middle by reflexivity. reflexivity.
Qed.

Lemma findClosestSnapshot_value snapshots targetDate (h : heap) :
  fst (findClosestSnapshot snapshots targetDate h)
  = first_latest_eligible targetDate (read h snapshots).
Proof.
  unfold findClosestSnapshot, spread.
  destruct (read h snapshots) as [|x arr] eqn:E; [reflexivity|].
  cbn [length Nat.eqb fst]. rewrite read_sorted_copy, scan_sort.
  apply scan_from_nothing.
Qed.

Lemma findClosestSnapshot_heap snapshots targetDate (h : heap) :
  snd (findClosestSnapshot snapshots targetDate h) = h
  \/ snd (findClosestSnapshot snapshots targetDate h)
     = h ++ [sort_by_createdAt (read h snapshots)].
Proof.
  unfold findClosestSnapshot, spread.
  destruct (length (read h snapshots) =? 0)%nat; [left; reflexivity|].
  right. cbn [snd]. apply sort_in_place_fresh.
Qed.

Lemma findClosestSnapshot_read snapshots targetDate (h : heap) :
  read (snd (findClosestSnapshot snapshots targetDate h)) snapshots
  = read h snapshots.
Proof.
  unfold findClosestSnapshot, spread.
  destruct (length (read h snapshots) =? 0)%nat eqn:Hlen; [reflexivity|].
  cbn [snd]. rewrite sort_in_place_fresh. unfold read in *.
  destruct (h !! snapshots) as [arr|] eqn:E; [|discriminate].
  rewrite (lookup_app_l_Some _ _ _ _ E). reflexivity.
Qed.

Lemma findClosestSnapshot_frame snapshots targetDate (h : heap) (a : loc) :
  (a < length h)%nat ->
  snd (findClosestSnapshot snapshots targetDate h) !! a = h !! a.
Proof.
  intros Ha.
  destruct (findClosestSnapshot_heap snapshots targetDate h) as [->| ->];
    [reflexivity|].
  apply lookup_app_l. exact Ha.
Qed.

Lemma findClosestSnapshot_grows snapshots targetDate (h : heap) :
  (length h <= length (snd (findClosestSnapshot snapshots targetDate h)))%nat.
Proof.
  destruct (findClosestSnapshot_heap snapshots targetDate h) as [->| ->];
    [lia|].
  rewrite length_app. lia.
Qed.

(** *** All windows *)

Lemma window_callback_value cur snapshots now config (h : heap) :
  fst (window_callback cur snapshots now config h)
  = window_result cur (read h snapshots) now config.
Proof.
  unfold window_callback, window_result.
  rewrite <- findClosestSnapshot_value.
  destruct (findClosestSnapshot _ _ h). reflexivity.
Qed.

Lemma window_callback_heap cur snapshots now config (h : heap) :
  snd (window_callback cur snapshots now config h)
  = snd (findClosestSnapshot snapshots
           (calculateBaselineDate now (hours config)) h).
Proof.
  unfold window_callback. destruct (findClosestSnapshot _ _ h). reflexivity.
Qed.

Lemma map_heap_windows cur snapshots now configs (h : heap) :
  fst (map_heap (window_callback cur snapshots now) configs h)
  = map (window_result cur (read h snapshots) now) configs
  /\ read (snd (map_heap (window_callback cur snapshots now) configs h))
          snapshots = read h snapshots
  /\ (forall a, (a < length h)%nat ->
        snd (map_heap (window_callback cur snapshots now) configs h) !! a
        = h !! a).
Proof.
  revert h. induction configs as [|config configs IH]; intros h.
  - cbn. auto.
  - cbn [map_heap].
    pose proof (window_callback_value cur snapshots now config h) as Hv.
    pose proof (window_callback_heap cur snapshots now config h) as Hh.
    destruct (window_callback cur snapshots now config h) as [y h1].
    cbn [fst snd] in Hv, Hh. subst y h1.
    set (h1 := snd (findClosestSnapshot snapshots
                      (calculateBaselineDate now (hours config)) h)).
    destruct (IH h1) as (IHv & IHr & IHf).
    destruct (map_heap (window_callback cur snapshots now) configs h1)
      as [ys h2].
    cbn [fst snd] in *. subst ys.
    assert (Hr : read h1 snapshots = read h snapshots)
      by apply findClosestSnapshot_read.
    rewrite Hr in *. split; [reflexivity|]. split; [assumption|].
    intros a Ha. rewrite IHf.
    + apply findClosestSnapshot_frame. exact Ha.
    + pose proof (findClosestSnapshot_grows snapshots
                    (calculateBaselineDate now (hours config)) h).
      fold h1 in H. lia.
Qed.

Lemma calculatePortfolioPerformance_value userId cur snapshots now (h : heap) :
  fst (calculatePortfolioPerformance userId cur snapshots now h)
  = {| resp_userId := userId;
       resp_currentValueUsd := cur;
       calculatedAt := now;
       windows := map (window_result cur (read h snapshots) now)
                      PERFORMANCE_WINDOWS |}.
Proof.
  unfold calculatePortfolioPerformance.
  destruct (map_heap_windows cur snapshots now PERFORMANCE_WINDOWS h)
    as (Hv & _).
  destruct (map_heap _ PERFORMANCE_WINDOWS h). cbn [fst] in *.
  rewrite Hv. reflexivity.
Qed.

Lemma calculatePortfolioPerformance_frame userId cur snapshots now (h : heap) a :
  (a < length h)%nat ->
  snd (calculatePortfolioPerformance userId cur snapshots now h) !! a = h !! a.
Proof.
  unfold calculatePortfolioPerformance.
  destruct (map_heap_windows cur snapshots now PERFORMANCE_WINDOWS h)
    as (_ & _ & Hf).
  destruct (map_heap _ PERFORMANCE_WINDOWS h). cbn [snd] in *. apply Hf.
Qed.

(** *** Main results *)


(** C9.  Two evaluations given the same user, current value and instant,
    and arrays with the same observations in the same order, return the
    same response, whatever else the two heaps hold; the baseline of a
    window is the first observation, in the array's order, among those of
    the latest instant not after the target. *)
Theorem calculatePortfolioPerformance_deterministic :
  forall (userId : string) (currentValueUsd : number) (now : Z)
         (h1 h2 : heap) (snapshots1 snapshots2 : loc),
    read h1 snapshots1 = read h2 snapshots2 ->
    fst (calculatePortfolioPerformance userId currentValueUsd snapshots1 now h1)
    = fst (calculatePortfolioPerformance userId currentValueUsd snapshots2 now h2)
    /\ forall targetDate,
         fst (findClosestSnapshot snapshots1 targetDate h1)
         = first_latest_eligible targetDate (read h2 snapshots2)
         /\ fst (findClosestSnapshot snapshots2 targetDate h2)
            = first_latest_eligible targetDate (read h2 snapshots2).
Proof.
  intros userId cur now h1 h2 s1 s2 Hr. split.
  - rewrite !calculatePortfolioPerformance_value, Hr. reflexivity.
  - intros targetDate. rewrite !findClosestSnapshot_value, Hr. auto.
Qed.

Lemma calculatePortfolioPerformance_deterministic_witness :
  read [tied] 0%nat = read [three_windows; tied] 1%nat
  /\ fst (calculatePortfolioPerformance "user-1" (Fin 150) 0%nat
            at_2026_02_20_12 [tied])
     = fst (calculatePortfolioPerformance "user-1" (Fin 150) 1%nat
              at_2026_02_20_12 [three_windows; tied])
  /\ fst (findClosestSnapshot 0%nat (at_2026_02_20_12 - 24 * msPerHour) [tied])
     = Some (sample "a" (at_2026_02_20_12 - 48 * msPerHour) "10.00").
Proof.
  split; [reflexivity|].
  destruct (calculatePortfolioPerformance_deterministic
              "user-1" (Fin 150) at_2026_02_20_12
              [tied] [three_windows; tied] 0%nat 1%nat eq_refl) as [H1 H2].
  split; [exact H1|].
  destruct (H2 (at_2026_02_20_12 - 24 * msPerHour)) as [-> _].
  reflexivity.
Defined.

(** C10.  The baseline search, and the evaluation of all windows, leave
    the caller's array as it was: same elements, same order.  The sort
    works on a copy. *)
Theorem findClosestSnapshot_leaves_input :
  forall (h : heap) (snapshots : loc) (arr : list SnapshotData),
    h !! snapshots = Some arr ->
    (forall targetDate,
       snd (findClosestSnapshot snapshots targetDate h) !! snapshots
       = Some arr)
    /\ (forall userId currentValueUsd now,
         snd (calculatePortfolioPerformance userId currentValueUsd
                snapshots now h) !! snapshots = Some arr).
Proof.
  intros h snapshots arr Hl.
  assert (Hlt : (snapshots < length h)%nat) by (eapply lookup_lt_Some; eauto).
  split.
  - intros targetDate. rewrite findClosestSnapshot_frame; assumption.
  - intros userId cur now.
    rewrite calculatePortfolioPerformance_frame; assumption.
Qed.

Lemma findClosestSnapshot_leaves_input_witness :
  [tied] !! 0%nat = Some tied
  /\ snd (findClosestSnapshot 0%nat at_2026_02_20_12 [tied]) !! 0%nat
     = Some tied
  /\ snd (calculatePortfolioPerformance "user-1" (Fin 150) 0%nat
            at_2026_02_20_12 [tied]) !! 0%nat = Some tied
  /\ snd (findClosestSnapshot 0%nat at_2026_02_20_12 [tied]) !! 1%nat
     = Some (sort_by_createdAt tied)
  /\ sort_by_createdAt tied <> tied.
Proof.
  split; [reflexivity|].
  destruct (findClosestSnapshot_leaves_input [tied] 0%nat tied eq_refl)
    as [H1 H2].
  split; [apply H1|]. split; [apply H2|].
  split; [reflexivity | discriminate].
Defined.

(** C4.  With a baseline selected, [absolutePnl] is the difference of the
    current and the baseline value rounded to 2 decimals;
    [percentageChange] is 0 when the baseline value is 0 and otherwise the
    quotient of the (unrounded) difference by the baseline value, times
    100, rounded to 4 decimals.  The difference, the quotient and the
    product are those of binary64 numbers, and a number rounded to [d]
    decimals is the number value of the decimal of [d] places nearest to
    it. *)
Theorem calculateWindowPerformance_metrics :
  forall (currentValue : number) (baseline : SnapshotData)
         (windowConfig : PerformanceWindowConfig),
    let baselineValue := parseFloat (totalValueUsd baseline) in
    let difference := num_sub currentValue baselineValue in
    let r := calculateWindowPerformance currentValue (Some baseline)
               windowConfig in
    hasData r = true
    /\ baselineValueUsd r = Some baselineValue
    /\ absolutePnl r = Some (round_number 2 difference)
    /\ (num_eq baselineValue (Fin 0) -> percentageChange r = Some (Fin 0))
    /\ (~ num_eq baselineValue (Fin 0) ->
        percentageChange r
        = Some (round_number 4
                  (num_mul (num_div difference baselineValue) (Fin 100)))).
Proof.
  intros cur baseline cfg bv difference r.
  subst r. unfold calculateWindowPerformance. fold bv. fold difference.
  cbn [hasData absolutePnl percentageChange baselineValueUsd].
  split; [reflexivity|]. split; [reflexivity|]. split; [|split].
  - rewrite parseFloat_toFixed. reflexivity.
  - intros Hb.
    assert (Hz : strict_neq bv (Fin 0) = false).
    { destruct bv as [b| | |]; cbn in Hb |- *; try contradiction.
      apply Qeq_bool_iff in Hb. rewrite Hb. reflexivity. }
    rewrite Hz. reflexivity.
  - intros Hb.
    assert (Hnz : strict_neq bv (Fin 0) = true).
    { destruct bv as [b| | |]; cbn in Hb |- *; try reflexivity.
      destruct (Qeq_bool b 0) eqn:E; [|reflexivity].
      apply Qeq_bool_iff in E. contradiction. }
    rewrite Hnz, parseFloat_toFixed. reflexivity.
Qed.

Lemma calculateWindowPerformance_invariant cur baselineSnapshot cfg :
  let r := calculateWindowPerformance cur baselineSnapshot cfg in
  currentValueUsd r = cur
  /\ dto_window r = window cfg
  /\ (hasData r = false ->
      baselineValueUsd r = None /\ baselineDate r = None
      /\ absolutePnl r = None /\ percentageChange r = None)
  /\ (baselineSnapshot = None -> hasData r = false).
Proof.
  destruct baselineSnapshot as [b|]; cbn.
  - repeat split; discriminate.
  - repeat split.
Qed.

(** C5.  In every response each window result carries the current value
    it was given; a result with [hasData = false] has [baselineValueUsd],
    [baselineDate], [absolutePnl] and [percentageChange] all null; there
    is one result per configured window, in the configured order; and
    when the array of observations is empty every result has
    [hasData = false]. *)
Theorem calculatePortfolioPerformance_window_invariant :
  forall (userId : string) (currentValueUsd0 : number) (snapshots : loc)
         (now : Z) (h : heap),
    let r := fst (calculatePortfolioPerformance userId currentValueUsd0
                    snapshots now h) in
    Forall (fun w =>
              currentValueUsd w = currentValueUsd0
              /\ (hasData w = false ->
                  baselineValueUsd w = None /\ baselineDate w = None
                  /\ absolutePnl w = None /\ percentageChange w = None))
           (windows r)
    /\ map dto_window (windows r) = [W24h; W7d; W30d]
    /\ (read h snapshots = [] ->
        Forall (fun w => hasData w = false) (windows r)).
Proof.
  intros userId cur snapshots now h r. subst r.
  rewrite calculatePortfolioPerformance_value. cbn [windows].
  split; [|split].
  - apply List.Forall_forall. intros w Hin. apply in_map_iff in Hin.
    destruct Hin as (cfg & <- & _). unfold window_result.
    destruct (calculateWindowPerformance_invariant cur
                (first_latest_eligible
                   (calculateBaselineDate now (hours cfg)) (read h snapshots))
                cfg) as (H1 & _ & H3 & _).
    split; assumption.
  - rewrite map_map. unfold window_result, PERFORMANCE_WINDOWS. cbn [map].
    repeat (f_equal;
            try match goal with
                | |- dto_window (calculateWindowPerformance _ ?b _) = _ =>
                    destruct b; reflexivity
                end).
  - intros ->. repeat constructor.
Qed.

(** *** The unit tests of [portfolio-performance.utils.spec.ts] *)

Example test_baseline_24h :
  calculateBaselineDate at_2026_02_20_12 24 = at_2026_02_20_12 - 86400000.
Proof. reflexivity. Qed.

Example test_empty_array :
  fst (findClosestSnapshot 0%nat at_2026_02_20_12 [[]]) = None.
Proof. reflexivity. Qed.

Example test_closest_before_target :
  let s1 := sample "1" (at_2026_02_20_12 - 26 * msPerHour) "100.00" in
  let s2 := sample "2" (at_2026_02_20_12 - 22 * msPerHour) "110.00" in
  let s3 := sample "3" (at_2026_02_20_12 - 2 * msPerHour) "120.00" in
  fst (findClosestSnapshot 0%nat (at_2026_02_20_12 - 21 * msPerHour)
         [[s1; s2; s3]]) = Some s2.
Proof. reflexivity. Qed.

Example test_not_after_target :
  let s1 := sample "1" (at_2026_02_20_12 - 26 * msPerHour) "100.00" in
  let s2 := sample "2" (at_2026_02_20_12 + 22 * msPerHour) "120.00" in
  fst (findClosestSnapshot 0%nat at_2026_02_20_12 [[s1; s2]]) = Some s1.
Proof. reflexivity. Qed.

Example test_exact_match :
  let s1 := sample "1" (at_2026_02_20_12 - 24 * msPerHour) "100.00" in
  fst (findClosestSnapshot 0%nat (at_2026_02_20_12 - 24 * msPerHour) [[s1]])
  = Some s1.
Proof. reflexivity. Qed.

Example test_positive_performance :
  calculateWindowPerformance (Fin 150)
    (Some (sample "1" 0 "100.00")) (mkConfig W24h 24)
  = mkWindowDto W24h true (Some (Fin 50)) (Some (Fin 50)) (Fin 150)
                (Some (Fin 100)) (Some 0).
Proof. reflexivity. Qed.

Example test_negative_performance :
  calculateWindowPerformance (Fin 150)
    (Some (sample "1" 0 "200.00")) (mkConfig W24h 24)
  = mkWindowDto W24h true (Some (Fin (-50))) (Some (Fin (-25))) (Fin 150)
                (Some (Fin 200)) (Some 0).
Proof. reflexivity. Qed.

Example test_zero_baseline :
  calculateWindowPerformance (Fin 100)
    (Some (sample "1" 0 "0.00")) (mkConfig W24h 24)
  = mkWindowDto W24h true (Some (Fin 100)) (Some (Fin 0)) (Fin 100)
                (Some (Fin 0)) (Some 0).
Proof. reflexivity. Qed.

(** The percentage is taken of the unrounded difference: 33.3333, where
    the rounded difference 33.33 would give 33.33. *)
Example test_rounding :
  calculateWindowPerformance (literal (133333333 # 1000000))
    (Some (sample "1" 0 "100.00")) (mkConfig W24h 24)
  = mkWindowDto W24h true (Some (literal (3333 # 100)))
                (Some (literal (333333 # 10000)))
                (literal (133333333 # 1000000))
                (Some (Fin 100)) (Some 0).
Proof. vm_compute. reflexivity. Qed.

(** The arithmetic is that of binary64: 32.01 - 32.00 is
    0.00999999999999801..., which is 0.01 to two decimals, and the
    percentage 0.03124999999999378... is 0.0312 to four. *)
Example binary64_difference :
  calculateWindowPerformance (literal (3201 # 100))
    (Some (sample "1" 0 "32.00")) (mkConfig W24h 24)
  = mkWindowDto W24h true (Some (literal (1 # 100)))
                (Some (literal (312 # 10000))) (literal (3201 # 100))
                (Some (Fin 32)) (Some 0).
Proof. vm_compute. reflexivity. Qed.

(** A difference of 0.125 is 0.13 to two decimals, the number
    0.13000000000000000444.... *)
Example binary64_tie :
  absolutePnl (calculateWindowPerformance (literal (125 # 1000))
                 (Some (sample "1" 0 "0.00")) (mkConfig W24h 24))
  = Some (literal (13 # 100))
  /\ toFixed (literal (13 # 100)) 20 = "0.13000000000000000444"%string.
Proof. split; vm_compute; reflexivity. Qed.

(** The percentage of finite values can be infinite. *)
Example binary64_overflow :
  percentageChange (calculateWindowPerformance (literal 1)
                      (Some (sample "1" 0 "1e-308")) (mkConfig W24h 24))
  = Some PosInf.
Proof. vm_compute. reflexivity. Qed.

Example test_all_windows :
  map (fun w => (hasData w, absolutePnl w, percentageChange w))
      (windows (fst (calculatePortfolioPerformance "user-1" (Fin 150) 0%nat
                       at_2026_02_20_12 [three_windows])))
  = [ (true, Some (Fin 50), Some (Fin 50));
      (true, Some (Fin 70), Some (Fin (175 # 2)));
      (true, Some (Fin 100), Some (Fin 200)) ].
Proof. reflexivity. Qed.

Example test_missing_history :
  map hasData
      (windows (fst (calculatePortfolioPerformance "user-1" (Fin 150) 0%nat
                       at_2026_02_20_12
                       [[sample "1" (at_2026_02_20_12 - 24 * msPerHour)
                                "100.00"]])))
  = [true; false; false].
Proof. reflexivity. Qed.

(** An observation of value 80 exactly seven days back and one of value
    100 one day back: the 7d window compares with 80. *)
Example seven_days_exact_match :
  let observations :=
    [ sample "early" (at_2026_02_20_12 - 168 * msPerHour) "80.00";
      sample "recent" (at_2026_02_20_12 - 24 * msPerHour) "100.00" ] in
  nth_error
    (windows (fst (calculatePortfolioPerformance "user-1" (Fin 120) 0%nat
                     at_2026_02_20_12 [observations]))) 1
  = Some (mkWindowDto W7d true (Some (Fin 40)) (Some (Fin 50)) (Fin 120)
                      (Some (Fin 80))
                      (Some (at_2026_02_20_12 - 168 * msPerHour))).
Proof. reflexivity. Qed.

End PerformanceProofs.

(** ** The snapshot recorder *)

Module PortfolioProofs.
Import Performance Portfolio.

Lemma find_user_absent userId0 (l : list string) :
  ~ In userId0 l -> List.find (String.eqb userId0) l = None.
Proof.
  intros H. destruct (List.find (String.eqb userId0) l) as [u|] eqn:E;
    [|reflexivity].
  apply find_some in E as [Hin Heq]. apply String.eqb_eq in Heq. subst u.
  contradiction.
Qed.

Lemma find_user_present userId0 (l : list string) :
  In userId0 l -> List.find (String.eqb userId0) l = Some userId0.
Proof.
  intros H. destruct (List.find (String.eqb userId0) l) as [u|] eqn:E.
  - apply find_some in E as [_ Heq]. apply String.eqb_eq in Heq.
    subst u. reflexivity.
  - pose proof (find_none _ _ E _ H) as Hn.
    rewrite String.eqb_refl in Hn. discriminate.
Qed.

Lemma map_total_spec {A : Type} (g : A -> AssetBalance)
    (f : A -> number -> AssetBalance * number) :
  (forall x t, f x t = (g x, num_add t (valueUsd (g x)))) ->
  forall l t,
    map_total f l t
    = (map g l, fold_left num_add (map valueUsd (map g l)) t).
Proof.
  intros Hf. induction l as [|x l IH]; intros t; [reflexivity|].
  cbn [map_total]. rewrite Hf, IH. reflexivity.
Qed.

Lemma map_total_valued {A : Type} (c : A -> string) (i : A -> option string)
    (a : A -> string) (l : list A) :
  map_total (fun x => value_balance (c x) (i x) (a x)) l (Fin 0)
  = (map (fun x => mkAssetBalance (c x) (i x) (a x)
                     (getAssetValueUsd (c x) (i x) (a x))) l,
     sum_values
       (map (fun x => mkAssetBalance (c x) (i x) (a x)
                        (getAssetValueUsd (c x) (i x) (a x))) l)).
Proof.
  unfold sum_values. apply map_total_spec. intros x t. reflexivity.
Qed.

(** C8.  When no user has the given id, [createSnapshot] throws
    [NotFoundException] after the user lookup alone: it asks neither the
    Horizon server nor the asset table, and the snapshot table is as it
    was.  When the user exists and [loadAccount] fails, it logs a
    warning and reads the asset table; the snapshot it saves and returns
    has one holding for each row the table has for that user, in the
    order of the table, with the code, the issuer and the amount of the
    row and the value of that amount at the price of that code, and its
    total is the sum of those values, from 0 in that order, written with
    two decimals. *)
Theorem createSnapshot_not_found_or_fallback :
  forall (userId0 : string) (w : World),
    (~ In userId0 (users w) ->
       (exists message,
          fst (createSnapshot userId0 w) = Thrown (NotFoundException message))
       /\ portfolio_snapshots (snd (createSnapshot userId0 w))
          = portfolio_snapshots w
       /\ calls (snd (createSnapshot userId0 w))
          = calls w ++ [Logged LevelLog; FindUser userId0])
    /\ (In userId0 (users w) -> horizon w userId0 = None ->
        let rows :=
          List.filter (fun a => String.eqb (pa_userId a) userId0)
                      (portfolio_assets w) in
        exists snapshot,
          fst (createSnapshot userId0 w) = Returned snapshot
          /\ userId snapshot = userId0
          /\ assetBalances snapshot
             = map (fun a =>
                      {| assetCode := pa_assetCode a;
                         assetIssuer := pa_assetIssuer a;
                         amount := pa_amount a;
                         valueUsd :=
                           getAssetValueUsd (pa_assetCode a)
                             (pa_assetIssuer a) (pa_amount a) |}) rows
          /\ totalValueUsd snapshot
             = toFixed
                 (fold_left num_add
                    (map (fun a =>
                            getAssetValueUsd (pa_assetCode a)
                              (pa_assetIssuer a) (pa_amount a)) rows)
                    (Fin 0)) 2
          /\ portfolio_snapshots (snd (createSnapshot userId0 w))
             = portfolio_snapshots w ++ [snapshot]
          /\ calls (snd (createSnapshot userId0 w))
             = calls w ++ [Logged LevelLog; FindUser userId0;
                           LoadAccount userId0; Logged LevelError;
                           Logged LevelWarn; FindAssets userId0;
                           SaveSnapshot snapshot]).
Proof.
  intros userId0 w. split.
  - intros Hno. unfold createSnapshot. cbn [record_call users].
    rewrite (find_user_absent _ _ Hno). cbn [fst snd].
    split; [eexists; reflexivity|]. split; [reflexivity|].
    cbn [record_call calls]. rewrite <- app_assoc. reflexivity.
  - intros Hin Hfail rows. unfold createSnapshot. cbn [record_call users].
    rewrite (find_user_present _ _ Hin).
    unfold getAccountBalances. cbn [record_call horizon]. rewrite Hfail.
    cbn [record_call portfolio_assets]. fold rows.
    unfold value_asset. rewrite map_total_valued.
    unfold save_snapshot. cbn [fst snd portfolio_snapshots calls].
    eexists. split; [reflexivity|]. cbn [userId assetBalances totalValueUsd].
    split; [reflexivity|]. split; [reflexivity|].
    split; [unfold sum_values; rewrite map_map; reflexivity|].
    split; [reflexivity|]. cbn [record_call calls].
    rewrite <- !app_assoc. reflexivity.
Qed.

(** *** Runs on sample data *)

Example fallback_snapshot :
  fst (createSnapshot alice offline_world)
  = Returned
      {| id := "22222222-2222-4222-8222-222222222222";
         userId := alice;
         createdAt := at_2026_02_20_12;
         assetBalances :=
           [ mkAssetBalance "XLM" None "100.00000000" (Fin 12);
             mkAssetBalance "USDC" (Some "GA5Z"%string) "2.50000000"
                            (Fin (5 # 2)) ];
         totalValueUsd := "14.50" |}.
Proof. reflexivity. Qed.

Example unknown_user :
  fst (createSnapshot "nobody" offline_world)
  = Thrown (NotFoundException "User nobody not found")
  /\ portfolio_snapshots (snd (createSnapshot "nobody" offline_world)) = []
  /\ calls (snd (createSnapshot "nobody" offline_world))
     = [Logged LevelLog; FindUser "nobody"].
Proof. repeat split. Qed.

(** 1.005 is not a binary64 value: the amount is read as the value next
    below it, and the total is written as 1.00. *)
Example fallback_total_binary64 :
  exists snapshot,
    fst (createSnapshot alice rounding_world) = Returned snapshot
    /\ map valueUsd (assetBalances snapshot)
       = [literal (1005 # 1000)]
    /\ toFixed (literal (1005 # 1000)) 20 = "1.00499999999999989342"
    /\ totalValueUsd snapshot = "1.00".
Proof. eexists. split; [reflexivity|]. vm_compute. repeat split. Qed.

(** An asset code that names a property of [Object.prototype] is valued
    NaN. *)
Example inherited_price :
  getAssetValueUsd "constructor" (Some "GA5Z"%string) "1.0000000" = NaN.
Proof. reflexivity. Qed.

End PortfolioProofs.

(** ** The performance evaluator: further properties *)

Module PerformanceMore.
Import Performance JSProofs PerformanceProofs.

(** The instant of the selected baseline is the latest eligible one. *)
Lemma first_latest_createdAt targetDate l :
  option_map createdAt (first_latest_eligible targetDate l)
  = latest_eligible targetDate l.
Proof.
  unfold first_latest_eligible.
  destruct (latest_eligible targetDate l) as [t|] eqn:E; [|reflexivity].
  destruct (latest_eligible_witness _ _ _ E) as (s & Hin & Hs).
  destruct (List.find _ l) as [s0|] eqn:F.
  - apply find_some in F as [_ Ht]. apply Z.eqb_eq in Ht. cbn. congruence.
  - exfalso. pose proof (find_none _ _ F s Hin) as Hn. cbn in Hn.
    rewrite Hs, Z.eqb_refl in Hn. discriminate.
Qed.

Lemma latest_eligible_perm targetDate l1 l2 :
  Permutation l1 l2 ->
  latest_eligible targetDate l1 = latest_eligible targetDate l2.
Proof.
  induction 1 as [|x l1 l2 _ IH|x y l|l1 l2 l3 _ IH1 _ IH2].
  - reflexivity.
  - rewrite !latest_eligible_cons, IH. reflexivity.
  - rewrite !latest_eligible_cons.
    destruct (eligible targetDate x), (eligible targetDate y);
      try reflexivity.
    destruct (latest_eligible targetDate l); f_equal; lia.
  - congruence.
Qed.

Lemma createdAt_injective (l : list SnapshotData) x y :
  List.NoDup (map createdAt l) ->
  In x l -> In y l -> createdAt x = createdAt y -> x = y.
Proof.
  induction l as [|z l IH]; intros Hnd Hx Hy Heq; [destruct Hx|].
  cbn in Hnd. inversion Hnd as [|? ? Hnotin Hrest]; subst.
  destruct Hx as [->|Hx], Hy as [->|Hy].
  - reflexivity.
  - exfalso. apply Hnotin. rewrite Heq. apply in_map. exact Hy.
  - exfalso. apply Hnotin. rewrite <- Heq. apply in_map. exact Hx.
  - apply IH; assumption.
Qed.

Lemma first_latest_In targetDate l s :
  first_latest_eligible targetDate l = Some s -> In s l.
Proof.
  unfold first_latest_eligible.
  destruct (latest_eligible targetDate l); [|discriminate].
  intros H. apply find_some in H. tauto.
Qed.

(** X1.  The order of the observations does not matter to the instant of
    the baseline: two arrays holding the same observations, in any order,
    give every window the same [hasData] and the same [baselineDate]; and
    when no two observations share an instant, the same baseline
    observation altogether. *)
Theorem findClosestSnapshot_any_order :
  forall (h1 h2 : heap) (snapshots1 snapshots2 : loc),
    Permutation (read h1 snapshots1) (read h2 snapshots2) ->
    (forall targetDate,
       option_map createdAt (fst (findClosestSnapshot snapshots1 targetDate h1))
       = option_map createdAt
           (fst (findClosestSnapshot snapshots2 targetDate h2)))
    /\ (forall userId currentValueUsd now,
          map (fun w => (hasData w, baselineDate w))
              (windows (fst (calculatePortfolioPerformance userId
                               currentValueUsd snapshots1 now h1)))
          = map (fun w => (hasData w, baselineDate w))
                (windows (fst (calculatePortfolioPerformance userId
                                 currentValueUsd snapshots2 now h2))))
    /\ (List.NoDup (map createdAt (read h1 snapshots1)) ->
        forall targetDate,
          fst (findClosestSnapshot snapshots1 targetDate h1)
          = fst (findClosestSnapshot snapshots2 targetDate h2)).
Proof.
  intros h1 h2 s1 s2 Hp.
  assert (Hc : forall t,
             option_map createdAt (first_latest_eligible t (read h1 s1))
             = option_map createdAt (first_latest_eligible t (read h2 s2))).
  { intros t. rewrite !first_latest_createdAt.
    apply latest_eligible_perm, Hp. }
  split; [|split].
  - intros t. rewrite !findClosestSnapshot_value. apply Hc.
  - intros userId cur now. rewrite !calculatePortfolioPerformance_value.
    cbn [windows]. rewrite !map_map. apply map_ext. intros cfg.
    unfold window_result.
    specialize (Hc (calculateBaselineDate now (hours cfg))).
    destruct (first_latest_eligible _ (read h1 s1)),
             (first_latest_eligible _ (read h2 s2));
      cbn in Hc |- *; congruence.
  - intros Hnd t. rewrite !findClosestSnapshot_value.
    specialize (Hc t).
    destruct (first_latest_eligible t (read h1 s1)) as [x|] eqn:E1,
             (first_latest_eligible t (read h2 s2)) as [y|] eqn:E2;
      cbn in Hc; try discriminate; [|reflexivity].
    f_equal. apply (createdAt_injective (read h1 s1)).
    + exact Hnd.
    + eapply first_latest_In; eassumption.
    + apply (Permutation_in _ (Permutation_sym Hp)).
      eapply first_latest_In; eassumption.
    + congruence.
Qed.

Lemma findClosestSnapshot_any_order_witness :
  Permutation (read [three_windows] 0%nat) (read [rev three_windows] 0%nat)
  /\ fst (findClosestSnapshot 0%nat (at_2026_02_20_12 - 168 * msPerHour)
            [three_windows])
     = fst (findClosestSnapshot 0%nat (at_2026_02_20_12 - 168 * msPerHour)
              [rev three_windows]).
Proof.
  assert (Hp : Permutation (read [three_windows] 0%nat)
                           (read [rev three_windows] 0%nat))
    by apply Permutation_rev.
  split; [exact Hp|].
  destruct (findClosestSnapshot_any_order [three_windows]
              [rev three_windows] 0%nat 0%nat Hp) as (_ & _ & H).
  apply H. vm_compute. repeat constructor; cbn; intuition discriminate.
Defined.

(** A later target has a baseline whenever an earlier one has, and a
    baseline that is not older. *)
Lemma first_latest_monotone t1 t2 l s1 :
  t1 <= t2 ->
  first_latest_eligible t1 l = Some s1 ->
  exists s2, first_latest_eligible t2 l = Some s2
             /\ createdAt s1 <= createdAt s2.
Proof.
  intros Ht H1.
  pose proof (first_latest_createdAt t1 l) as C1. rewrite H1 in C1. cbn in C1.
  symmetry in C1.
  pose proof (latest_eligible_le _ _ _ C1) as Hle.
  pose proof (first_latest_In _ _ _ H1) as Hin.
  pose proof (first_latest_createdAt t2 l) as C2.
  destruct (latest_eligible t2 l) as [t|] eqn:E2.
  - destruct (first_latest_eligible t2 l) as [s2|]; [|discriminate].
    exists s2. split; [reflexivity|]. cbn in C2. injection C2 as ->.
    apply (latest_eligible_upper _ _ _ _ E2 Hin). lia.
  - pose proof (latest_eligible_none _ _ _ E2 Hin). lia.
Qed.

(** X2.  The windows are nested: when the 30d window has a baseline so
    has the 7d window, and when the 7d window has one so has the 24h
    window; and the baseline of a shorter window is never older than that
    of a longer one. *)
Theorem windows_nested :
  forall (userId : string) (currentValueUsd0 : number) (snapshots : loc)
         (now : Z) (h : heap),
  exists w24 w7 w30,
    windows (fst (calculatePortfolioPerformance userId currentValueUsd0
                    snapshots now h)) = [w24; w7; w30]
    /\ (hasData w30 = true -> hasData w7 = true)
    /\ (hasData w7 = true -> hasData w24 = true)
    /\ (forall d30 d7, baselineDate w30 = Some d30 ->
          baselineDate w7 = Some d7 -> d30 <= d7)
    /\ (forall d7 d24, baselineDate w7 = Some d7 ->
          baselineDate w24 = Some d24 -> d7 <= d24).
Proof.
  intros userId cur snapshots now h.
  rewrite calculatePortfolioPerformance_value. cbn [windows].
  unfold PERFORMANCE_WINDOWS. cbn [map]. do 3 eexists.
  split; [reflexivity|]. unfold window_result. cbn [hours].
  set (l := read h snapshots).
  assert (H1 : calculateBaselineDate now (24 * 30)
               <= calculateBaselineDate now (24 * 7))
    by (unfold calculateBaselineDate, msPerHour; lia).
  assert (H2 : calculateBaselineDate now (24 * 7)
               <= calculateBaselineDate now 24)
    by (unfold calculateBaselineDate, msPerHour; lia).
  pose proof (fun t1 t2 => first_latest_monotone t1 t2 l) as M.
  destruct (first_latest_eligible (calculateBaselineDate now (24 * 30)) l)
    as [s30|] eqn:E30;
    destruct (first_latest_eligible (calculateBaselineDate now (24 * 7)) l)
      as [s7|] eqn:E7;
    destruct (first_latest_eligible (calculateBaselineDate now 24) l)
      as [s24|] eqn:E24;
    cbn [calculateWindowPerformance hasData baselineDate];
    repeat split; try discriminate; try reflexivity;
    try (intros ? ? [= <-] [= <-]).
  all: try (destruct (M _ _ _ H1 E30) as (x & Hx & Hle);
            rewrite E7 in Hx; first [discriminate Hx
                                    | injection Hx as <-; exact Hle]).
  all: try (destruct (M _ _ _ H2 E7) as (x & Hx & Hle);
            rewrite E24 in Hx; first [discriminate Hx
                                     | injection Hx as <-; exact Hle]).
Qed.

(** What rounding to [d] decimals yields is a whole number of units of
    the last decimal. *)
Lemma round_decimals_units d q :
  exists n : Z,
    (round_decimals d q == inject_Z n / inject_Z (10 ^ Z.of_nat d))%Q.
Proof.
  unfold round_decimals.
  set (n := Qfloor (Qabs q * inject_Z (10 ^ Z.of_nat d) + (1 # 2))).
  destruct (Qle_bool 0 q).
  - exists n. ring.
  - exists (- n). rewrite inject_Z_opp.
    assert (~ (inject_Z (10 ^ Z.of_nat d) == 0)%Q).
    { intros E. apply (inject_Z_injective (10 ^ Z.of_nat d) 0) in E.
      assert (0 < 10 ^ Z.of_nat d) by (apply Z.pow_pos_nonneg; lia). lia. }
    field. assumption.
Qed.

(** X3.  When the binary64 difference [d] of the current and the baseline
    value is finite, [absolutePnl] is the number value of a whole number of
    hundredths that is within 0.005 of [d], and so within the tolerance of
    two decimals of [d]; and when the baseline value is not 0 and the
    binary64 percentage [p] is finite, [percentageChange] is the number
    value of a whole number of ten-thousandths within 0.00005 of [p]. *)
Theorem calculateWindowPerformance_accuracy :
  forall (currentValue : number) (d : Q) (baseline : SnapshotData)
         (windowConfig : PerformanceWindowConfig),
    let baselineValue := parseFloat (totalValueUsd baseline) in
    let r := calculateWindowPerformance currentValue (Some baseline)
               windowConfig in
    num_sub currentValue baselineValue = Fin d ->
    (exists hundredths : Z,
       absolutePnl r = Some (round64 (inject_Z hundredths / 100))
       /\ (Qabs (inject_Z hundredths / 100 - d) <= 1 # 200)%Q)
    /\ (forall pnl, absolutePnl r = Some (Fin pnl) ->
          (Qabs (pnl - d) <= tolerance 2 (Qabs d))%Q)
    /\ (forall p,
          ~ num_eq baselineValue (Fin 0) ->
          num_mul (num_div (Fin d) baselineValue) (Fin 100) = Fin p ->
          (exists parts : Z,
             percentageChange r = Some (round64 (inject_Z parts / 10000))
             /\ (Qabs (inject_Z parts / 10000 - p) <= 1 # 20000)%Q)
          /\ (forall pct, percentageChange r = Some (Fin pct) ->
                (Qabs (pct - p) <= tolerance 4 (Qabs p))%Q)).
Proof.
  intros cur d baseline cfg bv r Hd. subst r.
  unfold calculateWindowPerformance. fold bv. rewrite Hd.
  cbn [absolutePnl percentageChange]. rewrite !parseFloat_toFixed.
  cbn [round_number]. split; [|split].
  - destruct (round_decimals_units 2 d) as [n Hn]. exists n.
    change (inject_Z (10 ^ Z.of_nat 2)) with 100%Q in Hn. split.
    + f_equal. apply round64_ext, Hn.
    + rewrite <- Hn. apply (round_decimals_close 2 d).
  - intros pnl [= Hpnl]. apply round_decimals_tolerance, Hpnl.
  - intros p Hb Hp.
    assert (Hnz : strict_neq bv (Fin 0) = true).
    { destruct bv as [b| | |]; cbn in Hb |- *; try reflexivity.
      destruct (Qeq_bool b 0) eqn:E; [|reflexivity].
      apply Qeq_bool_iff in E. contradiction. }
    rewrite Hnz, Hp. cbn [round_number]. split.
    + destruct (round_decimals_units 4 p) as [n Hn]. exists n.
      change (inject_Z (10 ^ Z.of_nat 4)) with 10000%Q in Hn. split.
      * f_equal. apply round64_ext, Hn.
      * rewrite <- Hn. apply (round_decimals_close 4 p).
    + intros pct [= Hpct]. apply round_decimals_tolerance, Hpct.
Qed.

Lemma calculateWindowPerformance_accuracy_witness :
  num_sub (literal (125 # 1000)) (parseFloat (totalValueUsd (sample "1" 0 "0.00")))
  = Fin (1 # 8)
  /\ exists hundredths : Z,
      absolutePnl (calculateWindowPerformance (literal (125 # 1000))
                     (Some (sample "1" 0 "0.00")) (mkConfig W24h 24))
      = Some (round64 (inject_Z hundredths / 100))
      /\ (Qabs (inject_Z hundredths / 100 - (1 # 8)) <= 1 # 200)%Q.
Proof.
  assert (H : num_sub (literal (125 # 1000))
                (parseFloat (totalValueUsd (sample "1" 0 "0.00")))
              = Fin (1 # 8)) by (vm_compute; reflexivity).
  split; [exact H|].
  exact (proj1 (calculateWindowPerformance_accuracy
                  (literal (125 # 1000)) (1 # 8)
                  (sample "1" 0 "0.00") (mkConfig W24h 24) H)).
Defined.

End PerformanceMore.

(** ** The daily aggregation: further properties *)

Module SnapshotMore.
Import Snapshot SnapshotProofs.

(** *** The shape of an aggregation *)

Lemma filter_symbol_is k (l : list SentimentSignal) :
  List.filter (symbol_is k)
    (List.filter (fun r => match asset_symbol r with
                           | Some _ => true
                           | None => false
                           end) l)
  = List.filter (symbol_is k) l.
Proof.
  induction l as [|r l IH]; [reflexivity|].
  cbn [List.filter]. unfold symbol_is at 2.
  destruct (asset_symbol r) as [s|] eqn:E.
  - cbn [List.filter]. unfold symbol_is at 1. rewrite E.
    destruct (String.eqb s k); rewrite IH; reflexivity.
  - exact IH.
Qed.

Lemma aggregateForDate_shape utcDate db :
  fst (aggregateForDate utcDate db)
  = map (fun k => parseRow
                    (select_list (quotient_scale db) (Some k)
                       (records_of_symbol (sentiment_signals db)
                          (toDateString utcDate) k)))
        (symbols_of_day (sentiment_signals db) (toDateString utcDate))
    ++ [parseRow (select_list (quotient_scale db) None
                    (records_of_day (sentiment_signals db)
                       (toDateString utcDate)))].
Proof.
  unfold aggregateForDate, aggregation_query, symbols_of_day,
    records_of_symbol, records_of_day.
  cbn [fst]. rewrite map_app, map_map. cbn [map]. f_equal.
  apply map_ext. intros k. rewrite filter_symbol_is. reflexivity.
Qed.

Lemma distinct_In k l : In k (distinct l) <-> In k l.
Proof.
  induction l as [|x l IH]; [reflexivity|].
  cbn [distinct]. split.
  - intros [->|H]; [left; reflexivity|].
    apply filter_In in H as [H _]. right. apply IH, H.
  - intros [->|H]; [left; reflexivity|].
    destruct (String.eqb_spec k x) as [->|Hne]; [left; reflexivity|].
    right. apply filter_In. split; [apply IH, H|].
    apply negb_true_iff. apply String.eqb_neq. exact Hne.
Qed.

Lemma symbols_of_day_In table dateStr k :
  In k (symbols_of_day table dateStr)
  <-> exists r, In r table /\ signal_date r = dateStr
                /\ asset_symbol r = Some k.
Proof.
  unfold symbols_of_day, records_of_day. rewrite distinct_In.
  rewrite <- list_elem_of_In, list_elem_of_omap. split.
  - intros (r & Hin & Hk). apply list_elem_of_In in Hin.
    apply filter_In in Hin as [Hin _]. apply filter_In in Hin as [Hin Hd].
    apply Z.eqb_eq in Hd. exists r. auto.
  - intros (r & Hin & Hd & Hk). exists r. split; [|exact Hk].
    apply list_elem_of_In. apply filter_In. split.
    + apply filter_In. split; [exact Hin|]. apply Z.eqb_eq, Hd.
    + rewrite Hk. reflexivity.
Qed.

Lemma symbols_of_day_NoDup table dateStr :
  List.NoDup (symbols_of_day table dateStr).
Proof. apply distinct_NoDup. Qed.

Lemma filter_all {A} (f : A -> bool) (l : list A) :
  (forall x, In x l -> f x = true) -> List.filter f l = l.
Proof.
  induction l as [|x l IH]; intros H; [reflexivity|].
  cbn. rewrite (H x (or_introl eq_refl)). f_equal. apply IH.
  intros y Hy. apply H. right. exact Hy.
Qed.

Lemma NoDup_map_Some {A} (l : list A) :
  List.NoDup l -> List.NoDup (map Some l).
Proof.
  induction 1 as [|x l Hnotin _ IH]; cbn; constructor; [|exact IH].
  intros Hin. apply in_map_iff in Hin. destruct Hin as (y & [= ->] & Hin).
  contradiction.
Qed.

(** X4.  An aggregation is the rows of the symbols followed by one global
    row: the global row alone has a null symbol, no two rows share a
    symbol, and a symbol has a row exactly when some record of the day
    names it. *)
Theorem aggregateForDate_partition :
  forall (utcDate : Z) (db : DB),
  exists rows g,
    fst (aggregateForDate utcDate db) = rows ++ [g]
    /\ assetSymbol g = None
    /\ Forall (fun a => assetSymbol a <> None) rows
    /\ List.NoDup (map assetSymbol rows)
    /\ (forall k,
          In (Some k) (map assetSymbol rows)
          <-> exists r, In r (sentiment_signals db)
                        /\ signal_date r = toDateString utcDate
                        /\ asset_symbol r = Some k).
Proof.
  intros utcDate db. rewrite aggregateForDate_shape.
  eexists. eexists. split; [reflexivity|]. split; [reflexivity|].
  rewrite map_map. cbn [parseRow select_list assetSymbol row_asset_symbol].
  split; [|split].
  - apply List.Forall_forall. intros a Hin. apply in_map_iff in Hin.
    destruct Hin as (k & <- & _). discriminate.
  - apply NoDup_map_Some, symbols_of_day_NoDup.
  - intros k. rewrite <- symbols_of_day_In. split.
    + intros Hin. apply in_map_iff in Hin.
      destruct Hin as (k' & [= ->] & Hin). exact Hin.
    + intros Hin. apply in_map_iff. exists k. auto.
Qed.

(** X5.  For every table and date, [generateForDate] executes one
    aggregation read and then one upsert, of one entity per symbol of the
    day and one more; [assetRowsWritten] is the number of distinct symbols
    the records of the day name, and the global row is reported
    written. *)
Theorem generateForDate_counts :
  forall (date0 : Z) (db : DB),
  exists symbols entities,
    List.NoDup symbols
    /\ (forall k,
          In k symbols
          <-> exists r, In r (sentiment_signals db)
                        /\ signal_date r = toDateString (toUtcMidnight date0)
                        /\ asset_symbol r = Some k)
    /\ assetRowsWritten (fst (generateForDate date0 db))
       = Z.of_nat (length symbols)
    /\ globalRowWritten (fst (generateForDate date0 db)) = true
    /\ length entities = S (length symbols)
    /\ executed (snd (generateForDate date0 db))
       = executed db
         ++ [QAggregate (toDateString (toUtcMidnight date0));
             QUpsert entities].
Proof.
  intros date0 db.
  exists (symbols_of_day (sentiment_signals db)
            (toDateString (toUtcMidnight date0))).
  pose proof (aggregateForDate_shape (toUtcMidnight date0) db) as Hshape.
  set (ks := symbols_of_day _ _) in *.
  unfold generateForDate.
  destruct (aggregateForDate (toUtcMidnight date0) db) as [aggs db1] eqn:E.
  cbn [fst] in Hshape.
  assert (Hdb1 : executed db1
                 = executed db
                   ++ [QAggregate (toDateString (toUtcMidnight date0))]
                 /\ sentiment_signals db1 = sentiment_signals db).
  { unfold aggregateForDate in E. injection E as _ <-. split; reflexivity. }
  destruct Hdb1 as [Hex _].
  assert (Hlen : length aggs = S (length ks)).
  { rewrite Hshape, length_app, length_map. cbn. lia. }
  destruct (length aggs =? 0)%nat eqn:E0.
  { apply Nat.eqb_eq in E0. lia. }
  unfold upsertSnapshots. rewrite E0. cbn [fst snd].
  exists (map (entity_of (toUtcMidnight date0)) aggs).
  cbn [assetRowsWritten globalRowWritten executed].
  split; [apply symbols_of_day_NoDup|].
  split; [intros k; apply symbols_of_day_In|].
  split; [|split; [|split]].
  - f_equal. rewrite Hshape, List.filter_app. cbn [List.filter is_global
      parseRow assetSymbol select_list row_asset_symbol negb].
    rewrite app_nil_r, filter_all; [apply length_map|].
    intros a Hin. apply in_map_iff in Hin.
    destruct Hin as (k & <- & _). reflexivity.
  - rewrite Hshape.
    assert (Hf : forall rows g,
               Forall (fun a => is_global a = false) rows ->
               is_global g = true ->
               List.find is_global (rows ++ [g]) = Some g).
    { intros rows g Hr Hg. induction Hr as [|a rows Ha _ IH]; cbn.
      - rewrite Hg. reflexivity.
      - rewrite Ha. exact IH. }
    rewrite Hf; [reflexivity| |reflexivity].
    apply List.Forall_forall. intros a Hin. apply in_map_iff in Hin.
    destruct Hin as (k & <- & _). reflexivity.
  - rewrite length_map. exact Hlen.
  - rewrite Hex, <- app_assoc. reflexivity.
Qed.

(** *** The statistics of a group *)

Lemma Qmin_le a b : (Qmin a b <= a)%Q /\ (Qmin a b <= b)%Q.
Proof.
  unfold Qmin. destruct (Qle_bool a b) eqn:E.
  - apply Qle_bool_iff in E. split; [apply Qle_refl | exact E].
  - assert (b <= a)%Q.
    { apply Qnot_lt_le. intros H. apply Qlt_le_weak in H.
      apply Qle_bool_iff in H. congruence. }
    split; [assumption | apply Qle_refl].
Qed.

Lemma Qmax_ge a b : (a <= Qmax a b)%Q /\ (b <= Qmax a b)%Q.
Proof.
  unfold Qmax. destruct (Qle_bool a b) eqn:E.
  - apply Qle_bool_iff in E. split; [exact E | apply Qle_refl].
  - assert (b <= a)%Q.
    { apply Qnot_lt_le. intros H. apply Qlt_le_weak in H.
      apply Qle_bool_iff in H. congruence. }
    split; [apply Qle_refl | assumption].
Qed.

Lemma fold_Qmin_le vs : forall v,
  (fold_left Qmin vs v <= v)%Q
  /\ forall x, In x vs -> (fold_left Qmin vs v <= x)%Q.
Proof.
  induction vs as [|y vs IH]; intros v; cbn [fold_left].
  - split; [apply Qle_refl | intros x []].
  - destruct (IH (Qmin v y)) as [H1 H2]. destruct (Qmin_le v y) as [Hv Hy].
    split; [eapply Qle_trans; eassumption|].
    intros x [<-|Hx]; [eapply Qle_trans; eassumption | apply H2, Hx].
Qed.

Lemma fold_Qmax_ge vs : forall v,
  (v <= fold_left Qmax vs v)%Q
  /\ forall x, In x vs -> (x <= fold_left Qmax vs v)%Q.
Proof.
  induction vs as [|y vs IH]; intros v; cbn [fold_left].
  - split; [apply Qle_refl | intros x []].
  - destruct (IH (Qmax v y)) as [H1 H2]. destruct (Qmax_ge v y) as [Hv Hy].
    split; [eapply Qle_trans; eassumption|].
    intros x [<-|Hx]; [eapply Qle_trans; eassumption | apply H2, Hx].
Qed.

Lemma fold_Qmin_In vs : forall v, In (fold_left Qmin vs v) (v :: vs).
Proof.
  induction vs as [|y vs IH]; intros v; cbn [fold_left]; [left; reflexivity|].
  destruct (IH (Qmin v y)) as [H|H]; [|right; right; exact H].
  rewrite <- H. unfold Qmin. destruct (Qle_bool v y);
    [left | right; left]; reflexivity.
Qed.

Lemma fold_Qmax_In vs : forall v, In (fold_left Qmax vs v) (v :: vs).
Proof.
  induction vs as [|y vs IH]; intros v; cbn [fold_left]; [left; reflexivity|].
  destruct (IH (Qmax v y)) as [H|H]; [|right; right; exact H].
  rewrite <- H. unfold Qmax. destruct (Qle_bool v y);
    [right; left | left]; reflexivity.
Qed.

Lemma Qsum_lower m l :
  (forall x, In x l -> (m <= x)%Q) ->
  (inject_Z (Z.of_nat (length l)) * m <= Qsum l)%Q.
Proof.
  induction l as [|x l IH]; intros H.
  - change (0 * m <= 0)%Q. lra.
  - change (Qsum (x :: l)) with (x + Qsum l)%Q. cbn [length].
    rewrite Nat2Z.inj_succ. unfold Z.succ. rewrite inject_Z_plus.
    change (inject_Z 1) with 1%Q.
    pose proof (H x (or_introl eq_refl)).
    assert (inject_Z (Z.of_nat (length l)) * m <= Qsum l)%Q.
    { apply IH. intros y Hy. apply H. right. exact Hy. }
    lra.
Qed.

Lemma Qsum_upper m l :
  (forall x, In x l -> (x <= m)%Q) ->
  (Qsum l <= inject_Z (Z.of_nat (length l)) * m)%Q.
Proof.
  induction l as [|x l IH]; intros H.
  - change (0 * m <= 0)%Q. lra.
  - change (Qsum (x :: l)) with (x + Qsum l)%Q. cbn [length].
    rewrite Nat2Z.inj_succ. unfold Z.succ. rewrite inject_Z_plus.
    change (inject_Z 1) with 1%Q.
    pose proof (H x (or_introl eq_refl)).
    assert (Qsum l <= inject_Z (Z.of_nat (length l)) * m)%Q.
    { apply IH. intros y Hy. apply H. right. exact Hy. }
    lra.
Qed.

Lemma non_null_scores group :
  non_null (map (fun r => Some (sentiment_score r)) group)
  = map sentiment_score group.
Proof. induction group as [|r g IH]; cbn; [|rewrite IH]; reflexivity. Qed.

(** The statistics of a group that is not empty. *)
Lemma select_list_bounds scale symbol r0 group :
  let a := parseRow (select_list scale symbol (r0 :: group)) in
  let scores := map sentiment_score (r0 :: group) in
  let n := inject_Z (Z.of_nat (length (r0 :: group))) in
  exists mn mx,
    In mn scores /\ In mx scores
    /\ (forall x, In x scores -> (mn <= x)%Q /\ (x <= mx)%Q)
    /\ (mn <= Qsum scores / n)%Q /\ (Qsum scores / n <= mx)%Q
    /\ minSentiment a = Some (round64 mn)
    /\ maxSentiment a = Some (round64 mx)
    /\ avgSentiment a = round64 (numeric_div scale (Qsum scores) n).
Proof.
  intros a scores n. subst a. unfold parseRow, select_list.
  cbn [minSentiment avgSentiment maxSentiment min_sentiment avg_sentiment
       max_sentiment].
  unfold sql_min, sql_max, sql_avg. rewrite non_null_scores.
  assert (En : n = inject_Z (Z.of_nat (length scores))).
  { unfold n, scores. rewrite length_map. reflexivity. }
  fold scores. rewrite En. clear En n.
  assert (Escores : scores = sentiment_score r0 :: map sentiment_score group)
    by reflexivity.
  set (v := sentiment_score r0) in *. set (vs := map sentiment_score group) in *.
  clearbody scores v vs. subst scores.
  cbn [nullableFloat parseFloat_cell].
  set (n := inject_Z (Z.of_nat (length (v :: vs)))).
  destruct (fold_Qmin_le vs v) as [Hmin0 Hmin].
  destruct (fold_Qmax_ge vs v) as [Hmax0 Hmax].
  pose proof (fold_Qmin_In vs v) as Imn.
  pose proof (fold_Qmax_In vs v) as Imx.
  set (mn := fold_left Qmin vs v) in *. set (mx := fold_left Qmax vs v) in *.
  assert (Hall : forall x, In x (v :: vs) -> (mn <= x)%Q /\ (x <= mx)%Q).
  { intros x [<-|Hx]; [split; assumption|].
    split; [apply Hmin | apply Hmax]; exact Hx. }
  assert (Hn : (0 < n)%Q).
  { unfold n. change 0%Q with (inject_Z 0). rewrite <- Zlt_Qlt.
    cbn [length]. lia. }
  assert (Hlo : (n * mn <= Qsum (v :: vs))%Q).
  { apply Qsum_lower. intros x Hx. apply Hall, Hx. }
  assert (Hhi : (Qsum (v :: vs) <= n * mx)%Q).
  { apply Qsum_upper. intros x Hx. apply Hall, Hx. }
  exists mn, mx. split; [exact Imn|].
  split; [exact Imx|]. split; [exact Hall|].
  split; [apply Qle_shift_div_l; [exact Hn | lra]|].
  split; [apply Qle_shift_div_r; [exact Hn | lra]|].
  repeat split; reflexivity.
Qed.

Lemma records_of_symbol_nonempty table dateStr k :
  In k (symbols_of_day table dateStr) ->
  records_of_symbol table dateStr k <> [].
Proof.
  intros Hin. apply symbols_of_day_In in Hin.
  destruct Hin as (r & Hin & Hd & Hk).
  assert (In r (records_of_symbol table dateStr k)).
  { unfold records_of_symbol, records_of_day. apply filter_In. split.
    - apply filter_In. split; [exact Hin|]. apply Z.eqb_eq, Hd.
    - unfold symbol_is. rewrite Hk. apply String.eqb_refl. }
  intros E. rewrite E in H. destruct H.
Qed.

Lemma select_list_summary scale symbol group :
  let a := parseRow (select_list scale symbol group) in
  let scores := map sentiment_score group in
  let n := inject_Z (Z.of_nat (length group)) in
  assetSymbol a = symbol
  /\ signalCount a = Z.of_nat (length group)
  /\ (group = [] ->
      avgSentiment a = NaN /\ minSentiment a = None
      /\ maxSentiment a = None)
  /\ (group <> [] ->
      exists mn mx,
        In mn scores /\ In mx scores
        /\ (forall x, In x scores -> (mn <= x)%Q /\ (x <= mx)%Q)
        /\ (mn <= Qsum scores / n)%Q /\ (Qsum scores / n <= mx)%Q
        /\ minSentiment a = Some (round64 mn)
        /\ maxSentiment a = Some (round64 mx)
        /\ avgSentiment a = round64 (numeric_div scale (Qsum scores) n)).
Proof.
  intros a scores n. split; [reflexivity|]. split; [reflexivity|]. split.
  - intros E. subst a. rewrite E. repeat split.
  - intros Hne. destruct group as [|r0 group]; [contradiction|].
    apply select_list_bounds.
Qed.

(** X6.  Every row of an aggregation summarises the records of the day
    that name its symbol, all the records of the day for the global row:
    [signalCount] is their number, at least 1 for the row of a symbol;
    when there is one, [minSentiment] and [maxSentiment] are read from the
    least and the greatest of their scores, and [avgSentiment] from the
    mean of the scores, which lies between the two, as the database
    rounds it; when there is none, the minimum and the maximum are null
    and the average is NaN. *)
Theorem aggregateForDate_statistics :
  forall (utcDate : Z) (db : DB) (a : AssetAggregation),
    In a (fst (aggregateForDate utcDate db)) -> summarises db utcDate a.
Proof.
  intros utcDate db a Hin. rewrite aggregateForDate_shape in Hin.
  unfold summarises.
  apply in_app_or in Hin. destruct Hin as [Hin|[<-|[]]].
  - apply in_map_iff in Hin. destruct Hin as (k & <- & Hk).
    set (group := records_of_symbol (sentiment_signals db)
                    (toDateString utcDate) k).
    destruct (select_list_summary (quotient_scale db) (Some k) group)
      as (Hs & Hc & He & Hb).
    rewrite Hs. cbn [group_of]. fold group.
    pose proof (records_of_symbol_nonempty _ _ _ Hk) as Hne. fold group in Hne.
    split; [exact Hc|]. split; [|split; [exact He | exact Hb]].
    intros _.
    cut (1 <= Z.of_nat (length group));
      [intros Hl; exact (eq_ind_r (fun z => 1 <= z) Hl Hc)|].
    clear Hc He Hb Hs. destruct group; [contradiction|]. cbn [length]. lia.
  - set (group := records_of_day (sentiment_signals db)
                    (toDateString utcDate)).
    destruct (select_list_summary (quotient_scale db) None group)
      as (Hs & Hc & He & Hb).
    rewrite Hs. cbn [group_of]. fold group.
    split; [exact Hc|]. split; [|split; [exact He | exact Hb]].
    intros Hn. exfalso. apply Hn. reflexivity.
Qed.

Lemma aggregateForDate_statistics_witness :
  In {| assetSymbol := Some "BTC"%string;
        avgSentiment := literal (7 # 10);
        minSentiment := Some (literal (5 # 10));
        maxSentiment := Some (literal (9 # 10));
        signalCount := 3;
        totalVolume := Some (literal 60);
        volumeWeightedSentiment :=
          Some (literal (7666666666666667 # 10000000000000000)) |}
     (fst (aggregateForDate day_2024_06_15 (db_of scenario_1)))
  /\ summarises (db_of scenario_1) day_2024_06_15
       {| assetSymbol := Some "BTC"%string;
          avgSentiment := literal (7 # 10);
          minSentiment := Some (literal (5 # 10));
          maxSentiment := Some (literal (9 # 10));
          signalCount := 3;
          totalVolume := Some (literal 60);
          volumeWeightedSentiment :=
            Some (literal (7666666666666667 # 10000000000000000)) |}.
Proof.
  assert (H : In {| assetSymbol := Some "BTC"%string;
                    avgSentiment := literal (7 # 10);
                    minSentiment := Some (literal (5 # 10));
                    maxSentiment := Some (literal (9 # 10));
                    signalCount := 3;
                    totalVolume := Some (literal 60);
                    volumeWeightedSentiment :=
                      Some (literal (7666666666666667 # 10000000000000000)) |}
                 (fst (aggregateForDate day_2024_06_15 (db_of scenario_1))))
    by (left; vm_compute; reflexivity).
  split; [exact H|].
  exact (aggregateForDate_statistics _ _ _ H).
Defined.

(** *** The counts of a day add up *)

Lemma list_sum_cons (x : nat) (l : list nat) :
  list_sum (x :: l) = (x + list_sum l)%nat.
Proof. reflexivity. Qed.

Lemma group_sizes_cons r l ks :
  list_sum (map (fun k => length (List.filter (symbol_is k) (r :: l))) ks)
  = (list_sum (map (fun k => if symbol_is k r then 1%nat else 0%nat) ks)
     + list_sum (map (fun k => length (List.filter (symbol_is k) l)) ks))%nat.
Proof.
  induction ks as [|k ks IH]; [reflexivity|].
  cbn [map]. rewrite !list_sum_cons, IH. cbn [List.filter].
  destruct (symbol_is k r); cbn [length]; lia.
Qed.

Lemma one_group_of_symbol r s ks :
  asset_symbol r = Some s -> List.NoDup ks -> In s ks ->
  list_sum (map (fun k => if symbol_is k r then 1%nat else 0%nat) ks) = 1%nat.
Proof.
  intros Hs Hnd. induction Hnd as [|k ks Hk Hnd IH]; intros Hin; [destruct Hin|].
  cbn [map]. rewrite list_sum_cons. unfold symbol_is at 1. rewrite Hs.
  destruct (String.eqb s k) eqn:E.
  - apply String.eqb_eq in E. subst k.
    assert (Z0 : forall ks', ~ In s ks' ->
               list_sum (map (fun k => if symbol_is k r then 1%nat else 0%nat) ks')
               = 0%nat).
    { induction ks' as [|k' ks' IH']; intros Hn; [reflexivity|].
      cbn [map]. rewrite list_sum_cons. unfold symbol_is at 1. rewrite Hs.
      destruct (String.eqb s k') eqn:E'.
      - apply String.eqb_eq in E'. exfalso. apply Hn. left. congruence.
      - rewrite IH'; [reflexivity|]. intros H. apply Hn. right. exact H. }
    rewrite (Z0 ks Hk). reflexivity.
  - apply String.eqb_neq in E. destruct Hin as [->|Hin]; [congruence|].
    rewrite (IH Hin). reflexivity.
Qed.

Lemma no_group_without_symbol r ks :
  asset_symbol r = None ->
  list_sum (map (fun k => if symbol_is k r then 1%nat else 0%nat) ks) = 0%nat.
Proof.
  intros Hs. induction ks as [|k ks IH]; [reflexivity|].
  cbn [map]. rewrite list_sum_cons. unfold symbol_is at 1. rewrite Hs, IH. reflexivity.
Qed.

Lemma group_sizes ks l :
  List.NoDup ks ->
  (forall r k, In r l -> asset_symbol r = Some k -> In k ks) ->
  (list_sum (map (fun k => length (List.filter (symbol_is k) l)) ks)
   + length (List.filter without_symbol l))%nat
  = length l.
Proof.
  intros Hnd. induction l as [|r l IH]; intros Hall.
  - cbn [List.filter length].
    assert (list_sum (map (fun _ : string => 0%nat) ks) = 0%nat) as ->
      by (clear; induction ks; cbn; auto).
    reflexivity.
  - rewrite group_sizes_cons. cbn [List.filter length].
    assert (IH' := IH (fun r' k Hr => Hall r' k (or_intror Hr))).
    unfold without_symbol at 1. destruct (asset_symbol r) as [s|] eqn:Hs.
    + rewrite (one_group_of_symbol r s ks Hs Hnd
                 (Hall r s (or_introl eq_refl) Hs)). lia.
    + rewrite (no_group_without_symbol r ks Hs). cbn [length]. lia.
Qed.

(** X7.  The counts of an aggregation add up: the global row counts every
    record of the day, and that count is the sum of the counts of the rows
    of the symbols plus the number of records of the day that name no
    symbol; no record is counted for two symbols. *)
Theorem aggregateForDate_counts_add_up :
  forall (utcDate : Z) (db : DB),
    exists rows g,
      fst (aggregateForDate utcDate db) = rows ++ [g]
      /\ signalCount g
         = Z.of_nat (length (records_of_day (sentiment_signals db)
                               (toDateString utcDate)))
      /\ signalCount g
         = fold_right Z.add 0 (map signalCount rows)
           + Z.of_nat
               (length (List.filter without_symbol
                          (records_of_day (sentiment_signals db)
                             (toDateString utcDate)))).
Proof.
  intros utcDate db. rewrite aggregateForDate_shape.
  set (day := records_of_day (sentiment_signals db) (toDateString utcDate)).
  set (ks := symbols_of_day (sentiment_signals db) (toDateString utcDate)).
  eexists _, _. split; [reflexivity|]. split; [reflexivity|].
  cbn [signalCount parseRow select_list signal_count].
  rewrite map_map. cbn [signalCount parseRow select_list signal_count].
  assert (Hsum : forall ks',
            fold_right Z.add 0
              (map (fun k => Z.of_nat
                               (length (records_of_symbol
                                          (sentiment_signals db)
                                          (toDateString utcDate) k))) ks')
            = Z.of_nat
                (list_sum
                   (map (fun k => length (List.filter (symbol_is k) day))
                      ks'))).
  { induction ks' as [|k ks' IH]; [reflexivity|].
    cbn [map fold_right]. rewrite list_sum_cons, IH, Nat2Z.inj_add.
    reflexivity. }
  rewrite Hsum, <- Nat2Z.inj_add. f_equal. symmetry. apply group_sizes.
  - apply symbols_of_day_NoDup.
  - intros r k Hr Hk. apply symbols_of_day_In. exists r.
    unfold day, records_of_day in Hr. apply filter_In in Hr as [Hr Hd].
    apply Z.eqb_eq in Hd. auto.
Qed.

(** *** What a run leaves alone *)

Lemma upsert_row_rows_where f e table :
  f (date_of_row e) = false ->
  rows_where f (upsert_row e table) = rows_where f table.
Proof.
  intros He. unfold rows_where.
  induction table as [|r table IH]; cbn [upsert_row List.filter].
  - rewrite He. reflexivity.
  - destruct (conflicts e r) eqn:Hc; cbn [List.filter].
    + unfold conflicts in Hc. apply andb_true_iff in Hc as [Hd _].
      apply Z.eqb_eq in Hd. unfold date_of_row in *. cbn [snapshotDate].
      rewrite <- Hd, He. reflexivity.
    + rewrite IH. reflexivity.
Qed.

Lemma upsert_all_rows_where f entities : forall table,
  Forall (fun e => f (date_of_row e) = false) entities ->
  rows_where f (upsert_all entities table) = rows_where f table.
Proof.
  induction entities as [|e entities IH]; intros table H; [reflexivity|].
  inversion H; subst. cbn [upsert_all fold_left].
  change (rows_where f (upsert_all entities (upsert_row e table))
          = rows_where f table).
  rewrite IH by assumption. apply upsert_row_rows_where. assumption.
Qed.

Lemma upsert_row_keys e table :
  exists added,
    map row_key (upsert_row e table) = map row_key table ++ added
    /\ Forall (fun k => k = row_key e) added.
Proof.
  induction table as [|r table IH]; cbn [upsert_row map].
  - exists [row_key e]. split; [reflexivity|]. repeat constructor.
  - destruct (conflicts e r) eqn:Hc; cbn [map].
    + exists []. rewrite app_nil_r. split; [reflexivity | constructor].
    + destruct IH as (added & -> & Ha). exists added. split; [reflexivity|].
      exact Ha.
Qed.

Lemma upsert_all_keys entities : forall table,
  exists added,
    map row_key (upsert_all entities table) = map row_key table ++ added
    /\ Forall (fun k => In k (map row_key entities)) added.
Proof.
  induction entities as [|e entities IH]; intros table.
  - exists []. rewrite app_nil_r. split; [reflexivity | constructor].
  - cbn [upsert_all fold_left].
    change (exists added,
              map row_key (upsert_all entities (upsert_row e table))
              = map row_key table ++ added
              /\ Forall (fun k => In k (map row_key (e :: entities))) added).
    destruct (IH (upsert_row e table)) as (added2 & -> & H2).
    destruct (upsert_row_keys e table) as (added1 & -> & H1).
    exists (added1 ++ added2). rewrite <- app_assoc. split; [reflexivity|].
    apply Forall_app. split.
    + eapply List.Forall_impl; [|exact H1]. intros k ->. left. reflexivity.
    + eapply List.Forall_impl; [|exact H2]. intros k Hk. right. exact Hk.
Qed.

Lemma toDateString_midnight d : toDateString (toUtcMidnight d) = toDateString d.
Proof.
  unfold toDateString, toUtcMidnight, msPerDay.
  pose proof (Z.div_mod d 86400000 ltac:(lia)) as E.
  replace (d - d mod 86400000) with (d / 86400000 * 86400000) by lia.
  apply Z.div_mul. lia.
Qed.

Lemma midnight_of_day d : toUtcMidnight d = toDateString d * msPerDay.
Proof.
  unfold toUtcMidnight, toDateString, msPerDay.
  pose proof (Z.div_mod d 86400000 ltac:(lia)). lia.
Qed.

Lemma stored_day_shift db d :
  stored_day db (toUtcMidnight d)
  = toDateString d + local_offset db / msPerDay.
Proof.
  unfold stored_day, local_date.
  assert (E : forall x, toDateString (x * msPerDay) = x).
  { intros x. unfold toDateString. apply Z.div_mul. unfold msPerDay. lia. }
  rewrite E, midnight_of_day. apply Z.div_add_l. unfold msPerDay. lia.
Qed.

Lemma run_rows_of_day date0 db :
  Forall (fun e => date_of_row e = stored_day db (toUtcMidnight date0))
         (run_rows date0 db).
Proof.
  apply List.Forall_forall. intros e He. unfold run_rows in He.
  apply in_map_iff in He. destruct He as (e0 & <- & He).
  apply in_map_iff in He. destruct He as (a & <- & _). reflexivity.
Qed.

Lemma generateForDate_rows_where f date0 db :
  f (stored_day db (toUtcMidnight date0)) = false ->
  rows_where f (daily_snapshots (snd (generateForDate date0 db)))
  = rows_where f (daily_snapshots db).
Proof.
  intros Hf. rewrite generateForDate_snapshots. apply upsert_all_rows_where.
  eapply List.Forall_impl; [|apply run_rows_of_day]. cbn beta.
  intros e ->. exact Hf.
Qed.

(** X8.  A run for one day writes under one day and leaves the rest
    alone.  The day it writes under is the calendar day, in the local time
    of the process, of the UTC midnight of the run: the day of the run
    when the local time is UTC or up to a day ahead of it, the day before
    when it is behind.  The rows of every other day are the same rows in
    the same order afterwards; no row is removed or moved and none changes
    its date or symbol (the keys stored before are a prefix of the keys
    stored after, the added ones being of the day written under); the
    table of raw records is not written. *)
Theorem generateForDate_frame :
  forall (date0 : Z) (db : DB),
    let db' := snd (generateForDate date0 db) in
    let day := stored_day db (toUtcMidnight date0) in
    day = toDateString date0 + local_offset db / msPerDay
    /\ (0 <= local_offset db < msPerDay -> day = toDateString date0)
    /\ (- msPerDay <= local_offset db < 0 -> day = toDateString date0 - 1)
    /\ rows_where (fun d => negb (d =? day)) (daily_snapshots db')
       = rows_where (fun d => negb (d =? day)) (daily_snapshots db)
    /\ (exists added,
          map row_key (daily_snapshots db')
          = map row_key (daily_snapshots db) ++ added
          /\ Forall (fun k => fst k = day) added)
    /\ sentiment_signals db' = sentiment_signals db.
Proof.
  intros date0 db db' day. subst db'.
  assert (Hday : day = toDateString date0 + local_offset db / msPerDay)
    by apply stored_day_shift.
  split; [exact Hday|]. split; [|split; [|split; [|split]]].
  - intros H. rewrite Hday, Z.div_small by exact H. lia.
  - intros H. rewrite Hday.
    replace (local_offset db / msPerDay) with (-1); [lia|].
    apply (Z.div_unique _ _ _ (local_offset db + msPerDay));
      unfold msPerDay in *; lia.
  - apply generateForDate_rows_where. fold day. rewrite Z.eqb_refl.
    reflexivity.
  - rewrite generateForDate_snapshots.
    destruct (upsert_all_keys (run_rows date0 db) (daily_snapshots db))
      as (added & -> & Ha).
    exists added. split; [reflexivity|].
    eapply List.Forall_impl; [|exact Ha]. cbn beta. intros k Hk.
    apply in_map_iff in Hk. destruct Hk as (e & <- & He).
    pose proof (run_rows_of_day date0 db) as Hd.
    rewrite List.Forall_forall in Hd. cbn [row_key fst].
    exact (Hd e He).
  - apply generateForDate_signals.
Qed.

(** *** The unique index *)

Lemma keyed_ids_upsert_row e table x :
  In x (keyed_ids (upsert_row e table)) ->
  In x (keyed_ids table)
  \/ exists s, ds_assetSymbol e = Some s /\ x = (date_of_row e, s).
Proof.
  induction table as [|r table IH]; cbn [upsert_row].
  - cbn [keyed_ids]. destruct (ds_assetSymbol e) as [s|] eqn:Hs; [|intros []].
    intros [<-|[]]. right. exists s. split; reflexivity.
  - destruct (conflicts e r) eqn:Hc.
    + cbn [keyed_ids ds_assetSymbol snapshotDate]. intros H. left. exact H.
    + cbn [keyed_ids]. destruct (ds_assetSymbol r) as [sr|].
      * intros [<-|H]; [left; left; reflexivity|].
        destruct (IH H) as [H'|H']; [left; right; exact H' | right; exact H'].
      * exact IH.
Qed.

Lemma unique_keys_upsert_row e table :
  unique_keys table -> unique_keys (upsert_row e table).
Proof.
  unfold unique_keys. induction table as [|r table IH]; cbn [upsert_row].
  - intros _. cbn [keyed_ids]. destruct (ds_assetSymbol e);
      repeat constructor. intros [].
  - destruct (conflicts e r) eqn:Hc.
    + cbn [keyed_ids ds_assetSymbol snapshotDate]. intros H. exact H.
    + cbn [keyed_ids]. destruct (ds_assetSymbol r) as [sr|] eqn:Hr; [|exact IH].
      intros H. inversion H as [|? ? Hn Hnd]; subst. constructor.
      * intros Hin. apply keyed_ids_upsert_row in Hin.
        destruct Hin as [Hin|(s & Hs & Heq)]; [contradiction|].
        injection Heq as Hd <-. unfold conflicts in Hc.
        rewrite Hs, Hr, String.eqb_refl, andb_true_r in Hc.
        apply Z.eqb_neq in Hc. apply Hc. symmetry. exact Hd.
      * apply IH, Hnd.
Qed.

Lemma unique_keys_upsert_all entities : forall table,
  unique_keys table -> unique_keys (upsert_all entities table).
Proof.
  induction entities as [|e entities IH]; intros table H; [exact H|].
  cbn [upsert_all fold_left]. apply IH, unique_keys_upsert_row, H.
Qed.

Lemma unique_keys_generateForDate date0 db :
  unique_keys (daily_snapshots db) ->
  unique_keys (daily_snapshots (snd (generateForDate date0 db))).
Proof.
  intros H. rewrite generateForDate_snapshots.
  apply unique_keys_upsert_all, H.
Qed.

Lemma run_each_cons d dates db :
  run_each (d :: dates) db
  = (fst (generateForDate d db)
       :: fst (run_each dates (snd (generateForDate d db))),
     snd (run_each dates (snd (generateForDate d db)))).
Proof.
  cbn [run_each]. destruct (generateForDate d db) as [r db1]. cbn [fst snd].
  destruct (run_each dates db1). reflexivity.
Qed.

Lemma unique_keys_run_each dates : forall db,
  unique_keys (daily_snapshots db) ->
  unique_keys (daily_snapshots (snd (run_each dates db))).
Proof.
  induction dates as [|d dates IH]; intros db H; [exact H|].
  rewrite run_each_cons. cbn [snd]. apply IH, unique_keys_generateForDate, H.
Qed.

Lemma backfill_run_each from to db :
  backfill from to db
  = run_each (day_range (toUtcMidnight from)
                (day_count (toUtcMidnight from) (toUtcMidnight to))) db.
Proof.
  unfold backfill. rewrite backfill_loop_run_each. cbn [app].
  destruct (run_each _ db). reflexivity.
Qed.

(** X9.  The unique index on (date, symbol) is kept: when the stored rows
    have at most one row for each date and symbol, they still have after a
    run for any date, after a run for yesterday and after a backfill of any
    range. *)
Theorem unique_keys_kept :
  forall (db : DB),
    unique_keys (daily_snapshots db) ->
    (forall date0,
       unique_keys (daily_snapshots (snd (generateForDate date0 db))))
    /\ (forall now,
         unique_keys (daily_snapshots (snd (generateForYesterday now db))))
    /\ (forall from to,
         unique_keys (daily_snapshots (snd (backfill from to db)))).
Proof.
  intros db H. split; [|split].
  - intros date0. apply unique_keys_generateForDate, H.
  - intros now. apply unique_keys_generateForDate, H.
  - intros from to. rewrite backfill_run_each.
    apply unique_keys_run_each, H.
Qed.

Lemma unique_keys_kept_witness :
  let db := snd (generateForDate day_2024_06_15 (db_of two_days)) in
  unique_keys (daily_snapshots db)
  /\ length (daily_snapshots db) = 2%nat
  /\ unique_keys
       (daily_snapshots
          (snd (backfill day_2024_06_15 (day_2024_06_15 + msPerDay) db))).
Proof.
  intros db.
  assert (H : unique_keys (daily_snapshots db)).
  { unfold unique_keys. vm_compute. repeat constructor. intros []. }
  split; [exact H|]. split; [reflexivity|].
  apply (unique_keys_kept db H).
Defined.

(** *** Reading back what a run wrote *)

Lemma keyed_ids_In r table s :
  In r table -> ds_assetSymbol r = Some s ->
  In (date_of_row r, s) (keyed_ids table).
Proof.
  intros Hin Hs. induction table as [|r0 table IH]; [destruct Hin|].
  cbn [keyed_ids]. destruct Hin as [->|Hin].
  - rewrite Hs. left. reflexivity.
  - destruct (ds_assetSymbol r0); [right|]; apply IH, Hin.
Qed.

Lemma unique_filter (p : DailySnapshot -> bool) d k table :
  (forall r, p r = true <-> ds_assetSymbol r = Some k /\ date_of_row r = d) ->
  unique_keys table ->
  forall r, In r table -> p r = true -> List.filter p table = [r].
Proof.
  intros Hp. unfold unique_keys.
  induction table as [|r0 table IH]; intros Hnd r Hin Hr; [destruct Hin|].
  cbn [List.filter]. destruct (p r0) eqn:H0.
  - apply Hp in H0 as [Hs0 Hd0]. cbn [keyed_ids] in Hnd. rewrite Hs0 in Hnd.
    inversion Hnd as [|? ? Hn _]; subst.
    assert (Hnone : forall r', In r' table -> p r' = false).
    { intros r' Hr'. destruct (p r') eqn:E; [|reflexivity].
      apply Hp in E as [Hs Hd]. exfalso. apply Hn.
      unfold date_of_row in Hd. rewrite <- Hd.
      apply (keyed_ids_In r' table k Hr' Hs). }
    rewrite (filter_none p table Hnone).
    destruct Hin as [->|Hin]; [reflexivity|].
    rewrite (Hnone r Hin) in Hr. discriminate.
  - destruct Hin as [->|Hin]; [congruence|].
    apply IH; [|exact Hin|exact Hr].
    cbn [keyed_ids] in Hnd. destruct (ds_assetSymbol r0); [|exact Hnd].
    inversion Hnd; assumption.
Qed.

Lemma settled_row e table :
  keyed e -> settled e table ->
  exists r, In r table /\ conflicts e r = true /\ statistics r = statistics e.
Proof.
  intros Hk. unfold settled. induction table as [|r table IH]; cbn [upsert_row].
  - intros H. discriminate H.
  - destruct (conflicts e r) eqn:Hc.
    + intros H. injection H as H. exists r. split; [left; reflexivity|].
      split; [exact Hc|]. rewrite <- H. reflexivity.
    + intros H. injection H as H. destruct (IH H) as (r' & Hin & Hc' & Hs).
      exists r'. split; [right; exact Hin|]. split; assumption.
Qed.

Lemma filter_through {A} (p q : A -> bool) (l : list A) :
  (forall x, p x = true -> q x = true) ->
  List.filter p l = List.filter p (List.filter q l).
Proof.
  intros H. induction l as [|x l IH]; [reflexivity|].
  cbn [List.filter]. destruct (p x) eqn:Hp.
  - rewrite (H x Hp). cbn [List.filter]. rewrite Hp, IH. reflexivity.
  - destruct (q x); cbn [List.filter]; [rewrite Hp|]; exact IH.
Qed.

(** X10.  A run can be read back when the local time of the process is
    UTC or up to a day ahead of it: when the stored rows have at most one
    row for each date and symbol, then after [generateForDate] for a day,
    the lookup of a symbol that some record of the day names, over the
    range of that one day, returns exactly one row; it has that symbol and
    that day, and its statistics are those of the aggregation of the
    records of the day that name the symbol, as the columns hold them
    (six decimals, four for the volume).  When the local time is behind
    UTC, or more than a day ahead, the run has written under another day
    and the lookup returns what it returned before the run. *)
Theorem findByAssetAndDateRange_after_run :
  forall (date0 : Z) (db : DB) (k : string),
    unique_keys (daily_snapshots db) ->
    In k (symbols_of_day (sentiment_signals db) (toDateString date0)) ->
    let db' := snd (generateForDate date0 db) in
    (0 <= local_offset db < msPerDay ->
     exists row,
       findByAssetAndDateRange k date0 date0 db' = [row]
       /\ ds_assetSymbol row = Some k
       /\ date_of_row row = toDateString date0
       /\ statistics row
          = statistics
              (column_values (local_offset db)
                 (entity_of (toUtcMidnight date0)
                    (parseRow
                       (select_list (quotient_scale db) (Some k)
                          (records_of_symbol (sentiment_signals db)
                             (toDateString date0) k))))))
    /\ (local_offset db < 0 \/ msPerDay <= local_offset db ->
        findByAssetAndDateRange k date0 date0 db'
        = findByAssetAndDateRange k date0 date0 db).
Proof.
  intros date0 db k Huniq Hk db'. subst db'. split.
  - intros Hoff.
    assert (Hday : stored_day db (toUtcMidnight date0) = toDateString date0).
    { rewrite stored_day_shift, Z.div_small by exact Hoff. lia. }
    pose proof (unique_keys_generateForDate date0 db Huniq) as Huniq'.
    revert Huniq'. rewrite generateForDate_snapshots.
    unfold findByAssetAndDateRange. rewrite generateForDate_snapshots.
    unfold run_rows. rewrite aggregateForDate_shape, toDateString_midnight.
    set (utcDate := toUtcMidnight date0) in *.
    set (day := toDateString date0) in *.
    set (off := local_offset db) in *.
    set (row_of := fun k => parseRow
                     (select_list (quotient_scale db) (Some k)
                        (records_of_symbol (sentiment_signals db) day k))).
    set (g := parseRow (select_list (quotient_scale db) None
                          (records_of_day (sentiment_signals db) day))).
    set (symbols := symbols_of_day (sentiment_signals db) day) in *.
    rewrite !map_app. cbn [map]. unfold upsert_all. rewrite fold_left_app.
    cbn [fold_left].
    set (ks := map (column_values off)
                 (map (entity_of utcDate) (map row_of symbols))).
    fold (upsert_all ks (daily_snapshots db)).
    rewrite (upsert_row_global (column_values off (entity_of utcDate g)))
      by reflexivity.
    set (table1 := upsert_all ks (daily_snapshots db)).
    intros Huniq'.
    set (e := column_values off (entity_of utcDate (row_of k))).
    assert (Hks : Forall keyed ks).
    { apply List.Forall_forall. intros x Hx. unfold ks in Hx.
      rewrite !map_map in Hx. apply in_map_iff in Hx.
      destruct Hx as (k' & <- & _). unfold keyed. cbn. discriminate. }
    assert (Hnd : List.NoDup (map ds_assetSymbol ks)).
    { unfold ks. rewrite !map_map. cbn [ds_assetSymbol column_values entity_of
        assetSymbol row_of parseRow select_list row_asset_symbol].
      change (List.NoDup (map Some symbols)).
      apply NoDup_map_Some, symbols_of_day_NoDup. }
    assert (He : In e ks).
    { unfold ks, e. rewrite !map_map. apply in_map_iff. exists k. split;
        [reflexivity | exact Hk]. }
    pose proof (upsert_all_settles ks (daily_snapshots db) Hks Hnd) as Hs.
    rewrite List.Forall_forall in Hs. specialize (Hs e He). fold table1 in Hs.
    assert (Hke : keyed e) by (unfold keyed; cbn; discriminate).
    destruct (settled_row e table1 Hke Hs) as (r & Hin & Hc & Hst).
    assert (Hkey : ds_assetSymbol r = Some k /\ date_of_row r = day).
    { unfold conflicts in Hc. apply andb_true_iff in Hc as [Hd Hsym].
      apply Z.eqb_eq in Hd. cbn [e column_values entity_of ds_assetSymbol
        snapshotDate assetSymbol row_of parseRow select_list row_asset_symbol]
        in Hd, Hsym.
      destruct (ds_assetSymbol r) as [b|]; [|discriminate].
      apply String.eqb_eq in Hsym. subst b. split; [reflexivity|].
      unfold date_of_row. rewrite <- Hd. exact Hday. }
    set (p := fun r => same_asset k r && in_date_range date0 date0 r).
    assert (Hp : forall r', p r' = true
                            <-> ds_assetSymbol r' = Some k
                                /\ date_of_row r' = day).
    { intros r'. unfold p, same_asset, in_date_range, date_of_row.
      fold day. rewrite !andb_true_iff, !Z.leb_le. split.
      - intros [Hsym Hd]. destruct (ds_assetSymbol r') as [b|]; [|discriminate].
        apply String.eqb_eq in Hsym. subst b. split; [reflexivity | lia].
      - intros [-> Hd]. rewrite String.eqb_refl. split; [reflexivity | lia]. }
    assert (Hr : p r = true) by (apply Hp, Hkey).
    rewrite (unique_filter p day k
               (table1 ++ [column_values off (entity_of utcDate g)]) Hp Huniq' r
               ltac:(apply in_or_app; left; exact Hin) Hr).
    exists r. split; [reflexivity|]. destruct Hkey as [H1 H2].
    split; [exact H1|]. split; [exact H2|]. exact Hst.
  - intros Hoff. unfold findByAssetAndDateRange. f_equal.
    set (p := fun r => same_asset k r && in_date_range date0 date0 r).
    set (q := fun r => date_of_row r =? toDateString date0).
    assert (Hpq : forall r, p r = true -> q r = true).
    { intros r Hr. unfold p in Hr. apply andb_true_iff in Hr as [_ Hr].
      unfold in_date_range in Hr. apply andb_true_iff in Hr as [H1 H2].
      apply Z.leb_le in H1, H2. unfold q, date_of_row. apply Z.eqb_eq. lia. }
    rewrite (filter_through p q _ Hpq).
    rewrite (filter_through p q (daily_snapshots db) Hpq). f_equal.
    apply (generateForDate_rows_where (fun d => d =? toDateString date0)).
    apply Z.eqb_neq. rewrite stored_day_shift.
    assert (local_offset db / msPerDay <> 0); [|lia].
    intros E. apply Z.div_small_iff in E; unfold msPerDay in *; lia.
Qed.

Lemma findByAssetAndDateRange_after_run_witness :
  let db := snd (generateForDate (day_2024_06_15 + msPerDay)
                   (db_of two_days)) in
  unique_keys (daily_snapshots db)
  /\ In "BTC"%string
        (symbols_of_day (sentiment_signals db) (toDateString day_2024_06_15))
  /\ length (daily_snapshots db) = 2%nat
  /\ exists row,
      findByAssetAndDateRange "BTC" day_2024_06_15 day_2024_06_15
        (snd (generateForDate day_2024_06_15 db))
      = [row]
      /\ statistics row
         = (Fin (7 # 10), Some (Fin (1 # 2)), Some (Fin (9 # 10)), 3,
            Some (Fin 60), Some (Fin (766667 # 1000000))).
Proof.
  intros db.
  assert (H1 : unique_keys (daily_snapshots db)).
  { unfold unique_keys. vm_compute. repeat constructor. intros []. }
  assert (H2 : In "BTC"%string
                 (symbols_of_day (sentiment_signals db)
                    (toDateString day_2024_06_15)))
    by (left; reflexivity).
  split; [exact H1|]. split; [exact H2|]. split; [reflexivity|].
  destruct (findByAssetAndDateRange_after_run day_2024_06_15 db "BTC" H1 H2)
    as [Hread _].
  destruct (Hread ltac:(vm_compute; split; [discriminate | reflexivity]))
    as (row & Hrow & _ & _ & Hst).
  exists row. split; [exact Hrow|]. rewrite Hst. vm_compute. reflexivity.
Defined.

(** *** The range lookup *)

Lemma insert_by_date_perm r l : Permutation (insert_by_date r l) (r :: l).
Proof.
  induction l as [|y l IH]; cbn [insert_by_date]; [reflexivity|].
  destruct (_ <=? _); [reflexivity|].
  rewrite IH. apply perm_swap.
Qed.

Lemma order_by_date_perm l : Permutation (order_by_date l) l.
Proof.
  induction l as [|r l IH]; cbn [order_by_date]; [reflexivity|].
  rewrite insert_by_date_perm. constructor. exact IH.
Qed.

Lemma insert_by_date_sorted r l :
  StronglySorted by_date l -> StronglySorted by_date (insert_by_date r l).
Proof.
  induction 1 as [|y l Hs IH Hy]; cbn [insert_by_date].
  - repeat constructor.
  - destruct (Z.leb_spec (toDateString (snapshotDate r))
                         (toDateString (snapshotDate y))) as [Hle|Hgt].
    + constructor; [constructor; assumption|].
      constructor; [exact Hle|].
      eapply List.Forall_impl; [|exact Hy]. intros z Hz.
      unfold by_date, date_of_row in *. lia.
    + constructor; [exact IH|].
      eapply Permutation_Forall;
        [symmetry; apply insert_by_date_perm|].
      constructor; [|exact Hy]. unfold by_date, date_of_row. lia.
Qed.

Lemma order_by_date_sorted l : StronglySorted by_date (order_by_date l).
Proof.
  induction l as [|r l IH]; cbn [order_by_date]; [constructor|].
  apply insert_by_date_sorted, IH.
Qed.

(** X11.  [findByAssetAndDateRange] returns the stored rows of the asset
    whose date lies between the days of [from] and [to], both included,
    each as often as it is stored and nothing else, in ascending order of
    date; it never returns a global row, and returns nothing when the day
    of [to] is before the day of [from]. *)
Theorem findByAssetAndDateRange_selects :
  forall (assetSymbol0 : string) (from to : Z) (db : DB),
    let found := findByAssetAndDateRange assetSymbol0 from to db in
    Permutation found
      (List.filter (fun r => same_asset assetSymbol0 r
                             && in_date_range from to r)
                   (daily_snapshots db))
    /\ StronglySorted by_date found
    /\ (forall r,
          In r found
          <-> In r (daily_snapshots db)
              /\ ds_assetSymbol r = Some assetSymbol0
              /\ toDateString from <= date_of_row r <= toDateString to)
    /\ (toDateString to < toDateString from -> found = []).
Proof.
  intros k from to db found. subst found. unfold findByAssetAndDateRange.
  set (p := fun r => same_asset k r && in_date_range from to r).
  assert (Hp : forall r, p r = true
                         <-> ds_assetSymbol r = Some k
                             /\ toDateString from <= date_of_row r
                                <= toDateString to).
  { intros r. unfold p, same_asset, in_date_range, date_of_row.
    rewrite !andb_true_iff, !Z.leb_le. split.
    - intros [Hs Hd]. destruct (ds_assetSymbol r) as [b|]; [|discriminate].
      apply String.eqb_eq in Hs. subst b. split; [reflexivity | exact Hd].
    - intros [-> Hd]. rewrite String.eqb_refl. split; [reflexivity | exact Hd]. }
  split; [apply order_by_date_perm|].
  split; [apply order_by_date_sorted|].
  split.
  - intros r. split.
    + intros Hin.
      apply (Permutation_in _ (order_by_date_perm _)) in Hin.
      apply filter_In in Hin as [Hin Hr]. apply Hp in Hr. tauto.
    + intros (Hin & Hs & Hd).
      apply (Permutation_in _ (Permutation_sym (order_by_date_perm _))).
      apply filter_In. split; [exact Hin|]. apply Hp. tauto.
  - intros Hlt. rewrite (filter_none p); [reflexivity|].
    intros r _. destruct (p r) eqn:E; [|reflexivity].
    apply Hp in E. lia.
Qed.

Lemma keyed_ids_filter_In q table x :
  In x (keyed_ids (List.filter q table)) -> In x (keyed_ids table).
Proof.
  induction table as [|r table IH]; [intros []|].
  cbn [List.filter]. destruct (q r); cbn [keyed_ids];
    destruct (ds_assetSymbol r); try exact IH.
  - intros [<-|H]; [left; reflexivity | right; apply IH, H].
  - intros H. right. apply IH, H.
Qed.

Lemma unique_keys_filter q table :
  unique_keys table -> unique_keys (List.filter q table).
Proof.
  unfold unique_keys. induction table as [|r table IH]; [intros H; exact H|].
  cbn [List.filter keyed_ids]. intros H.
  assert (Htl : List.NoDup (keyed_ids table))
    by (destruct (ds_assetSymbol r); [inversion H|]; assumption).
  destruct (q r); [|apply IH, Htl]. cbn [keyed_ids].
  destruct (ds_assetSymbol r); [|apply IH, Htl].
  inversion H as [|? ? Hn _]; subst. constructor; [|apply IH, Htl].
  intros Hin. apply Hn. eapply keyed_ids_filter_In, Hin.
Qed.

Lemma keyed_ids_of_symbol k l :
  (forall r, In r l -> ds_assetSymbol r = Some k) ->
  keyed_ids l = map (fun d => (d, k)) (map date_of_row l).
Proof.
  induction l as [|r l IH]; intros H; [reflexivity|].
  cbn [keyed_ids map]. rewrite (H r (or_introl eq_refl)).
  rewrite IH; [reflexivity|]. intros r' Hr'. apply H. right. exact Hr'.
Qed.

Lemma strictly_sorted l :
  StronglySorted by_date l -> List.NoDup (map date_of_row l) ->
  StronglySorted before_date l.
Proof.
  induction 1 as [|a l Hs IH Ha]; intros Hnd; [constructor|].
  cbn [map] in Hnd. inversion Hnd as [|? ? Hn Hnd']; subst.
  constructor; [apply IH, Hnd'|].
  rewrite List.Forall_forall in Ha |- *. intros b Hb.
  specialize (Ha b Hb). unfold by_date, before_date in *.
  assert (date_of_row a <> date_of_row b).
  { intros E. apply Hn. rewrite E. apply in_map, Hb. }
  lia.
Qed.

(** X12.  When the stored rows have at most one row for each date and
    symbol, [findByAssetAndDateRange] returns at most one row for a day:
    the dates of the rows it returns are strictly ascending. *)
Theorem findByAssetAndDateRange_one_row_a_day :
  forall (assetSymbol0 : string) (from to : Z) (db : DB),
    unique_keys (daily_snapshots db) ->
    StronglySorted before_date
      (findByAssetAndDateRange assetSymbol0 from to db).
Proof.
  intros k from to db Huniq. apply strictly_sorted.
  - unfold findByAssetAndDateRange. apply order_by_date_sorted.
  - unfold findByAssetAndDateRange.
    set (p := fun r => same_asset k r && in_date_range from to r).
    eapply Permutation_NoDup;
      [apply Permutation_map, Permutation_sym, order_by_date_perm|].
    apply (List.NoDup_map_inv (fun d => (d, k))).
    rewrite <- keyed_ids_of_symbol.
    + apply unique_keys_filter, Huniq.
    + intros r Hr. apply filter_In in Hr as [_ Hr]. unfold p in Hr.
      apply andb_true_iff in Hr as [Hr _]. unfold same_asset in Hr.
      destruct (ds_assetSymbol r) as [b|]; [|discriminate].
      apply String.eqb_eq in Hr. congruence.
Qed.

Lemma findByAssetAndDateRange_one_row_a_day_witness :
  let db := snd (generateForDate (day_2024_06_15 + msPerDay)
                   (snd (generateForDate day_2024_06_15
                           (db_of two_days)))) in
  unique_keys (daily_snapshots db)
  /\ map date_of_row
       (findByAssetAndDateRange "BTC" day_2024_06_15
          (day_2024_06_15 + msPerDay) db)
     = [toDateString day_2024_06_15; toDateString day_2024_06_15 + 1]
  /\ StronglySorted before_date
       (findByAssetAndDateRange "BTC" day_2024_06_15
          (day_2024_06_15 + msPerDay) db).
Proof.
  intros db.
  assert (H : unique_keys (daily_snapshots db)).
  { unfold unique_keys. vm_compute. repeat constructor.
    - intros [E|[]]. discriminate E.
    - intros []. }
  split; [exact H|]. split; [vm_compute; reflexivity|].
  apply (findByAssetAndDateRange_one_row_a_day
           "BTC" day_2024_06_15 (day_2024_06_15 + msPerDay) db H).
Defined.

(** *** Days *)

Lemma toUtcMidnight_idem d : toUtcMidnight (toUtcMidnight d) = toUtcMidnight d.
Proof. apply toUtcMidnight_fixed, toUtcMidnight_mod. Qed.

Lemma toDateString_next d : toDateString (d + msPerDay) = toDateString d + 1.
Proof.
  unfold toDateString, msPerDay.
  replace (d + 86400000) with (d + 1 * 86400000) by lia.
  apply Z.div_add. lia.
Qed.

Lemma toDateString_previous d : toDateString (d - msPerDay) = toDateString d - 1.
Proof.
  unfold toDateString, msPerDay.
  replace (d - 86400000) with (d + (-1) * 86400000) by lia.
  rewrite Z.div_add by lia. lia.
Qed.

Lemma generateForDate_midnight d db :
  generateForDate (toUtcMidnight d) db = generateForDate d db.
Proof. unfold generateForDate. rewrite toUtcMidnight_idem. reflexivity. Qed.

Lemma generateForDate_same_day d d' db :
  toDateString d' = toDateString d ->
  generateForDate d' db = generateForDate d db.
Proof.
  intros E. rewrite <- (generateForDate_midnight d'),
    <- (generateForDate_midnight d), !midnight_of_day, E. reflexivity.
Qed.

Lemma day_count_days a b :
  day_count (toUtcMidnight a) (toUtcMidnight b)
  = Z.to_nat (toDateString b - toDateString a + 1).
Proof.
  unfold day_count. rewrite !midnight_of_day.
  replace (toDateString b * msPerDay - toDateString a * msPerDay)
    with ((toDateString b - toDateString a) * msPerDay) by lia.
  rewrite Z.div_mul by (unfold msPerDay; lia). reflexivity.
Qed.

(** X13.  [generateForYesterday] is the run for the UTC day before the
    current one: its result is dated at the midnight that begins that day,
    the time of day at which it is started makes no difference, and it
    does what a backfill of that one day does. *)
Theorem generateForYesterday_previous_day :
  forall (now : Z) (db : DB),
    date (fst (generateForYesterday now db)) = toUtcMidnight now - msPerDay
    /\ toDateString (date (fst (generateForYesterday now db)))
       = toDateString now - 1
    /\ (forall now',
          toDateString now' = toDateString now ->
          generateForYesterday now' db = generateForYesterday now db)
    /\ backfill (now - msPerDay) (now - msPerDay) db
       = ([fst (generateForYesterday now db)],
          snd (generateForYesterday now db)).
Proof.
  intros now db. unfold generateForYesterday.
  assert (Hdate : date (fst (generateForDate (now - msPerDay) db))
                  = toUtcMidnight now - msPerDay).
  { rewrite generateForDate_date, !midnight_of_day, toDateString_previous.
    lia. }
  split; [exact Hdate|]. split; [|split].
  - rewrite Hdate, <- (toDateString_midnight now), <- toDateString_previous.
    reflexivity.
  - intros now' E. apply generateForDate_same_day.
    rewrite !toDateString_previous, E. reflexivity.
  - rewrite backfill_run_each, day_count_days.
    replace (toDateString (now - msPerDay) - toDateString (now - msPerDay) + 1)
      with 1 by lia.
    change (Z.to_nat 1) with 1%nat. cbn [day_range].
    rewrite run_each_cons. cbn [run_each fst snd].
    rewrite generateForDate_midnight. reflexivity.
Qed.

(** *** A backfill as a sequence of runs *)

Lemma run_each_app dates1 : forall dates2 db,
  run_each (dates1 ++ dates2) db
  = (fst (run_each dates1 db)
       ++ fst (run_each dates2 (snd (run_each dates1 db))),
     snd (run_each dates2 (snd (run_each dates1 db)))).
Proof.
  induction dates1 as [|d dates1 IH]; intros dates2 db.
  - cbn [app run_each fst snd]. destruct (run_each dates2 db). reflexivity.
  - rewrite <- app_comm_cons, !run_each_cons, IH. reflexivity.
Qed.

Lemma day_range_app n1 : forall n2 start,
  day_range start (n1 + n2)
  = day_range start n1
    ++ day_range (start + Z.of_nat n1 * msPerDay) n2.
Proof.
  induction n1 as [|n1 IH]; intros n2 start.
  - cbn [Nat.add day_range app]. f_equal. lia.
  - cbn [Nat.add day_range app]. rewrite IH.
    replace (start + Z.of_nat (S n1) * msPerDay)
      with (start + msPerDay + Z.of_nat n1 * msPerDay) by lia.
    reflexivity.
Qed.

Lemma run_each_local_offset dates : forall db,
  local_offset (snd (run_each dates db)) = local_offset db.
Proof.
  induction dates as [|d dates IH]; intros db; [reflexivity|].
  rewrite run_each_cons. cbn [snd]. rewrite IH.
  apply generateForDate_deployment.
Qed.

Lemma run_each_rows_where f dates : forall db,
  Forall (fun d => f (toDateString d + local_offset db / msPerDay) = false)
         dates ->
  rows_where f (daily_snapshots (snd (run_each dates db)))
  = rows_where f (daily_snapshots db).
Proof.
  induction dates as [|d dates IH]; intros db H; [reflexivity|].
  inversion H; subst. rewrite run_each_cons. cbn [snd].
  rewrite IH.
  - apply generateForDate_rows_where. rewrite stored_day_shift. assumption.
  - rewrite (proj2 (generateForDate_deployment d db)). assumption.
Qed.

Lemma run_each_signals dates : forall db,
  sentiment_signals (snd (run_each dates db)) = sentiment_signals db.
Proof.
  induction dates as [|d dates IH]; intros db; [reflexivity|].
  rewrite run_each_cons. cbn [snd]. rewrite IH. apply generateForDate_signals.
Qed.

Lemma run_each_length dates : forall db,
  length (fst (run_each dates db)) = length dates.
Proof.
  induction dates as [|d dates IH]; intros db; [reflexivity|].
  rewrite run_each_cons. cbn [fst length]. rewrite IH. reflexivity.
Qed.

Lemma generateForDate_executed date0 db :
  exists entities,
    executed (snd (generateForDate date0 db))
    = executed db ++ [QAggregate (toDateString date0); QUpsert entities].
Proof.
  pose proof (aggregateForDate_not_empty (toUtcMidnight date0) db) as Hne.
  unfold generateForDate, aggregateForDate, upsertSnapshots in *.
  cbn [fst] in *. rewrite toDateString_midnight in *.
  destruct (map parseRow _) as [|a aggs]; [contradiction|].
  cbn [length Nat.eqb snd executed]. eexists. rewrite <- app_assoc.
  reflexivity.
Qed.

Lemma run_each_executed dates : forall db,
  length (executed (snd (run_each dates db)))
  = (length (executed db) + 2 * length dates)%nat.
Proof.
  induction dates as [|d dates IH]; intros db; [cbn; lia|].
  rewrite run_each_cons. cbn [snd length]. rewrite IH.
  destruct (generateForDate_executed d db) as (entities & ->).
  rewrite length_app. cbn [length]. lia.
Qed.

Lemma day_range_days n : forall start d,
  In d (day_range start n) ->
  toDateString start <= toDateString d < toDateString start + Z.of_nat n.
Proof.
  induction n as [|n IH]; intros start d; [intros []|].
  cbn [day_range]. intros [<-|Hin]; [lia|].
  apply IH in Hin. rewrite toDateString_next in Hin. lia.
Qed.

(** X14.  A backfill of a range makes one run for each day of the range,
    from the day of [from] to the day of [to]: it returns that many
    results and executes two statements for each.  It writes under the
    calendar days, in the local time of the process, of the UTC midnights
    of the range (the days of the range moved by the whole days of the
    local offset, one day back when the local time is behind UTC) and
    leaves the stored rows of every other day as they are, in their
    order; it does not write the raw records. *)
Theorem backfill_frame :
  forall (from to : Z) (db : DB),
    let run := backfill from to db in
    let first := stored_day db (toUtcMidnight from) in
    let last := stored_day db (toUtcMidnight to) in
    length (fst run) = Z.to_nat (toDateString to - toDateString from + 1)
    /\ length (executed (snd run))
       = (length (executed db) + 2 * length (fst run))%nat
    /\ first = toDateString from + local_offset db / msPerDay
    /\ last = toDateString to + local_offset db / msPerDay
    /\ rows_where (fun d => negb ((first <=? d) && (d <=? last)))
         (daily_snapshots (snd run))
       = rows_where (fun d => negb ((first <=? d) && (d <=? last)))
           (daily_snapshots db)
    /\ sentiment_signals (snd run) = sentiment_signals db.
Proof.
  intros from to db run first last. subst run first last.
  rewrite backfill_run_each. rewrite day_count_days.
  set (n := Z.to_nat (toDateString to - toDateString from + 1)).
  assert (Hlen : length (day_range (toUtcMidnight from) n) = n).
  { rewrite day_range_nth, length_map, length_seq. reflexivity. }
  split; [rewrite run_each_length; exact Hlen|].
  split; [rewrite run_each_executed, run_each_length; reflexivity|].
  split; [apply stored_day_shift|]. split; [apply stored_day_shift|].
  split; [|apply run_each_signals].
  apply run_each_rows_where. apply List.Forall_forall. intros d Hd.
  apply day_range_days in Hd. rewrite toDateString_midnight in Hd.
  rewrite !stored_day_shift.
  subst n. apply negb_false_iff, andb_true_iff. rewrite !Z.leb_le. lia.
Qed.

(** X15.  A backfill can be made in two parts: for a day [mid] of the
    range, the backfill up to [mid] followed by the backfill from the day
    after [mid] returns the results of the whole backfill, in order, and
    leaves the same database. *)
Theorem backfill_resume :
  forall (from mid to : Z) (db : DB),
    toDateString from <= toDateString mid <= toDateString to ->
    let first := backfill from mid db in
    let second := backfill (mid + msPerDay) to (snd first) in
    backfill from to db = (fst first ++ fst second, snd second).
Proof.
  intros from mid to db H first second. subst first second.
  rewrite !backfill_run_each, !day_count_days, toDateString_next.
  replace (Z.to_nat (toDateString to - toDateString from + 1))
    with (Z.to_nat (toDateString mid - toDateString from + 1)
          + Z.to_nat (toDateString to - (toDateString mid + 1) + 1))%nat
    by lia.
  rewrite day_range_app, run_each_app.
  replace (toUtcMidnight from
           + Z.of_nat (Z.to_nat (toDateString mid - toDateString from + 1))
             * msPerDay)
    with (toUtcMidnight (mid + msPerDay)).
  - reflexivity.
  - rewrite !midnight_of_day, toDateString_next. lia.
Qed.

Lemma backfill_resume_witness :
  toDateString day_2024_06_15 <= toDateString (day_2024_06_15 + msPerDay)
  <= toDateString (day_2024_06_15 + 2 * msPerDay)
  /\ backfill day_2024_06_15 (day_2024_06_15 + 2 * msPerDay)
       (db_of scenario_1)
     = (fst (backfill day_2024_06_15 (day_2024_06_15 + msPerDay)
               (db_of scenario_1))
          ++ fst (backfill (day_2024_06_15 + msPerDay + msPerDay)
                    (day_2024_06_15 + 2 * msPerDay)
                    (snd (backfill day_2024_06_15
                            (day_2024_06_15 + msPerDay)
                            (db_of scenario_1)))),
        snd (backfill (day_2024_06_15 + msPerDay + msPerDay)
               (day_2024_06_15 + 2 * msPerDay)
               (snd (backfill day_2024_06_15 (day_2024_06_15 + msPerDay)
                       (db_of scenario_1))))).
Proof.
  assert (H : toDateString day_2024_06_15
              <= toDateString (day_2024_06_15 + msPerDay)
              <= toDateString (day_2024_06_15 + 2 * msPerDay))
    by (vm_compute; split; discriminate).
  split; [exact H|].
  apply (backfill_resume day_2024_06_15 (day_2024_06_15 + msPerDay)
           (day_2024_06_15 + 2 * msPerDay) (db_of scenario_1) H).
Defined.

End SnapshotMore.

(** ** More on the portfolio service *)

Module PortfolioMore.
Import Performance Portfolio JSProofs PerformanceProofs PortfolioProofs.

(** *** The balances of an account *)

Lemma truthy_Some s : truthy (Some s) = true -> s <> ""%string.
Proof.
  unfold truthy. intros H ->. discriminate H.
Qed.

Lemma balance_of_line_Some line b :
  balance_of_line line = Some b ->
  sb_balance b = bl_balance line
  /\ ((asset_type line = "native"%string
       /\ sb_assetCode b = "XLM"%string /\ sb_assetIssuer b = None)
      \/ (asset_type line <> "native"%string
          /\ asset_code line = Some (sb_assetCode b)
          /\ asset_issuer line = sb_assetIssuer b
          /\ sb_assetCode b <> ""%string
          /\ exists issuer, sb_assetIssuer b = Some issuer
                            /\ issuer <> ""%string)).
Proof.
  unfold balance_of_line.
  destruct (String.eqb (asset_type line) "native") eqn:En.
  - apply String.eqb_eq in En. intros [= <-]. cbn. auto.
  - apply String.eqb_neq in En.
    destruct (asset_code line) as [c|]; [|discriminate].
    destruct (asset_issuer line) as [i|]; [|discriminate].
    destruct (truthy (Some c)) eqn:Tc; [|discriminate].
    destruct (truthy (Some i)) eqn:Ti; [|discriminate].
    cbn [andb]. intros [= <-]. cbn. split; [reflexivity|]. right.
    repeat split; try assumption.
    + apply truthy_Some, Tc.
    + exists i. split; [reflexivity | apply truthy_Some, Ti].
Qed.

Lemma omap_length {A B} (f : A -> option B) (l : list A) :
  (length (omap f l) <= length l)%nat.
Proof.
  induction l as [|x l IH]; cbn; [lia|]. destruct (f x); cbn; lia.
Qed.

(** X16.  When Horizon answers, [getAccountBalances] asks it once and
    returns balances each of which comes from a line of the account, with
    the amount of that line: the native line as XLM without an issuer, any
    other line under its own code and issuer, both of them present and not
    empty.  No line gives two balances, and every native line gives
    one. *)
Theorem getAccountBalances_lines :
  forall (publicKey : string) (w : World) (lines : list BalanceLine),
    horizon w publicKey = Some lines ->
    exists balances,
      getAccountBalances publicKey w
      = (Returned balances, record_call (LoadAccount publicKey) w)
      /\ (forall b, In b balances ->
            exists line,
              In line lines
              /\ sb_balance b = bl_balance line
              /\ ((asset_type line = "native"%string
                   /\ sb_assetCode b = "XLM"%string
                   /\ sb_assetIssuer b = None)
                  \/ (asset_type line <> "native"%string
                      /\ asset_code line = Some (sb_assetCode b)
                      /\ asset_issuer line = sb_assetIssuer b
                      /\ sb_assetCode b <> ""%string
                      /\ exists issuer, sb_assetIssuer b = Some issuer
                                        /\ issuer <> ""%string)))
      /\ (length balances <= length lines)%nat
      /\ (forall line, In line lines -> asset_type line = "native"%string ->
            In (mkStellarBalance "XLM" None (bl_balance line)) balances).
Proof.
  intros publicKey w lines H. unfold getAccountBalances. rewrite H.
  eexists. split; [reflexivity|]. split; [|split].
  - intros b Hb. apply list_elem_of_In, list_elem_of_omap in Hb.
    destruct Hb as (line & Hline & Hb). apply list_elem_of_In in Hline.
    exists line. split; [exact Hline|]. apply balance_of_line_Some, Hb.
  - apply omap_length.
  - intros line Hline Hn. apply list_elem_of_In, list_elem_of_omap.
    exists line. split; [apply list_elem_of_In, Hline|].
    unfold balance_of_line. rewrite Hn. reflexivity.
Qed.

Lemma getAccountBalances_lines_witness :
  horizon online_world alice
  = Some [ mkBalanceLine "native" None None "100.0000000";
           mkBalanceLine "credit_alphanum4" (Some "USDC"%string)
                         (Some "GA5Z"%string) "2.5000000";
           mkBalanceLine "liquidity_pool_shares" None None "7.0000000" ]
  /\ exists balances,
      getAccountBalances alice online_world
      = (Returned balances, record_call (LoadAccount alice) online_world)
      /\ (length balances <= 3)%nat.
Proof.
  split; [reflexivity|].
  destruct (getAccountBalances_lines alice online_world _ eq_refl)
    as (balances & Hb & _ & Hlen & _).
  exists balances. split; [exact Hb | exact Hlen].
Defined.

(** *** The value of a holding *)

Lemma own_not_inherited assetCode v :
  mockPrices assetCode = Own v -> inherited assetCode = false.
Proof.
  unfold mockPrices.
  destruct (String.eqb assetCode "XLM") eqn:E1;
    [apply String.eqb_eq in E1; subst; reflexivity|].
  destruct (String.eqb assetCode "USDC") eqn:E2;
    [apply String.eqb_eq in E2; subst; reflexivity|].
  destruct (String.eqb assetCode "BTC") eqn:E3;
    [apply String.eqb_eq in E3; subst; reflexivity|].
  fold (inherited assetCode). destruct (inherited assetCode); discriminate.
Qed.

Lemma mockPrices_inherited assetCode :
  mockPrices assetCode = Inherited <-> inherited assetCode = true.
Proof.
  split.
  - unfold mockPrices.
    destruct (String.eqb assetCode "XLM"); [discriminate|].
    destruct (String.eqb assetCode "USDC"); [discriminate|].
    destruct (String.eqb assetCode "BTC"); [discriminate|].
    fold (inherited assetCode). destruct (inherited assetCode);
      [reflexivity | discriminate].
  - intros H. destruct (mockPrices assetCode) as [v| |] eqn:E.
    + apply own_not_inherited in E. congruence.
    + reflexivity.
    + unfold mockPrices in E.
      destruct (String.eqb assetCode "XLM"); [discriminate|].
      destruct (String.eqb assetCode "USDC"); [discriminate|].
      destruct (String.eqb assetCode "BTC"); [discriminate|].
      fold (inherited assetCode) in E. rewrite H in E. discriminate.
Qed.

Lemma mockPrices_own assetCode v :
  mockPrices assetCode = Own v ->
  exists p, v = Fin p /\ (0 < p)%Q
            /\ (assetCode = "XLM"%string \/ assetCode = "USDC"%string
                \/ assetCode = "BTC"%string).
Proof.
  unfold mockPrices.
  destruct (String.eqb assetCode "XLM") eqn:E1.
  { apply String.eqb_eq in E1. intros [= <-]. eexists. split; [reflexivity|].
    split; [reflexivity | auto]. }
  destruct (String.eqb assetCode "USDC") eqn:E2.
  { apply String.eqb_eq in E2. intros [= <-]. eexists. split; [reflexivity|].
    split; [reflexivity | auto]. }
  destruct (String.eqb assetCode "BTC") eqn:E3.
  { apply String.eqb_eq in E3. intros [= <-]. eexists. split; [reflexivity|].
    split; [reflexivity | auto]. }
  destruct (existsb _ _); discriminate.
Qed.

(** X17.  The value of a holding does not depend on the issuer.  A code
    that names a property of [Object.prototype], and an amount that does
    not parse, give NaN; a value that is a finite number is that of an
    amount that parses to one and of a code that names no such property.
    For an amount that parses to a finite number, the value is 0 for a
    code without a price and, for a code with a price, the number nearest
    to the amount times the price: a finite one is within the accuracy of
    one rounding of that product. *)
Theorem getAssetValueUsd_cases :
  forall (assetCode0 : string) (assetIssuer0 : option string)
         (amount0 : string),
    let value := getAssetValueUsd assetCode0 assetIssuer0 amount0 in
    (forall issuer', getAssetValueUsd assetCode0 issuer' amount0 = value)
    /\ (inherited assetCode0 = true -> value = NaN)
    /\ (parseFloat amount0 = NaN -> value = NaN)
    /\ (is_finite value = true ->
        is_finite (parseFloat amount0) = true
        /\ inherited assetCode0 = false)
    /\ (forall q, parseFloat amount0 = Fin q ->
          (mockPrices assetCode0 = Undefined -> value = Fin 0)
          /\ (forall p, mockPrices assetCode0 = Own (Fin p) ->
                value = round64 (q * p)
                /\ forall v, value = Fin v ->
                     (Qabs (v - q * p)
                      <= Qabs (q * p) * Qpower 2 (-53) + Qpower 2 (-1075))%Q)).
Proof.
  intros c i a value. subst value. split; [reflexivity|].
  unfold getAssetValueUsd. split; [|split; [|split]].
  - intros H. apply mockPrices_inherited in H. rewrite H. reflexivity.
  - intros ->. destruct (mockPrices c) as [[| | |]| |]; reflexivity.
  - destruct (mockPrices c) as [v| |] eqn:E.
    + rewrite (own_not_inherited c v E).
      destruct (mockPrices_own c v E) as (p & -> & Hp & _).
      assert (Hp0 : Qeq_bool p 0 = false).
      { destruct (Qeq_bool p 0) eqn:Ep; [|reflexivity].
        apply Qeq_bool_iff in Ep. rewrite Ep in Hp. discriminate Hp. }
      destruct (parseFloat a) as [q| | |]; cbn [num_mul is_finite];
        try (intros H; discriminate H); try (split; reflexivity).
      * rewrite Hp0. destruct (Qsign_pos p); intros H; discriminate H.
      * rewrite Hp0. destruct (negb (Qsign_pos p)); intros H; discriminate H.
    + intros H. discriminate H.
    + assert (Hi : inherited c = false).
      { destruct (inherited c) eqn:Ei; [|reflexivity].
        apply mockPrices_inherited in Ei. congruence. }
      destruct (parseFloat a) as [q| | |]; cbn [num_mul is_finite];
        try (intros H; discriminate H); try (split; [reflexivity | exact Hi]).
  - intros q ->. split.
    + intros ->. cbn [num_mul].
      rewrite (round64_ext (q * 0) 0) by ring. reflexivity.
    + intros p ->. cbn [num_mul]. split; [reflexivity|].
      intros v Hv. apply round64_close, Hv.
Qed.

(** An amount times a price can be too large for a number. *)
Example value_overflow :
  parseFloat "1e305" = literal (Qpower 10 305)
  /\ is_finite (parseFloat "1e305") = true
  /\ getAssetValueUsd "BTC" None "1e305" = PosInf
  /\ parseFloat "1e400" = PosInf.
Proof. vm_compute. repeat split. Qed.

(** *** The snapshot [createSnapshot] saves *)

Lemma createSnapshot_known userId0 w :
  In userId0 (users w) ->
  exists balances,
    let snapshot :=
      {| id := db_uuid w (length (portfolio_snapshots w));
         userId := userId0;
         createdAt := db_now w;
         assetBalances := balances;
         totalValueUsd := toFixed (sum_values balances) 2 |} in
    fst (createSnapshot userId0 w) = Returned snapshot
    /\ Forall valued balances
    /\ map held balances = holdings_of userId0 w
    /\ saved_in snapshot w (snd (createSnapshot userId0 w)).
Proof.
  intros Hin. unfold createSnapshot, holdings_of. cbn [record_call users].
  rewrite (find_user_present _ _ Hin).
  unfold getAccountBalances. cbn [record_call horizon].
  destruct (horizon w userId0) as [lines|].
  - unfold value_stellar. rewrite map_total_valued.
    unfold save_snapshot. cbn [fst snd]. eexists. split; [reflexivity|].
    split; [|split; [|repeat split]].
    + apply List.Forall_forall. intros b Hb. apply in_map_iff in Hb.
      destruct Hb as (x & <- & _). reflexivity.
    + rewrite map_map. reflexivity.
  - cbn [record_call portfolio_assets]. unfold value_asset.
    rewrite map_total_valued.
    unfold save_snapshot. cbn [fst snd]. eexists. split; [reflexivity|].
    split; [|split; [|repeat split]].
    + apply List.Forall_forall. intros b Hb. apply in_map_iff in Hb.
      destruct Hb as (x & <- & _). reflexivity.
    + rewrite map_map. reflexivity.
Qed.

Lemma createSnapshot_unknown userId0 w :
  ~ In userId0 (users w) ->
  exists message,
    createSnapshot userId0 w
    = (Thrown (NotFoundException message),
       record_call (FindUser userId0) (record_call (Logged LevelLog) w)).
Proof.
  intros Hno. unfold createSnapshot. cbn [record_call users].
  rewrite (find_user_absent _ _ Hno). eexists. reflexivity.
Qed.

Lemma createSnapshot_returns userId0 w snapshot :
  fst (createSnapshot userId0 w) = Returned snapshot -> In userId0 (users w).
Proof.
  intros H. destruct (in_dec string_dec userId0 (users w)) as [Hin|Hno];
    [exact Hin|].
  destruct (createSnapshot_unknown userId0 w Hno) as (m & E).
  rewrite E in H. discriminate.
Qed.

(** X18.  [createSnapshot] returns a snapshot exactly for a known user.
    The snapshot is the one row added to the snapshot table, nothing else
    of the stores changes; it has the user's id, and the id and the date
    of creation the database supplies; its holdings are what the user
    holds, one for one and in order, and each of them carries the value
    [getAssetValueUsd] gives its code and amount; its total is the
    sum of those values, each addition rounded as numbers are, written
    with two decimals, and read back as a number it is the number nearest
    to that sum rounded to two decimals. *)
Theorem createSnapshot_total :
  forall (userId0 : string) (w : World) (snapshot : SnapshotData),
    fst (createSnapshot userId0 w) = Returned snapshot ->
    In userId0 (users w)
    /\ userId snapshot = userId0
    /\ id snapshot = db_uuid w (length (portfolio_snapshots w))
    /\ createdAt snapshot = db_now w
    /\ map held (assetBalances snapshot) = holdings_of userId0 w
    /\ Forall valued (assetBalances snapshot)
    /\ totalValueUsd snapshot
       = toFixed (sum_values (assetBalances snapshot)) 2
    /\ parseFloat (totalValueUsd snapshot)
       = round_number 2 (sum_values (assetBalances snapshot))
    /\ saved_in snapshot w (snd (createSnapshot userId0 w)).
Proof.
  intros userId0 w snapshot H.
  pose proof (createSnapshot_returns _ _ _ H) as Hin.
  destruct (createSnapshot_known userId0 w Hin)
    as (balances & E & Hv & Hh & Hs).
  cbv zeta in E, Hs. rewrite E in H. injection H as <-.
  cbn [userId id createdAt assetBalances totalValueUsd].
  split; [exact Hin|]. do 3 (split; [reflexivity|]).
  split; [exact Hh|]. split; [exact Hv|]. split; [reflexivity|].
  split; [apply parseFloat_toFixed | exact Hs].
Qed.

Lemma createSnapshot_total_witness :
  let snapshot :=
    {| id := "22222222-2222-4222-8222-222222222222";
       userId := alice;
       createdAt := at_2026_02_20_12;
       assetBalances :=
         [ mkAssetBalance "USDC" (Some "GA5Z"%string) "1.00500000"
                          (literal (1005 # 1000)) ];
       totalValueUsd := "1.00" |} in
  fst (createSnapshot alice rounding_world) = Returned snapshot
  /\ In alice (users rounding_world)
  /\ totalValueUsd snapshot
     = toFixed (sum_values (assetBalances snapshot)) 2
  /\ parseFloat (totalValueUsd snapshot)
     = round_number 2 (sum_values (assetBalances snapshot))
  /\ parseFloat (totalValueUsd snapshot) = Fin 1.
Proof.
  intros snapshot.
  assert (H : fst (createSnapshot alice rounding_world) = Returned snapshot)
    by reflexivity.
  split; [exact H|].
  destruct (createSnapshot_total alice rounding_world snapshot H)
    as (H1 & _ & _ & _ & _ & _ & H6 & H7 & _).
  split; [exact H1|]. split; [exact H6|]. split; [exact H7|]. reflexivity.
Defined.

(** X19.  For a known user whose account Horizon returns, the holdings of
    the snapshot are the balances of the account, in their order, each with
    its code, issuer and amount; the asset table is not read and no warning
    is logged: what is asked is the user, the account and the save, and
    the snapshot is the same whatever the asset table holds. *)
Theorem createSnapshot_live :
  forall (userId0 : string) (w : World) (lines : list BalanceLine),
    In userId0 (users w) ->
    horizon w userId0 = Some lines ->
    exists snapshot,
      fst (createSnapshot userId0 w) = Returned snapshot
      /\ map (fun b => (assetCode b, assetIssuer b, amount b))
             (assetBalances snapshot)
         = map (fun b => (sb_assetCode b, sb_assetIssuer b, sb_balance b))
             (omap balance_of_line lines)
      /\ calls (snd (createSnapshot userId0 w))
         = calls w ++ [Logged LevelLog; FindUser userId0;
                       LoadAccount userId0; SaveSnapshot snapshot]
      /\ (forall w2,
            users w2 = users w -> horizon w2 = horizon w ->
            portfolio_snapshots w2 = portfolio_snapshots w ->
            db_uuid w2 = db_uuid w -> db_now w2 = db_now w ->
            fst (createSnapshot userId0 w2) = Returned snapshot).
Proof.
  intros userId0 w lines Hin Hlive.
  set (holdings :=
         map (fun x => mkAssetBalance (sb_assetCode x) (sb_assetIssuer x)
                         (sb_balance x)
                         (getAssetValueUsd (sb_assetCode x) (sb_assetIssuer x)
                            (sb_balance x)))
             (omap balance_of_line lines)).
  set (snapshot :=
         {| id := db_uuid w (length (portfolio_snapshots w));
            userId := userId0;
            createdAt := db_now w;
            assetBalances := holdings;
            totalValueUsd := toFixed (sum_values holdings) 2 |}).
  assert (Hrun : forall w2,
            users w2 = users w -> horizon w2 = horizon w ->
            portfolio_snapshots w2 = portfolio_snapshots w ->
            db_uuid w2 = db_uuid w -> db_now w2 = db_now w ->
            fst (createSnapshot userId0 w2) = Returned snapshot
            /\ calls (snd (createSnapshot userId0 w2))
               = calls w2 ++ [Logged LevelLog; FindUser userId0;
                              LoadAccount userId0; SaveSnapshot snapshot]).
  { intros w2 Hu Hh Hs Hid Hnow. unfold createSnapshot.
    cbn [record_call users]. rewrite Hu, (find_user_present _ _ Hin).
    unfold getAccountBalances. cbn [record_call horizon].
    rewrite Hh, Hlive. unfold value_stellar. rewrite map_total_valued.
    fold holdings. unfold save_snapshot.
    cbn [record_call portfolio_snapshots db_uuid db_now calls fst snd].
    rewrite Hs, Hid, Hnow, <- !app_assoc. fold snapshot.
    split; reflexivity. }
  exists snapshot.
  destruct (Hrun w eq_refl eq_refl eq_refl eq_refl eq_refl) as [Hfst Hcalls].
  split; [exact Hfst|]. split; [|split; [exact Hcalls|]].
  - unfold snapshot, holdings. cbn [assetBalances]. rewrite map_map.
    reflexivity.
  - intros w2 Hu Hh Hs Hid Hnow.
    exact (proj1 (Hrun w2 Hu Hh Hs Hid Hnow)).
Qed.

Lemma createSnapshot_live_witness :
  In alice (users online_world)
  /\ horizon online_world alice
     = Some [ mkBalanceLine "native" None None "100.0000000";
              mkBalanceLine "credit_alphanum4" (Some "USDC"%string)
                            (Some "GA5Z"%string) "2.5000000";
              mkBalanceLine "liquidity_pool_shares" None None "7.0000000" ]
  /\ exists snapshot,
      fst (createSnapshot alice online_world) = Returned snapshot
      /\ map (fun b => (assetCode b, assetIssuer b, amount b))
             (assetBalances snapshot)
         = [ ("XLM"%string, None, "100.0000000"%string);
             ("USDC"%string, Some "GA5Z"%string, "2.5000000"%string) ].
Proof.
  assert (H1 : In alice (users online_world)) by (left; reflexivity).
  split; [exact H1|]. split; [reflexivity|].
  destruct (createSnapshot_live alice online_world _ H1 eq_refl)
    as (snapshot & Hs & Hb & _).
  exists snapshot. split; [exact Hs | exact Hb].
Defined.

(** *** A value that is not a number *)

Lemma num_add_NaN_r x : num_add x NaN = NaN.
Proof. destruct x; reflexivity. Qed.

Lemma fold_add_NaN l : fold_left num_add l NaN = NaN.
Proof. induction l as [|x l IH]; [reflexivity | exact IH]. Qed.

Lemma fold_add_In_NaN l : forall t, In NaN l -> fold_left num_add l t = NaN.
Proof.
  induction l as [|x l IH]; intros t; [intros []|].
  cbn [fold_left]. intros [->|Hin].
  - rewrite num_add_NaN_r. apply fold_add_NaN.
  - apply IH, Hin.
Qed.

Lemma getAssetValueUsd_NaN c i a :
  parseFloat a = NaN \/ inherited c = true -> getAssetValueUsd c i a = NaN.
Proof.
  unfold getAssetValueUsd. intros [->|H].
  - destruct (mockPrices c) as [[| | |]| |]; reflexivity.
  - apply mockPrices_inherited in H. rewrite H. reflexivity.
Qed.

(** X20.  One holding spoils the total: when a holding of the snapshot has
    an amount that does not parse as a number, or a code that names a
    property of [Object.prototype], the total of the snapshot is the text
    [NaN], which reads back as NaN. *)
Theorem createSnapshot_NaN_total :
  forall (userId0 : string) (w : World) (snapshot : SnapshotData)
         (b : AssetBalance),
    fst (createSnapshot userId0 w) = Returned snapshot ->
    In b (assetBalances snapshot) ->
    parseFloat (amount b) = NaN \/ inherited (assetCode b) = true ->
    totalValueUsd snapshot = "NaN"%string
    /\ parseFloat (totalValueUsd snapshot) = NaN.
Proof.
  intros userId0 w snapshot b H Hb Hbad.
  pose proof (createSnapshot_returns _ _ _ H) as Hin.
  destruct (createSnapshot_known userId0 w Hin) as (balances & E & Hv & _).
  cbv zeta in E. rewrite E in H. injection H as <-.
  cbn [assetBalances totalValueUsd] in *.
  assert (Hsum : sum_values balances = NaN).
  { unfold sum_values. apply fold_add_In_NaN.
    rewrite List.Forall_forall in Hv. specialize (Hv b Hb). unfold valued in Hv.
    rewrite (getAssetValueUsd_NaN _ _ _ Hbad) in Hv. rewrite <- Hv.
    apply in_map, Hb. }
  rewrite Hsum. split; reflexivity.
Qed.

Lemma createSnapshot_NaN_total_witness :
  totalValueUsd
    {| id := "22222222-2222-4222-8222-222222222222";
       userId := alice;
       createdAt := at_2026_02_20_12;
       assetBalances :=
         [ mkAssetBalance "XLM" None "100.00000000" (Fin 12);
           mkAssetBalance "constructor" None "1.00000000" NaN ];
       totalValueUsd := "NaN" |}
  = "NaN"%string
  /\ fst (createSnapshot alice poisoned_world)
     = Returned
         {| id := "22222222-2222-4222-8222-222222222222";
            userId := alice;
            createdAt := at_2026_02_20_12;
            assetBalances :=
              [ mkAssetBalance "XLM" None "100.00000000" (Fin 12);
                mkAssetBalance "constructor" None "1.00000000" NaN ];
            totalValueUsd := "NaN" |}.
Proof.
  assert (H : fst (createSnapshot alice poisoned_world)
              = Returned
                  {| id := "22222222-2222-4222-8222-222222222222";
                     userId := alice;
                     createdAt := at_2026_02_20_12;
                     assetBalances :=
                       [ mkAssetBalance "XLM" None "100.00000000" (Fin 12);
                         mkAssetBalance "constructor" None "1.00000000" NaN ];
                     totalValueUsd := "NaN" |})
    by reflexivity.
  split; [|exact H].
  exact (proj1 (createSnapshot_NaN_total alice poisoned_world _
                  (mkAssetBalance "constructor" None "1.00000000" NaN) H
                  (or_intror (or_introl eq_refl))
                  (or_intror eq_refl))).
Defined.

(** *** The loop over the users *)

Section LoopCounts.

Variable create : string -> World -> outcome SnapshotData * World.

Lemma snapshot_loop_counts remaining : forall successCount failCount w,
  let '(successCount', failCount', _) :=
    snapshot_loop create remaining successCount failCount w in
  successCount' + failCount'
  = successCount + failCount + Z.of_nat (length remaining)
  /\ successCount <= successCount' /\ failCount <= failCount'.
Proof.
  induction remaining as [|user remaining IH]; intros s f w.
  - cbn. lia.
  - cbn [snapshot_loop]. destruct (create user w) as [[snapshot|e] w1].
    + specialize (IH (s + 1) f w1).
      destruct (snapshot_loop create remaining (s + 1) f w1) as [[s' f'] w'].
      cbn [length]. lia.
    + specialize (IH s (f + 1) (record_call (Logged LevelError) w1)).
      destruct (snapshot_loop create remaining s (f + 1) _) as [[s' f'] w'].
      cbn [length]. lia.
Qed.

End LoopCounts.

(** X21.  The loop of the two jobs goes through every user whatever the
    attempt for a user does: for any behaviour of the call it makes for a
    user, returning or throwing, the two counters together grow by the
    number of users, and neither decreases. *)
Theorem snapshot_loop_visits_all :
  forall (create : string -> World -> outcome SnapshotData * World)
         (remaining : list string) (successCount failCount : Z) (w : World),
    let run := snapshot_loop create remaining successCount failCount w in
    fst (fst run) + snd (fst run)
    = successCount + failCount + Z.of_nat (length remaining)
    /\ successCount <= fst (fst run)
    /\ failCount <= snd (fst run).
Proof.
  intros create remaining s f w run. subst run.
  pose proof (snapshot_loop_counts create remaining s f w) as H.
  destruct (snapshot_loop create remaining s f w) as [[s' f'] w'].
  exact H.
Qed.



(** *** Pages of the history *)

Lemma snapshot_dto_id (l : list SnapshotData) :
  map (fun snapshot =>
         {| id := id snapshot;
            userId := userId snapshot;
            createdAt := createdAt snapshot;
            assetBalances := assetBalances snapshot;
            totalValueUsd := totalValueUsd snapshot |}) l
  = l.
Proof.
  induction l as [|x l IH]; [reflexivity|].
  cbn [map]. rewrite IH. destruct x. reflexivity.
Qed.

Lemma getPortfolioHistory_snapshots order_by userId0 page0 limit0 w :
  snapshots (getPortfolioHistory order_by userId0 page0 limit0 w)
  = firstn (Z.to_nat limit0)
      (skipn (Z.to_nat ((page0 - 1) * limit0))
         (order_by (of_user userId0 (portfolio_snapshots w)))).
Proof.
  unfold getPortfolioHistory, findAndCount. cbn [snapshots].
  apply snapshot_dto_id.
Qed.

Lemma In_firstn {A} n : forall (l : list A) x, In x (firstn n l) -> In x l.
Proof.
  induction n as [|n IH]; intros [|y l] x; cbn; try tauto.
  intros [->|H]; [left; reflexivity | right; apply IH, H].
Qed.

Lemma In_skipn {A} n : forall (l : list A) x, In x (skipn n l) -> In x l.
Proof.
  induction n as [|n IH]; intros [|y l] x; cbn; try tauto.
  intros H. right. apply IH, H.
Qed.

Lemma StronglySorted_firstn {A} (R : A -> A -> Prop) n : forall l,
  StronglySorted R l -> StronglySorted R (firstn n l).
Proof.
  induction n as [|n IH]; intros l H; [constructor|].
  destruct H as [|a l H Ha]; [constructor|]. cbn [firstn].
  constructor; [apply IH, H|].
  rewrite List.Forall_forall in Ha |- *. intros x Hx. apply Ha.
  eapply In_firstn, Hx.
Qed.

Lemma StronglySorted_skipn {A} (R : A -> A -> Prop) n : forall l,
  StronglySorted R l -> StronglySorted R (skipn n l).
Proof.
  induction n as [|n IH]; intros l H; [exact H|].
  destruct H as [|a l H Ha]; [constructor|]. cbn [skipn]. apply IH, H.
Qed.

Lemma StronglySorted_snoc {A} (R : A -> A -> Prop) l a :
  StronglySorted R l -> Forall (fun x => R x a) l ->
  StronglySorted R (l ++ [a]).
Proof.
  induction 1 as [|b l H IH Hb]; intros Ha; cbn [app].
  - repeat constructor.
  - inversion Ha as [|? ? Hba Hla]; subst.
    constructor; [apply IH, Hla|].
    apply Forall_app. split; [exact Hb | repeat constructor; exact Hba].
Qed.

Lemma newest_first_sorted l : StronglySorted newer_or_same (newest_first l).
Proof.
  unfold newest_first.
  pose proof (sort_by_createdAt_sorted l) as H.
  apply Sorted_StronglySorted in H; [|exact createdAt_le_trans].
  induction H as [|a l' H IH Ha]; [constructor|].
  cbn [rev]. apply StronglySorted_snoc; [exact IH|].
  rewrite List.Forall_forall in Ha |- *. intros x Hx.
  apply in_rev in Hx. exact (Ha x Hx).
Qed.

Lemma newest_first_In l x : In x (newest_first l) <-> In x l.
Proof.
  unfold newest_first. rewrite <- in_rev. split; intros H.
  - eapply Permutation_in; [apply sort_by_createdAt_perm | exact H].
  - eapply Permutation_in; [symmetry; apply sort_by_createdAt_perm | exact H].
Qed.

Lemma newest_first_length l : length (newest_first l) = length l.
Proof.
  unfold newest_first. rewrite length_rev.
  apply Permutation_length, sort_by_createdAt_perm.
Qed.

Lemma newest_first_descending l : descending newest_first l.
Proof.
  split; [|apply newest_first_sorted].
  unfold newest_first. rewrite <- Permutation_rev.
  apply sort_by_createdAt_perm.
Qed.

(** Rows of pairwise distinct dates have one descending order. *)
Lemma descending_order_unique (l1 : list SnapshotData) : forall l2,
  List.NoDup (map createdAt l1) -> Permutation l1 l2 ->
  StronglySorted newer_or_same l1 -> StronglySorted newer_or_same l2 ->
  l1 = l2.
Proof.
  induction l1 as [|a l1 IH]; intros l2 Hnd Hp H1 H2.
  - apply Permutation_nil in Hp. subst l2. reflexivity.
  - destruct l2 as [|b l2].
    { apply Permutation_sym, Permutation_nil in Hp. discriminate Hp. }
    cbn [map] in Hnd. inversion Hnd as [|? ? Hn Hnd']; subst.
    inversion H1 as [|? ? H1' Ha]; subst.
    inversion H2 as [|? ? H2' Hb]; subst.
    rewrite List.Forall_forall in Ha, Hb.
    assert (Eab : a = b).
    { assert (Hbin : In b (a :: l1))
        by (eapply Permutation_in; [symmetry; exact Hp | left; reflexivity]).
      assert (Hain : In a (b :: l2))
        by (eapply Permutation_in; [exact Hp | left; reflexivity]).
      destruct Hbin as [E|Hbin]; [exact E|].
      destruct Hain as [E|Hain]; [symmetry; exact E|].
      exfalso. apply Hn.
      pose proof (Ha b Hbin) as Hab. pose proof (Hb a Hain) as Hba.
      unfold newer_or_same in Hab, Hba.
      replace (createdAt a) with (createdAt b) by lia.
      apply in_map, Hbin. }
    subst b. f_equal. apply IH; [exact Hnd'| |exact H1'|exact H2'].
    eapply Permutation_cons_inv, Hp.
Qed.

(** The number of pages: the least [n] with [total <= n * limit]. *)
Lemma totalPages_bounds (total0 limit0 : Z) :
  0 <= total0 < 2 ^ 53 -> 1 <= limit0 < 2 ^ 53 ->
  exists n,
    ceil (num_div (Fin (inject_Z total0)) (Fin (inject_Z limit0)))
    = Fin (inject_Z n)
    /\ (n - 1) * limit0 < total0 <= n * limit0.
Proof.
  intros Ht Hl.
  destruct (num_div_integers total0 limit0 Ht Hl) as (v & -> & Hex & Hin).
  cbn [ceil].
  pose proof (Z.div_mod total0 limit0 ltac:(lia)) as Hdm.
  pose proof (Z.mod_pos_bound total0 limit0 ltac:(lia)) as Hm.
  destruct (Z.eq_dec (total0 mod limit0) 0) as [Hr|Hr].
  - rewrite (Hex Hr), Qceiling_Z. exists (total0 / limit0).
    split; [reflexivity|]. nia.
  - destruct (Hin Hr) as [Hlo Hhi]. exists (total0 / limit0 + 1).
    assert (E : Qceiling v = total0 / limit0 + 1).
    { pose proof (Qle_ceiling v) as Hup. pose proof (Qceiling_lt v) as Hdn.
      assert (H1 : total0 / limit0 < Qceiling v).
      { rewrite Zlt_Qlt. lra. }
      assert (H2 : Qceiling v - 1 < total0 / limit0 + 1).
      { rewrite Zlt_Qlt. unfold Z.sub in *.
        rewrite !inject_Z_plus, inject_Z_opp in *.
        change (inject_Z 1) with 1%Q in *. lra. }
      lia. }
    rewrite E. split; [reflexivity|]. nia.
Qed.

(** X23.  A page of the history, for a page number of at least 1, a limit
    of at least 1 and a descending order of the snapshots of the user,
    whichever the database takes among snapshots of one date (the limit
    and the number of snapshots being whole numbers below [2^53], which a
    number holds exactly): the page holds at most [limit] snapshots, all
    of them stored snapshots of the user, the newest first; [total] is
    the number of snapshots of the user and [totalPages] is the least
    number of pages of [limit] that hold them all; a page before the last
    is full, no page up to the last is empty, and every page after the
    last is. *)
Theorem getPortfolioHistory_one_page :
  forall (order_by : list SnapshotData -> list SnapshotData)
         (userId0 : string) (page0 limit0 : Z) (w : World),
    descending order_by (of_user userId0 (portfolio_snapshots w)) ->
    1 <= page0 -> 1 <= limit0 < 2 ^ 53 ->
    Z.of_nat (length (of_user userId0 (portfolio_snapshots w))) < 2 ^ 53 ->
    let response := getPortfolioHistory order_by userId0 page0 limit0 w in
    Z.of_nat (length (snapshots response)) <= limit0
    /\ (forall s, In s (snapshots response) ->
          userId s = userId0 /\ In s (portfolio_snapshots w))
    /\ StronglySorted newer_or_same (snapshots response)
    /\ total response
       = Z.of_nat (length (of_user userId0 (portfolio_snapshots w)))
    /\ page response = page0 /\ limit response = limit0
    /\ exists n,
        totalPages response = Fin (inject_Z n)
        /\ (n - 1) * limit0 < total response <= n * limit0
        /\ (page0 < n -> Z.of_nat (length (snapshots response)) = limit0)
        /\ (page0 <= n -> snapshots response <> [])
        /\ (n < page0 -> snapshots response = []).
Proof.
  intros order_by userId0 page0 limit0 w [Hperm Hsorted] Hp Hl Ht response.
  subst response. rewrite getPortfolioHistory_snapshots.
  set (rows := order_by (of_user userId0 (portfolio_snapshots w))) in *.
  assert (Hrows : length rows
                  = length (of_user userId0 (portfolio_snapshots w)))
    by apply Permutation_length, Hperm.
  assert (Hlen : length (firstn (Z.to_nat limit0)
                           (skipn (Z.to_nat ((page0 - 1) * limit0)) rows))
                 = Nat.min (Z.to_nat limit0)
                     (length rows - Z.to_nat ((page0 - 1) * limit0))).
  { rewrite length_firstn, length_skipn. reflexivity. }
  assert (Hskip : 0 <= (page0 - 1) * limit0) by nia.
  split; [rewrite Hlen; lia|]. split; [|split; [|split; [|split; [|split]]]].
  - intros s Hs. apply In_firstn, In_skipn in Hs.
    apply (Permutation_in _ Hperm) in Hs. unfold of_user in Hs.
    apply filter_In in Hs as [Hin Hu]. apply String.eqb_eq in Hu. auto.
  - apply StronglySorted_firstn, StronglySorted_skipn, Hsorted.
  - reflexivity.
  - reflexivity.
  - reflexivity.
  - unfold getPortfolioHistory, findAndCount. cbn [totalPages total].
    destruct (totalPages_bounds
                (Z.of_nat (length (of_user userId0 (portfolio_snapshots w))))
                limit0 ltac:(lia) Hl) as (n & -> & Hn).
    exists n. split; [reflexivity|]. split; [exact Hn|].
    rewrite <- Hrows in Hn. split; [|split].
    + intros Hlt. rewrite Hlen. nia.
    + intros Hle Hnil. apply (f_equal (@length _)) in Hnil.
      rewrite Hlen in Hnil. cbn [length] in Hnil. nia.
    + intros Hgt. apply length_zero_iff_nil. rewrite Hlen. nia.
Qed.

Lemma getPortfolioHistory_one_page_witness :
  let response := getPortfolioHistory newest_first alice 2 2 history_world in
  descending newest_first (of_user alice (portfolio_snapshots history_world))
  /\ map id
       (snapshots (getPortfolioHistory newest_first alice 1 2 history_world))
     = ["s3"; "s2"]%string
  /\ map id (snapshots response) = ["s1"]%string
  /\ total response = 3
  /\ totalPages response = Fin (inject_Z 2)
  /\ Z.of_nat (length (snapshots response)) <= 2
  /\ (forall s, In s (snapshots response) ->
        userId s = alice /\ In s (portfolio_snapshots history_world))
  /\ StronglySorted newer_or_same (snapshots response).
Proof.
  intros response.
  assert (H0 : descending newest_first
                 (of_user alice (portfolio_snapshots history_world)))
    by apply newest_first_descending.
  assert (H1 : 1 <= 2) by lia.
  assert (H2 : 1 <= 2 < 2 ^ 53) by (split; [lia | reflexivity]).
  assert (H3 : Z.of_nat (length (of_user alice
                                   (portfolio_snapshots history_world)))
               < 2 ^ 53) by reflexivity.
  split; [exact H0|]. do 4 (split; [reflexivity|]).
  destruct (getPortfolioHistory_one_page newest_first alice 2 2 history_world
              H0 H1 H2 H3) as (C1 & C2 & C3 & _).
  split; [exact C1|]. split; [exact C2 | exact C3].
Defined.

Lemma skipn_skipn {A} (a b : nat) (l : list A) :
  skipn a (skipn b l) = skipn (b + a) l.
Proof.
  revert l. induction b as [|b IH]; intros l; [reflexivity|].
  destruct l as [|x l]; [destruct a; reflexivity|]. cbn [skipn Nat.add].
  apply IH.
Qed.

Lemma chunks_cover {A} (k : nat) : forall (m : nat) (l : list A),
  (length l <= m * k)%nat ->
  concat (map (fun i => firstn k (skipn (i * k) l)) (seq 0 m)) = l.
Proof.
  induction m as [|m IH]; intros l Hl.
  - destruct l; [reflexivity | cbn in Hl; lia].
  - cbn [seq map concat]. rewrite <- seq_shift, map_map.
    cbn [Nat.mul skipn].
    rewrite (map_ext _ (fun i => firstn k (skipn (i * k) (skipn k l)))).
    + rewrite IH; [apply firstn_skipn|]. rewrite length_skipn. lia.
    + intros i. rewrite skipn_skipn. reflexivity.
Qed.

(** X24.  The pages of the history divide it when no two snapshots of
    the user have the same date of creation: for a limit of at least 1,
    the pages from 1 to [totalPages], each the answer to a query of its
    own, one after the other, are the stored snapshots of the user, the
    newest first, each of them on one page.  (The limit and the number of
    snapshots are whole numbers below [2^53].) *)
Theorem getPortfolioHistory_pages_cover :
  forall (order_of : nat -> list SnapshotData -> list SnapshotData)
         (userId0 : string) (limit0 : Z) (w : World) (n : Z),
    (forall p,
       descending (order_of p) (of_user userId0 (portfolio_snapshots w))) ->
    List.NoDup (map createdAt (of_user userId0 (portfolio_snapshots w))) ->
    1 <= limit0 < 2 ^ 53 ->
    Z.of_nat (length (of_user userId0 (portfolio_snapshots w))) < 2 ^ 53 ->
    totalPages (getPortfolioHistory (order_of 1%nat) userId0 1 limit0 w)
    = Fin (inject_Z n) ->
    let pages :=
      concat
        (map (fun p => snapshots
                         (getPortfolioHistory (order_of p) userId0
                            (Z.of_nat p) limit0 w))
             (seq 1 (Z.to_nat n))) in
    pages = newest_first (of_user userId0 (portfolio_snapshots w))
    /\ Permutation pages (of_user userId0 (portfolio_snapshots w))
    /\ StronglySorted newer_or_same pages
    /\ List.NoDup pages.
Proof.
  intros order_of userId0 limit0 w n Horder Hnd Hl Ht Hn pages.
  set (rows := of_user userId0 (portfolio_snapshots w)) in *.
  assert (Hsame : forall p, order_of p rows = newest_first rows).
  { intros p. destruct (Horder p) as [Hp Hs].
    destruct (newest_first_descending rows) as [Hp' Hs'].
    apply descending_order_unique; [| |exact Hs|exact Hs'].
    - eapply Permutation_NoDup; [|exact Hnd].
      apply Permutation_map, Permutation_sym, Hp.
    - etransitivity; [exact Hp | symmetry; exact Hp']. }
  assert (E : pages = newest_first rows).
  { unfold getPortfolioHistory, findAndCount in Hn. cbn [totalPages] in Hn.
    fold rows in Hn.
    destruct (totalPages_bounds (Z.of_nat (length rows)) limit0
                ltac:(lia) Hl) as (n' & Hn' & Hb).
    rewrite Hn' in Hn. injection Hn as Hn. subst n'.
    unfold pages. rewrite <- seq_shift, map_map.
    rewrite (map_ext _
               (fun i => firstn (Z.to_nat limit0)
                           (skipn (i * Z.to_nat limit0)
                              (newest_first rows)))).
    - apply chunks_cover. rewrite newest_first_length. nia.
    - intros i. rewrite getPortfolioHistory_snapshots. fold rows.
      rewrite Hsame. do 2 f_equal. nia. }
  split; [exact E|]. rewrite E.
  destruct (newest_first_descending rows) as [Hp Hs].
  split; [exact Hp|]. split; [exact Hs|].
  apply (List.NoDup_map_inv createdAt).
  eapply Permutation_NoDup; [|exact Hnd].
  apply Permutation_map, Permutation_sym, Hp.
Qed.

Lemma getPortfolioHistory_pages_cover_witness :
  let order_of := fun p : nat =>
    if Nat.even p then newest_first
    else fun l => newest_first (rev l) in
  (forall p, descending (order_of p)
               (of_user alice (portfolio_snapshots history_world)))
  /\ List.NoDup
       (map createdAt (of_user alice (portfolio_snapshots history_world)))
  /\ totalPages (getPortfolioHistory (order_of 1%nat) alice 1 2 history_world)
     = Fin (inject_Z 2)
  /\ map id
       (concat
          (map (fun p => snapshots
                           (getPortfolioHistory (order_of p) alice
                              (Z.of_nat p) 2 history_world))
               (seq 1 (Z.to_nat 2))))
     = ["s3"; "s2"; "s1"]%string
  /\ concat
       (map (fun p => snapshots
                        (getPortfolioHistory (order_of p) alice
                           (Z.of_nat p) 2 history_world))
            (seq 1 (Z.to_nat 2)))
     = newest_first (of_user alice (portfolio_snapshots history_world)).
Proof.
  intros order_of.
  assert (H0 : forall p, descending (order_of p)
                 (of_user alice (portfolio_snapshots history_world))).
  { intros p. unfold order_of. destruct (Nat.even p).
    - apply newest_first_descending.
    - destruct (newest_first_descending
                  (rev (of_user alice (portfolio_snapshots history_world))))
        as [Hp Hs].
      split; [|exact Hs].
      etransitivity; [exact Hp | symmetry; apply Permutation_rev]. }
  assert (H1 : List.NoDup
                 (map createdAt
                    (of_user alice (portfolio_snapshots history_world)))).
  { vm_compute. repeat constructor; cbn; intuition discriminate. }
  assert (H2 : 1 <= 2 < 2 ^ 53) by (split; [lia | reflexivity]).
  assert (H3 : Z.of_nat (length (of_user alice
                                   (portfolio_snapshots history_world)))
               < 2 ^ 53) by reflexivity.
  assert (H4 : totalPages (getPortfolioHistory (order_of 1%nat) alice 1 2
                             history_world)
               = Fin (inject_Z 2)) by reflexivity.
  split; [exact H0|]. split; [exact H1|]. split; [exact H4|].
  split; [reflexivity|].
  exact (proj1 (getPortfolioHistory_pages_cover order_of alice 2
                  history_world 2 H0 H1 H2 H3 H4)).
Defined.

(** With two snapshots of one date, the query of the first page and the
    query of the second may order them differently: one snapshot is then
    on both pages and the other on none. *)
Example pages_with_ties :
  let rows := of_user alice (portfolio_snapshots tied_world) in
  let other := fun l => newest_first (rev l) in
  descending newest_first rows
  /\ descending other rows
  /\ map id (snapshots (getPortfolioHistory newest_first alice 1 1
                          tied_world))
     = ["s2"]%string
  /\ map id (snapshots (getPortfolioHistory other alice 2 1 tied_world))
     = ["s2"]%string.
Proof.
  intros rows other. split; [apply newest_first_descending|].
  split; [|split; reflexivity].
  destruct (newest_first_descending (rev rows)) as [Hp Hs].
  split; [|exact Hs].
  etransitivity; [exact Hp | symmetry; apply Permutation_rev].
Qed.

(** *** The performance of a user *)

Lemma createSnapshot_log userId0 c w :
  fst (createSnapshot userId0 (record_call c w))
  = fst (createSnapshot userId0 w)
  /\ portfolio_snapshots (snd (createSnapshot userId0 (record_call c w)))
     = portfolio_snapshots (snd (createSnapshot userId0 w)).
Proof.
  unfold createSnapshot, getAccountBalances.
  cbn [record_call users horizon portfolio_assets].
  destruct (List.find (String.eqb userId0) (users w)) as [u|];
    [|split; reflexivity].
  destruct (horizon w u) as [lines|].
  - destruct (map_total value_stellar _ (Fin 0)) as [balances total0].
    split; reflexivity.
  - destruct (map_total value_asset _ (Fin 0)) as [balances total0].
    split; reflexivity.
Qed.

(** X25.  [getPortfolioPerformance] never returns a response and leaves
    the arrays the caller had as they were.  For an unknown user it
    throws [NotFoundException] and writes nothing.  For a known user it
    saves a snapshot, the one [createSnapshot] saves, before it reads the
    history: the table has that one row more, and then the query of the
    history is rejected, and [QueryFailedError] is what the caller
    gets. *)
Theorem getPortfolioPerformance_saves_snapshot :
  forall (userId0 : string) (now calculatedNow : Z) (w : World) (h : heap),
    let run := getPortfolioPerformance userId0 now calculatedNow w h in
    (forall response, fst (fst run) <> Returned response)
    /\ snd run = h
    /\ (~ In userId0 (users w) ->
          (exists message,
             fst (fst run) = Thrown (NotFoundException message))
          /\ portfolio_snapshots (snd (fst run)) = portfolio_snapshots w)
    /\ (In userId0 (users w) ->
        exists snapshot,
          fst (createSnapshot userId0 w) = Returned snapshot
          /\ portfolio_snapshots (snd (fst run))
             = portfolio_snapshots w ++ [snapshot]
          /\ fst (fst run) = Thrown QueryFailedError).
Proof.
  intros userId0 now calculatedNow w h run. subst run.
  unfold getPortfolioPerformance, find_since. cbn [record_call users].
  destruct (in_dec string_dec userId0 (users w)) as [Hin|Hno].
  - rewrite (find_user_present _ _ Hin).
    set (w0 := record_call (FindUser userId0)
                 (record_call (Logged LevelLog) w)).
    assert (Hsame : fst (createSnapshot userId0 w0)
                    = fst (createSnapshot userId0 w)
                    /\ portfolio_snapshots (snd (createSnapshot userId0 w0))
                       = portfolio_snapshots (snd (createSnapshot userId0 w))).
    { unfold w0. destruct (createSnapshot_log userId0 (FindUser userId0)
                             (record_call (Logged LevelLog) w)) as [-> ->].
      apply createSnapshot_log. }
    destruct Hsame as [Hfst Hsnd].
    destruct (createSnapshot_known userId0 w Hin)
      as (balances & E & _ & _ & Hsaved).
    cbv zeta in E, Hsaved. destruct Hsaved as (_ & _ & Htable & _).
    rewrite <- Hsnd in Htable. rewrite E in Hfst. clear Hsnd.
    destruct (createSnapshot userId0 w0) as [r w1].
    cbn [fst snd] in Htable, Hfst. rewrite Hfst. cbn [fst snd].
    split; [intros response H; discriminate H|]. split; [reflexivity|].
    split; [intros Hno; contradiction|]. intros _.
    eexists. split; [exact E|].
    split; [exact Htable | reflexivity].
  - rewrite (find_user_absent _ _ Hno). cbn [fst snd].
    split; [intros response H; discriminate H|]. split; [reflexivity|].
    split; [|intros Hin; contradiction]. intros _.
    split; [eexists; reflexivity | reflexivity].
Qed.

(** A known user: the snapshot is saved and the query fails. *)
Example performance_of_known_user :
  fst (fst (getPortfolioPerformance alice at_2026_02_20_12 at_2026_02_20_12
              offline_world []))
  = Thrown QueryFailedError
  /\ map totalValueUsd
       (portfolio_snapshots
          (snd (fst (getPortfolioPerformance alice at_2026_02_20_12
                       at_2026_02_20_12 offline_world []))))
     = ["14.50"]%string.
Proof. split; reflexivity. Qed.

End PortfolioMore.
